(** * Virtual persons: the generation pipeline of [VirtualPersons.js]

    A shallow embedding of the class [VirtualPersons] and of the parts of the
    JavaScript platform it relies on:

    - strings are sequences of UTF-16 code units, [Buffer.from(s)] is their
      UTF-8 encoding (an unpaired surrogate becomes U+FFFD) and
      [toString('base64')] the RFC 4648 encoding with padding;
    - numbers are binary64 floating-point values, computed with the
      operations of [SpecFloat] at precision 53;
    - objects live in a store and are passed by reference, so that the
      in-place update [personData.headshot = headshot] is seen through every
      alias;
    - the adapters (text generation, persistence, image generation, image
      storage) are interactions with an environment that answers a call
      with a value or with an exception, and every interaction is recorded
      in a trace.

    The response formats of [json-formats.js] and the component of
    [imageCard.vue] follow, over the values of JavaScript that are data. *)

From Stdlib Require Import ZArith NArith List String Ascii Bool Lia.
From Stdlib Require Import SpecFloat DecimalString.
From stdpp Require Import base list.
Import ListNotations.


(* ===================================================================== *)
(** * JavaScript strings *)
(* ===================================================================== *)

(** A string is a sequence of 16-bit code units. *)
Definition code_unit := N.
Definition jsstring := list code_unit.

(** A string literal of the source whose characters are all ASCII. *)
Definition lit (s : string) : jsstring :=
  map N_of_ascii (list_ascii_of_string s).

(** [a === b] on strings. *)
Fixpoint jsstring_eqb (a b : jsstring) : bool :=
  match a, b with
  | [], [] => true
  | x :: a', y :: b' => N.eqb x y && jsstring_eqb a' b'
  | _, _ => false
  end.

(** [names.includes(person)] on an array of strings. *)
Definition includes (names : list jsstring) (person : jsstring) : bool :=
  existsb (jsstring_eqb person) names.

(** A property holding a string or nothing ([undefined]); the empty string
    is falsy like [undefined]. *)
Definition truthy (v : option jsstring) : bool :=
  match v with
  | Some (_ :: _) => true
  | _ => false
  end.

(** An array is an object, and every object is truthy. *)
Definition truthy_array {A} (_ : list A) : bool := true.

(* ===================================================================== *)
(** * [Buffer.from(name).toString('base64')] *)
(* ===================================================================== *)

Definition is_high_surrogate (c : code_unit) : bool :=
  (N.leb 0xD800 c && N.leb c 0xDBFF)%N.
Definition is_low_surrogate (c : code_unit) : bool :=
  (N.leb 0xDC00 c && N.leb c 0xDFFF)%N.

(** The code point of a surrogate pair. *)
Definition surrogate_pair (hi lo : code_unit) : N :=
  (0x10000 + (hi - 0xD800) * 0x400 + (lo - 0xDC00))%N.

(** UTF-8 of one code point. *)
Definition utf8_encode (cp : N) : list N :=
  if (cp <? 0x80)%N then [cp]
  else if (cp <? 0x800)%N then
    [0xC0 + cp / 64; 0x80 + cp mod 64]%N
  else if (cp <? 0x10000)%N then
    [0xE0 + cp / 4096; 0x80 + (cp / 64) mod 64; 0x80 + cp mod 64]%N
  else
    [0xF0 + cp / 262144; 0x80 + (cp / 4096) mod 64;
     0x80 + (cp / 64) mod 64; 0x80 + cp mod 64]%N.

Definition replacement_character : N := 0xFFFD%N.

(** [Buffer.from(s)]: the bytes of [s] in UTF-8 (the default encoding). *)
Fixpoint Buffer_from (s : jsstring) : list N :=
  match s with
  | [] => []
  | c :: rest =>
      if is_high_surrogate c then
        match rest with
        | d :: rest' =>
            if is_low_surrogate d
            then utf8_encode (surrogate_pair c d) ++ Buffer_from rest'
            else utf8_encode replacement_character ++ Buffer_from rest
        | [] => utf8_encode replacement_character
        end
      else if is_low_surrogate c then
        utf8_encode replacement_character ++ Buffer_from rest
      else utf8_encode c ++ Buffer_from rest
  end.

(** The base64 alphabet: the character of a 6-bit value. *)
Definition base64_alphabet : jsstring :=
  lit "ABCDEFGHIJKLMNOPQRSTUVWXYZabcdefghijklmnopqrstuvwxyz0123456789+/".

Definition base64_char (sextet : N) : code_unit :=
  nth (N.to_nat sextet) base64_alphabet 0%N.

Definition base64_pad : code_unit := 61%N.

(** [buf.toString('base64')]. *)
Fixpoint toString_base64 (bytes : list N) : jsstring :=
  match bytes with
  | [] => []
  | [a] =>
      [base64_char (a / 4); base64_char ((a mod 4) * 16);
       base64_pad; base64_pad]%N
  | [a; b] =>
      [base64_char (a / 4); base64_char ((a mod 4) * 16 + b / 16);
       base64_char ((b mod 16) * 4); base64_pad]%N
  | a :: b :: c :: rest =>
      [base64_char (a / 4); base64_char ((a mod 4) * 16 + b / 16);
       base64_char ((b mod 16) * 4 + c / 64); base64_char (c mod 64)]%N
      ++ toString_base64 rest
  end.

(** A string whose code units are 16-bit and whose surrogates are paired. *)
Fixpoint well_formed (s : jsstring) : bool :=
  match s with
  | [] => true
  | c :: rest =>
      if is_high_surrogate c then
        match rest with
        | d :: rest' => is_low_surrogate d && well_formed rest'
        | [] => false
        end
      else negb (is_low_surrogate c) && (c <? 0x10000)%N && well_formed rest
  end.

(** ** Reading an encoded name back

    [Buffer.from(key, 'base64')] and [buf.toString()] on what the two
    functions above produce; they undo them on well-formed strings. *)

(** The 6-bit value of a character of the alphabet. *)
Fixpoint index_from (i : N) (c : code_unit) (alphabet : jsstring) : option N :=
  match alphabet with
  | [] => None
  | x :: rest => if N.eqb x c then Some i else index_from (N.succ i) c rest
  end.

Definition base64_index (c : code_unit) : N :=
  match index_from 0 c base64_alphabet with
  | Some i => i
  | None => 0%N
  end.

Fixpoint base64_decode (key : jsstring) : list N :=
  match key with
  | c1 :: c2 :: c3 :: c4 :: rest =>
      let s1 := base64_index c1 in
      let s2 := base64_index c2 in
      let s3 := base64_index c3 in
      let s4 := base64_index c4 in
      if N.eqb c3 base64_pad then [s1 * 4 + s2 / 16]%N
      else if N.eqb c4 base64_pad then
        [s1 * 4 + s2 / 16; (s2 mod 16) * 16 + s3 / 4]%N
      else
        [s1 * 4 + s2 / 16; (s2 mod 16) * 16 + s3 / 4; (s3 mod 4) * 64 + s4]%N
        ++ base64_decode rest
  | _ => []
  end.

(** The code units of a code point. *)
Definition utf16_encode (cp : N) : jsstring :=
  if (cp <? 0x10000)%N then [cp]
  else [0xD800 + (cp - 0x10000) / 0x400; 0xDC00 + (cp - 0x10000) mod 0x400]%N.

Fixpoint utf8_decode (bytes : list N) : jsstring :=
  match bytes with
  | [] => []
  | b0 :: rest =>
      if (b0 <? 0x80)%N then utf16_encode b0 ++ utf8_decode rest
      else if (b0 <? 0xE0)%N then
        match rest with
        | b1 :: rest1 =>
            utf16_encode ((b0 - 0xC0) * 64 + (b1 - 0x80))%N
            ++ utf8_decode rest1
        | _ => []
        end
      else if (b0 <? 0xF0)%N then
        match rest with
        | b1 :: b2 :: rest2 =>
            utf16_encode
              ((b0 - 0xE0) * 4096 + (b1 - 0x80) * 64 + (b2 - 0x80))%N
            ++ utf8_decode rest2
        | _ => []
        end
      else
        match rest with
        | b1 :: b2 :: b3 :: rest3 =>
            utf16_encode
              ((b0 - 0xF0) * 262144 + (b1 - 0x80) * 4096
               + (b2 - 0x80) * 64 + (b3 - 0x80))%N
            ++ utf8_decode rest3
        | _ => []
        end
  end.

(* ===================================================================== *)
(** * JavaScript numbers *)
(* ===================================================================== *)

(** A number is a binary64 value. *)
Definition number := spec_float.

Definition Number_add : number -> number -> number := SFadd 53 1024.
Definition Number_sub : number -> number -> number := SFsub 53 1024.
Definition Number_mul : number -> number -> number := SFmul 53 1024.
Definition Number_ltb : number -> number -> bool := SFltb.

(** The number an integer literal or an array length denotes. *)
Definition Number_of_Z (z : Z) : number := binary_normalize 53 1024 z 0 false.

(** [Math.floor]: the integer part of [m * 2^e], rounded down (an
    arithmetic shift of the signed mantissa), as a number. *)
Definition Math_floor (x : number) : number :=
  match x with
  | S754_finite s m e => Number_of_Z (Z.shiftr (cond_Zopp s (Zpos m)) (- e))
  | _ => x
  end.

(** What [Math.random()] may return: a finite number of positive sign,
    at least 0 and less than 1. *)
Definition is_random_draw (r : number) : bool :=
  match r with
  | S754_zero s => negb s
  | S754_finite s m e =>
      negb s && valid_binary 53 1024 r && SFltb r (Number_of_Z 1)
  | _ => false
  end.

(* ===================================================================== *)
(** * Records *)
(* ===================================================================== *)

(** A virtual person as the persistence service stores it. A property that
    is absent is [None]. *)
Module Person.
Record t := Build {
  _id : option jsstring;
  name : jsstring;
  biography : option jsstring;
  status : option jsstring;
  headshot : option jsstring;
  nameEncoded : option jsstring;
  link : option jsstring;
  projectId : option jsstring;
  userId : option jsstring;
  projectName : option jsstring
}.

(** [personData.headshot = headshot] *)
Definition set_headshot (p : t) (url : option jsstring) : t :=
  Build (_id p) (name p) (biography p) (status p) url (nameEncoded p)
    (link p) (projectId p) (userId p) (projectName p).

Definition empty : t :=
  Build None [] None None None None None None None None.
End Person.

#[export] Instance person_inhabited : Inhabited Person.t :=
  populate Person.empty.

(** The two response formats of [json-formats.js] and the shape each one
    makes the text adapter return. *)
Inductive responseFormat := personsListJsonFormat | personDataJsonFormat.

Module PersonsList.
Record entry := Entry { name : jsstring }.
Record t := Build { persons : list entry }.
End PersonsList.

Module PersonData.
Record t := Build { biography : jsstring; status : jsstring }.
End PersonData.

Definition response (fmt : responseFormat) : Type :=
  match fmt with
  | personsListJsonFormat => PersonsList.t
  | personDataJsonFormat => PersonData.t
  end.

Record Settings := { userId : option jsstring }.

Record ImageOptions := { styles : list jsstring; aspectRatio : jsstring }.

(** An instance of the class, as its constructor leaves it. *)
Record VirtualPersons := {
  settings : Settings;
  projectName : jsstring;
  projectId : option jsstring
}.

(** What the platform and the helpers of [utils] compute: the slug of a
    name and the decimal form of a number in a template literal. *)
Class Platform := {
  createFileName : jsstring -> jsstring;
  Number_toString : number -> jsstring
}.

(* ===================================================================== *)
(** * Interactions *)
(* ===================================================================== *)

Inductive exn :=
| TypeError (message : string)
| Rejected (message : string).

(** A call of an adapter, indexed by the type of its answer. *)
Inductive Call : Type -> Type :=
| createChatCompletionJson (max_tokens : option Z) (prompt : jsstring)
    (fmt : responseFormat) : Call (response fmt)
| VirtualPersonsService_find (nameEncoded_in : list jsstring)
    (select : list jsstring) (paginate : bool) : Call (list Person.t)
| VirtualPersonsService_create (data : Person.t) : Call Person.t
| VirtualPersonsService_patch (id : option jsstring) (data : Person.t)
    : Call unit
| ImageService_getPicture (s : Settings) (serviceName : jsstring)
    (options : ImageOptions) (query : jsstring) (ratio : jsstring)
    : Call (option jsstring)
| uploadImageStorageFromUrl (url : jsstring) : Call (option jsstring).

(** What the program does without an answer that matters. *)
Inductive Action :=
| console_warn (message : string)
| Promise_delay (ms : number).

Inductive event :=
| Called {X} (c : Call X) (answer : X + exn)
| Drew (r : number)
| Did (a : Action).

(** The environment: it answers every call, knowing what happened so far,
    with a value or with an exception, and draws the random numbers. *)
Record Env := {
  answer : list event -> forall X, Call X -> X + exn;
  random : list event -> number
}.

Arguments answer _ _ {X} _.

(** A program: it returns, throws, calls an adapter and goes on with the
    answer, draws a random number, or performs an action. *)
Inductive Prog (A : Type) : Type :=
| Ret (a : A)
| Throw (e : exn)
| Vis {X} (c : Call X) (k : X -> Prog A)
| Rand (k : number -> Prog A)
| Act (a : Action) (k : Prog A).

Arguments Ret {A} a.
Arguments Throw {A} e.
Arguments Vis {A X} c k.
Arguments Rand {A} k.
Arguments Act {A} a k.

Fixpoint bind {A B} (p : Prog A) (f : A -> Prog B) : Prog B :=
  match p with
  | Ret a => f a
  | Throw e => Throw e
  | Vis c k => Vis c (fun x => bind (k x) f)
  | Rand k => Rand (fun r => bind (k r) f)
  | Act a k => Act a (bind k f)
  end.

Definition call {X} (c : Call X) : Prog X := Vis c Ret.
Definition Math_random : Prog number := Rand Ret.
Definition act (a : Action) : Prog unit := Act a (Ret tt).

Declare Scope prog_scope.
Delimit Scope prog_scope with prog.
Notation "x <- p ;; q" := (bind p (fun x => q))
  (at level 100, p at next level, right associativity) : prog_scope.
Notation "p ;; q" := (bind p (fun _ => q))
  (at level 100, right associativity) : prog_scope.
Local Open Scope prog_scope.

(** Running a program in an environment, after the events [tr]: the
    outcome and the events of the run itself, in order. An exception an
    adapter answers with is not caught anywhere in the class, so it ends
    the run. *)
Fixpoint run {A} (env : Env) (p : Prog A) (tr : list event)
  : (A + exn) * list event :=
  match p with
  | Ret a => (inl a, [])
  | Throw e => (inr e, [])
  | Vis c k =>
      match answer env tr c with
      | inl x =>
          let '(o, evs) := run env (k x) (tr ++ [Called c (inl x)]) in
          (o, Called c (inl x) :: evs)
      | inr e => (inr e, [Called c (inr e)])
      end
  | Rand k =>
      let r := random env tr in
      let '(o, evs) := run env (k r) (tr ++ [Drew r]) in
      (o, Drew r :: evs)
  | Act a k =>
      let '(o, evs) := run env k (tr ++ [Did a]) in
      (o, Did a :: evs)
  end.

(** What a run that returned [a] with the events [evs] is followed by. *)
Definition and_then {A B} (first : (A + exn) * list event)
  (next : A -> list event -> (B + exn) * list event)
  : (B + exn) * list event :=
  match first with
  | (inl a, evs) => let '(o, evs') := next a evs in (o, evs ++ evs')
  | (inr e, evs) => (inr e, evs)
  end.

(** ** The store of objects *)

(** A reference is an index of the store. *)
Abbreviation loc := nat (only parsing).
Abbreviation heap := (list Person.t) (only parsing).

(** A fresh object. *)
Definition alloc (h : heap) (p : Person.t) : loc * heap :=
  (length h, h ++ [p]).

(** An element of the array [resolvePersonsData] iterates: a name, or a
    reference to a record. *)
Inductive candidate :=
| CName (s : jsstring)
| CObject (l : loc).

(** The object literal [resolvePersonsData] builds for a candidate. *)
Module Resolved.
Record t := Build {
  name : candidate;
  biography : jsstring;
  status : jsstring
}.
End Resolved.

(* ===================================================================== *)
(** * The class [VirtualPersons] *)
(* ===================================================================== *)

(** [encodeName(name)] *)
Definition encodeName (name : jsstring) : jsstring :=
  toString_base64 (Buffer_from name).

(** A candidate inside a template literal. *)
Definition candidate_toString (person : candidate) : jsstring :=
  match person with
  | CName s => s
  | CObject _ => lit "[object Object]"
  end.

(** [person.biography && person.status]: a name has neither property; a
    record is read in the store. The answer is the record's reference when
    the condition holds. *)
Definition carries_biography_and_status (h : heap) (person : candidate)
  : option loc :=
  match person with
  | CName _ => None
  | CObject l =>
      if truthy (Person.biography (h !!! l)) && truthy (Person.status (h !!! l))
      then Some l else None
  end.

(** [personData.push(...)] on the answer of the text adapter: an object of
    the format [personDataJsonFormat] has the properties [biography] and
    [status] and no other, so [personData.push] is [undefined] and calling
    it throws. *)
Definition PersonData_push (personData : PersonData.t) (item : Resolved.t)
  : Prog unit :=
  Throw (TypeError "personData.push is not a function").

(** The payload of [VirtualPersonsService.create]: the record spread, then
    the five properties that follow it. *)
Definition create_payload `{Platform} (this : VirtualPersons)
  (personData : Person.t) : Person.t :=
  let nameEncoded := encodeName (Person.name personData) in
  Person.Build
    (Person._id personData) (Person.name personData)
    (Person.biography personData) (Person.status personData)
    (Person.headshot personData)
    (Some nameEncoded)
    (Some (createFileName (Person.name personData)))
    (projectId this)
    (userId (settings this))
    (Some (projectName this)).

(** [Math.floor(Math.random() * (max - min) + min)] for a draw [r]. *)
Definition random_integer (r min max : number) : number :=
  Math_floor (Number_add (Number_mul r (Number_sub max min)) min).

Section Methods.
Context `{Platform}.
Variable this : VirtualPersons.

Definition getPersonDataPrompt (person : candidate) : jsstring :=
  lit "We have a site named " ++ projectName this
  ++ lit ". We have an author named " ++ candidate_toString person
  ++ lit "." ++ [10%N]
  ++ lit "     I need 2 things in JSON format: biography and status.".

Definition getRandomVirtualPersons (min max : number) : Prog (list jsstring) :=
  r <- Math_random ;;
  let number := random_integer r min max in
  let prompt :=
    lit "We have a project named " ++ projectName this
    ++ lit ". We need " ++ Number_toString number
    ++ lit " person names who are related to this project." ++ [10%N]
    ++ lit "     The persons should be between the ages of 30-40 years old."
    ++ lit " List " ++ Number_toString number
    ++ lit " full names and present in JSON format." in
  response <-
    call (createChatCompletionJson None prompt personsListJsonFormat) ;;
  Ret (map PersonsList.name (PersonsList.persons response)).

Definition filterExistingPersons (persons : list jsstring)
  : Prog (list jsstring) :=
  let encodedNames := map encodeName persons in
  existingPersons <-
    call (VirtualPersonsService_find encodedNames
            [lit "name"; lit "nameEncoded"] false) ;;
  let existingPersonNames := map Person.name existingPersons in
  Ret (List.filter (fun person => negb (includes existingPersonNames person))
         persons).

Definition getVirtualPersons (min max : number) : Prog (list jsstring) :=
  randomVirtualPersons <- getRandomVirtualPersons min max ;;
  filteredPersons <- filterExistingPersons randomVirtualPersons ;;
  (if Number_ltb (Number_of_Z (Z.of_nat (length filteredPersons))) min
   then act (console_warn "not enough persons") else Ret tt) ;;
  Ret filteredPersons.

(** The loop of [resolvePersonsData], with [personsData] built so far. *)
Fixpoint resolvePersonsData_from (persons : list candidate)
  (personsData : list loc) (h : heap) : Prog (list loc * heap) :=
  match persons with
  | [] => Ret (personsData, h)
  | person :: rest =>
      match carries_biography_and_status h person with
      | Some l => resolvePersonsData_from rest (personsData ++ [l]) h
      | None =>
          let prompt := getPersonDataPrompt person in
          personData <-
            call (createChatCompletionJson (Some 1000%Z) prompt
                    personDataJsonFormat) ;;
          PersonData_push personData
            {| Resolved.name := person;
               Resolved.biography := PersonData.biography personData;
               Resolved.status := PersonData.status personData |} ;;
          resolvePersonsData_from rest personsData h
      end
  end.

Definition resolvePersonsData (persons : list candidate) (h : heap)
  : Prog (list loc * heap) :=
  resolvePersonsData_from persons [] h.

Definition generateHeadshot (personName : jsstring) : Prog (option jsstring) :=
  let imagePrompt :=
    lit "Photo headshot for the " ++ personName
    ++ lit " , Aged 30-40 years old." in
  let options := {| styles := []; aspectRatio := lit "1:1" |} in
  let serviceName := lit "midjourney" in
  imageUrl <-
    call (ImageService_getPicture (settings this) serviceName options
            imagePrompt (aspectRatio options)) ;;
  match imageUrl with
  | Some (c :: url) => call (uploadImageStorageFromUrl (c :: url))
  | _ => act (console_warn "Failed to generate headshot") ;; Ret None
  end.

(** One turn of the loop of [resolvePersonImages]. *)
Definition resolvePersonImage (personData : loc) (h : heap) : Prog heap :=
  if truthy (Person.headshot (h !!! personData)) then Ret h
  else
    headshot <- generateHeadshot (Person.name (h !!! personData)) ;;
    let h :=
      if truthy headshot
      then <[personData := Person.set_headshot (h !!! personData) headshot]> h
      else h in
    call (VirtualPersonsService_patch (Person._id (h !!! personData))
            (h !!! personData)) ;;
    r <- Math_random ;;
    let randomDelay :=
      random_integer r (Number_of_Z 1500) (Number_of_Z 2500) in
    act (Promise_delay randomDelay) ;;
    Ret h.

Fixpoint resolvePersonImages (personsData : list loc) (h : heap) : Prog heap :=
  match personsData with
  | [] => Ret h
  | personData :: rest =>
      h <- resolvePersonImage personData h ;;
      resolvePersonImages rest h
  end.

(** The loop of [savePersonsData], with [createdPersons] built so far. *)
Fixpoint savePersonsData_from (personsData : list loc)
  (createdPersons : list loc) (h : heap) : Prog (list loc * heap) :=
  match personsData with
  | [] => Ret (createdPersons, h)
  | personData :: rest =>
      if truthy (Person._id (h !!! personData)) then
        savePersonsData_from rest (createdPersons ++ [personData]) h
      else
        savedPerson <-
          call (VirtualPersonsService_create
                  (create_payload this (h !!! personData))) ;;
        let '(l, h) := alloc h savedPerson in
        savePersonsData_from rest (createdPersons ++ [l]) h
  end.

Definition savePersonsData (personsData : list loc) (h : heap)
  : Prog (list loc * heap) :=
  savePersonsData_from personsData [] h.

Definition init (min max : number) (h : heap) : Prog heap :=
  virtualPersons <- getVirtualPersons min max ;;
  if negb (truthy_array virtualPersons) then Ret h
  else
    resolved <- resolvePersonsData (map CName virtualPersons) h ;;
    let '(personsData, h) := resolved in
    saved <- savePersonsData personsData h ;;
    let '(savedPersons, h) := saved in
    resolvePersonImages savedPersons h.

End Methods.

(* ===================================================================== *)
(** * Observations on traces and stores *)
(* ===================================================================== *)

(** The query of an image-generation request. *)
Definition image_query (e : event) : option jsstring :=
  match e with
  | Called (ImageService_getPicture _ _ _ query _) _ => Some query
  | _ => None
  end.

(** The payload of a create call. *)
Definition created_payload (e : event) : option Person.t :=
  match e with
  | Called (VirtualPersonsService_create data) _ => Some data
  | _ => None
  end.

Definition is_create (e : event) : bool :=
  match created_payload e with Some _ => true | None => false end.

(** The prompt [generateHeadshot] builds for a name. *)
Definition headshot_prompt (personName : jsstring) : jsstring :=
  lit "Photo headshot for the " ++ personName
  ++ lit " , Aged 30-40 years old.".

(** The template as the specification words it. *)
Definition spec_headshot_prompt (personName : jsstring) : jsstring :=
  lit "Photo headshot for the " ++ personName
  ++ lit ", Aged 30-40 years old.".

(** The image request of [generateHeadshot] for a name. *)
Definition headshot_request (this : VirtualPersons) (personName : jsstring)
  : Call (option jsstring) :=
  ImageService_getPicture (settings this) (lit "midjourney")
    {| styles := []; aspectRatio := lit "1:1" |}
    (headshot_prompt personName) (lit "1:1").

(** The request of an image-generation call: the call as it was made, with
    its settings, backend, options, query and ratio. *)
Definition image_request (e : event) : option (Call (option jsstring)) :=
  match e with
  | Called (ImageService_getPicture s serviceName options query ratio) _ =>
      Some (ImageService_getPicture s serviceName options query ratio)
  | _ => None
  end.

(** The prompt [getRandomVirtualPersons] builds for a count. *)
Definition names_prompt `{Platform} (this : VirtualPersons) (count : number)
  : jsstring :=
  lit "We have a project named " ++ projectName this
  ++ lit ". We need " ++ Number_toString count
  ++ lit " person names who are related to this project." ++ [10%N]
  ++ lit "     The persons should be between the ages of 30-40 years old."
  ++ lit " List " ++ Number_toString count
  ++ lit " full names and present in JSON format.".

(** The largest number below 1: [1 - 2^-53]. *)
Definition largest_draw : number :=
  S754_finite false 9007199254740991 (-53).

(** A number that lies between the integers [a] and [b]: zero, or
    [m * 2^e] of either sign with [-1074 <= e <= 0]. *)
Definition within (a b : Z) (x : number) : Prop :=
  match x with
  | S754_zero false => (a <= 0 <= b)%Z
  | S754_finite s m e =>
      (-1074 <= e <= 0
       /\ a * 2 ^ (- e) <= cond_Zopp s (Zpos m) <= b * 2 ^ (- e))%Z
  | _ => False
  end.

(** What rounding [m * 2^ex], of sign [sx] and of size between [a] and
    [b], gives: a number of that sign and of a size between [a] and [b],
    which is zero only when [ex] is below the least exponent. *)
Definition rounded (sx : bool) (a b ex : Z) (x : number) : Prop :=
  match x with
  | S754_zero s => s = sx /\ (a <= 0 <= b)%Z /\ (ex < -1074)%Z
  | S754_finite s m e =>
      s = sx
      /\ (-1074 <= e <= 0 /\ a * 2 ^ (- e) <= Zpos m <= b * 2 ^ (- e))%Z
  | _ => False
  end.

(** A shift has lost a bit that was set. *)
Definition inexact (x : shr_record) : bool := shr_r x || shr_s x.

Definition lacks_headshot (h : heap) (l : loc) : bool :=
  negb (truthy (Person.headshot (h !!! l))).

Definition lacks_id (h : heap) (l : loc) : bool :=
  negb (truthy (Person._id (h !!! l))).

(** The store [h'] a loop over records leaves when it started from [h]: the
    same records, of the same names, and a record that carried a headshot
    is unchanged. *)
Definition evolves (h h' : heap) : Prop :=
  forall l : loc,
    Person.name (h' !!! l) = Person.name (h !!! l)
    /\ (truthy (Person.headshot (h !!! l)) = true -> h' !!! l = h !!! l).

(* ===================================================================== *)
(** * The persistence service and a scenario *)
(* ===================================================================== *)

(** Modelled from the spec: [VirtualPersonsService.find], which the
    repository does not share. "[find({ query: { nameEncoded: { in: [...] },
    select: [...] }, paginate: false }) -> list of records]": the stored
    records whose encoded name is one of the queried keys. *)
Definition VirtualPersonsService_find_in (store : list Person.t)
  (nameEncoded_in : list jsstring) : list Person.t :=
  List.filter
    (fun record =>
       match Person.nameEncoded record with
       | Some key => includes nameEncoded_in key
       | None => false
       end)
    store.

(** An environment whose persistence service holds [store]. *)
Definition answers_find_from (env : Env) (store : list Person.t) : Prop :=
  forall tr nameEncoded_in select paginate,
    answer env tr (VirtualPersonsService_find nameEncoded_in select paginate)
    = inl (VirtualPersonsService_find_in store nameEncoded_in).

(** A scenario: the text adapter proposes the names in [names] and writes
    one biography, the service holds [store] and gives a record it creates
    the identifier "id-1", no image comes back, every patch succeeds. *)
Definition scenario_answer (names : list jsstring) (store : list Person.t)
  (X : Type) (c : Call X) : X + exn :=
  match c in Call X return X + exn with
  | createChatCompletionJson _ _ fmt =>
      match fmt return response fmt + exn with
      | personsListJsonFormat =>
          inl (PersonsList.Build (map PersonsList.Entry names))
      | personDataJsonFormat =>
          inl (PersonData.Build (lit "A writer.") (lit "active"))
      end
  | VirtualPersonsService_find nameEncoded_in _ _ =>
      inl (VirtualPersonsService_find_in store nameEncoded_in)
  | VirtualPersonsService_create data =>
      inl (Person.Build (Some (lit "id-1")) (Person.name data)
             (Person.biography data) (Person.status data)
             (Person.headshot data) (Person.nameEncoded data)
             (Person.link data) (Person.projectId data)
             (Person.userId data) (Person.projectName data))
  | VirtualPersonsService_patch _ _ => inl tt
  | ImageService_getPicture _ _ _ _ _ => inl None
  | uploadImageStorageFromUrl url => inl (Some url)
  end.

Definition scenario_env (names : list jsstring) (store : list Person.t)
  : Env :=
  {| answer := fun _ => scenario_answer names store;
     random := fun _ => S754_zero false |}.

(** A platform for the scenario; its numbers are the counts from 0 to 9. *)
Definition scenario_platform : Platform :=
  {| createFileName := fun name => name ++ lit ".html";
     Number_toString := fun x =>
       match x with
       | S754_finite false m e => [48 + Z.to_N (Z.shiftr (Zpos m) (- e))]%N
       | _ => lit "0"
       end |}.

Definition scenario_this : VirtualPersons :=
  {| settings := {| userId := Some (lit "user-1") |};
     projectName := lit "example.org";
     projectId := Some (lit "project-1") |}.

(** Ann is stored, with a headshot; Bob is resolved but not stored yet. *)
Definition ann : Person.t :=
  Person.Build (Some (lit "id-0")) (lit "Ann") (Some (lit "An editor."))
    (Some (lit "active")) (Some (lit "https://img.example.org/ann.png"))
    (Some (encodeName (lit "Ann"))) (Some (lit "Ann.html"))
    (Some (lit "project-1")) (Some (lit "user-1")) (Some (lit "example.org")).

Definition bob : Person.t :=
  Person.Build None (lit "Bob") (Some (lit "A writer.")) (Some (lit "active"))
    None None None None None None.

(* ===================================================================== *)
(** * Further observations *)
(* ===================================================================== *)

(** A string all of whose code units are 16-bit. *)
Definition is_utf16 (s : jsstring) : bool :=
  forallb (fun c => (c <? 0x10000)%N) s.

(** [s.toWellFormed()]: every unpaired surrogate replaced by U+FFFD. *)
Fixpoint toWellFormed (s : jsstring) : jsstring :=
  match s with
  | [] => []
  | c :: rest =>
      if is_high_surrogate c then
        match rest with
        | d :: rest' =>
            if is_low_surrogate d
            then c :: d :: toWellFormed rest'
            else replacement_character :: toWellFormed rest
        | [] => [replacement_character]
        end
      else if is_low_surrogate c then
        replacement_character :: toWellFormed rest
      else c :: toWellFormed rest
  end.

(** Equality of strings is decidable. *)
Definition jsstring_eq_dec (a b : jsstring) : {a = b} + {a <> b} :=
  List.list_eq_dec N.eq_dec a b.

(** A character a key may hold: one of the alphabet, or the padding. *)
Definition is_base64_char (c : code_unit) : Prop :=
  In c base64_alphabet \/ c = base64_pad.

(** The identifier and the data of a patch call. *)
Definition patch_of (e : event) : option (option jsstring * Person.t) :=
  match e with
  | Called (VirtualPersonsService_patch id data) _ => Some (id, data)
  | _ => None
  end.

(** The duration of a delay. *)
Definition delay_of (e : event) : option number :=
  match e with
  | Did (Promise_delay ms) => Some ms
  | _ => None
  end.

(** The URL an upload call is made for. *)
Definition uploaded_url (e : event) : option jsstring :=
  match e with
  | Called (uploadImageStorageFromUrl url) _ => Some url
  | _ => None
  end.

(** The URL an image request was answered with, when it is a non-empty
    string. *)
Definition generated_url (e : event) : option jsstring :=
  match e with
  | Called c answered =>
      match c in Call X return X + exn -> option jsstring with
      | ImageService_getPicture _ _ _ _ _ => fun answered =>
          match answered with
          | inl (Some (c :: url)) => Some (c :: url)
          | _ => None
          end
      | _ => fun _ => None
      end answered
  | _ => None
  end.

(** The headshot an upload call was answered with, when it is a non-empty
    string. *)
Definition stored_url (e : event) : option jsstring :=
  match e with
  | Called c answered =>
      match c in Call X return X + exn -> option jsstring with
      | uploadImageStorageFromUrl _ => fun answered =>
          match answered with
          | inl (Some (c :: url)) => Some (c :: url)
          | _ => None
          end
      | _ => fun _ => None
      end answered
  | _ => None
  end.

(** A call that was answered with an exception. *)
Definition is_rejected (e : event) : bool :=
  match e with
  | Called _ (inr _) => true
  | _ => false
  end.

(** A call that writes to the persistence service, generates an image or
    stores one. *)
Definition writes_or_generates (e : event) : bool :=
  match e with
  | Called (VirtualPersonsService_create _) _ => true
  | Called (VirtualPersonsService_patch _ _) _ => true
  | Called (ImageService_getPicture _ _ _ _ _) _ => true
  | Called (uploadImageStorageFromUrl _) _ => true
  | _ => false
  end.

(** The biography request [resolvePersonsData] makes for a candidate. *)
Definition biography_request `{Platform} (this : VirtualPersons)
  (person : candidate) : Call PersonData.t :=
  createChatCompletionJson (Some 1000%Z) (getPersonDataPrompt this person)
    personDataJsonFormat.

(** A store in which every record is filed under the key of its name, as
    [savePersonsData] creates them. *)
Definition keyed_by_name (store : list Person.t) : Prop :=
  Forall
    (fun record =>
       Person.nameEncoded record = Some (encodeName (Person.name record)))
    store.

(** An environment whose random numbers are what [Math.random()] may
    return. *)
Definition draws_below_one (env : Env) : Prop :=
  forall tr, is_random_draw (random env tr) = true.

(** An environment whose image, storage and patch adapters answer every
    call. *)
Definition answers_images (env : Env) : Prop :=
  (forall tr s serviceName options query ratio,
      exists url,
        answer env tr
          (ImageService_getPicture s serviceName options query ratio)
        = inl url)
  /\ (forall tr url,
        exists headshot,
          answer env tr (uploadImageStorageFromUrl url) = inl headshot)
  /\ (forall tr id data,
        answer env tr (VirtualPersonsService_patch id data) = inl tt).

(** What a loop over the records [personsData] that made the events [evs]
    may have done to the store [h]: each record is what it was, or it is a
    record of the list that had no headshot and now has one, a non-empty
    string that the storage adapter answered. *)
Definition only_headshots_set (personsData : list loc) (evs : list event)
  (h h' : heap) : Prop :=
  length h' = length h
  /\ forall l : loc,
       h' !!! l = h !!! l
       \/ (In l personsData /\ lacks_headshot h l = true
           /\ exists url,
                truthy (Some url) = true /\ In url (omap stored_url evs)
                /\ h' !!! l = Person.set_headshot (h !!! l) (Some url)).

(** The create call [savePersonsData] makes for the record at [l], with
    its answer. *)
Definition create_event `{Platform} (this : VirtualPersons) (h : heap)
  (l : loc) (answered : Person.t + exn) : event :=
  Called (VirtualPersonsService_create (create_payload this (h !!! l)))
    answered.

(** An event that, when it is a create call answered with a record, is
    answered with a record that carries an identifier. *)
Definition answered_with_id (e : event) : bool :=
  match e with
  | Called c answered =>
      match c in Call X return X + exn -> bool with
      | VirtualPersonsService_create _ => fun answered =>
          match answered with
          | inl saved => truthy (Person._id saved)
          | inr _ => true
          end
      | _ => fun _ => true
      end answered
  | _ => true
  end.

(* ===================================================================== *)
(** * More scenarios *)
(* ===================================================================== *)

(** A scenario in which images come back: the image adapter answers every
    request with a URL, the storage adapter stores it; the rest is as in
    the first scenario. *)
Definition studio_answer (X : Type) (c : Call X) : X + exn :=
  match c in Call X return X + exn with
  | ImageService_getPicture _ _ _ _ _ =>
      inl (Some (lit "https://mj.example.org/1.png"))
  | uploadImageStorageFromUrl _ =>
      inl (Some (lit "https://cdn.example.org/1.png"))
  | c => scenario_answer [] [] _ c
  end.

Definition studio_env : Env :=
  {| answer := fun _ => studio_answer;
     random := fun _ => S754_zero false |}.

(** A scenario in which the persistence service accepts one record and
    rejects the creates that follow. *)
Definition full_answer (tr : list event) (X : Type) (c : Call X) : X + exn :=
  match c in Call X return X + exn with
  | VirtualPersonsService_create data =>
      if existsb is_create tr then inr (Rejected "quota exceeded")
      else scenario_answer [] [] _ (VirtualPersonsService_create data)
  | c => scenario_answer [] [] _ c
  end.

Definition full_env : Env :=
  {| answer := full_answer;
     random := fun _ => S754_zero false |}.

(** Carl is resolved but not stored yet, like Bob. *)
Definition carl : Person.t :=
  Person.Build None (lit "Carl") (Some (lit "A painter."))
    (Some (lit "active")) None None None None None None.

(** A scenario in which the persistence service rejects every patch: no
    image comes back, as in the first scenario, and the record cannot be
    written. *)
Definition readonly_answer (X : Type) (c : Call X) : X + exn :=
  match c in Call X return X + exn with
  | VirtualPersonsService_patch _ _ => inr (Rejected "service unavailable")
  | c => scenario_answer [] [] _ c
  end.

Definition readonly_env : Env :=
  {| answer := fun _ => readonly_answer;
     random := fun _ => S754_zero false |}.

(* ===================================================================== *)
(** * JavaScript values *)
(* ===================================================================== *)

Local Open Scope string_scope.
Local Set Warnings "-register-all".

(** The values that are data: [undefined], [null], booleans, numbers,
    strings, arrays and plain objects. An object is the list of its own
    properties, in the order they were created in. (JavaScript enumerates
    the keys that are array indices before the others; where they stand in
    the list says nothing about that.) *)
Inductive value :=
| VUndefined
| VNull
| VBoolean (b : bool)
| VNumber (x : number)
| VString (s : jsstring)
| VArray (items : list value)
| VObject (properties : list (string * value)).

(** The own property [key], when there is one. *)
Fixpoint own_property {A} (key : string) (properties : list (string * A))
  : option A :=
  match properties with
  | [] => None
  | (k, v) :: rest =>
      if String.eqb k key then Some v else own_property key rest
  end.

(** [key: v] in an object literal, after the properties written before
    it: a property of that key gets the value and keeps its place, a new
    key comes last. *)
Fixpoint define_property (key : string) (v : value)
  (properties : list (string * value)) : list (string * value) :=
  match properties with
  | [] => [(key, v)]
  | (k, old) :: rest =>
      if String.eqb k key then (k, v) :: rest
      else (k, old) :: define_property key v rest
  end.

(** The key of an index. *)
Definition index_key (i : nat) : string :=
  NilZero.string_of_uint (Nat.to_uint i).

(** [...v] in an object literal: the own enumerable properties of [v].
    An array and a string have their elements, under their indices;
    [undefined], [null], booleans and numbers have none. *)
Definition own_enumerable_properties (v : value) : list (string * value) :=
  match v with
  | VObject properties => properties
  | VArray items => imap (fun i item => (index_key i, item)) items
  | VString s => imap (fun i c => (index_key i, VString [c])) s
  | _ => []
  end.

(** Distinct keys. *)
Fixpoint distinct (keys : list string) : bool :=
  match keys with
  | [] => true
  | key :: rest => negb (existsb (String.eqb key) rest) && distinct rest
  end.

(** A value as [JSON.parse] gives it: no [undefined], and no key twice in
    an object. *)
Fixpoint parsed (v : value) : bool :=
  match v with
  | VUndefined => false
  | VArray items => forallb parsed items
  | VObject properties =>
      forallb (fun property => parsed (snd property)) properties
      && distinct (map fst properties)
  | _ => true
  end.

(** A computation that returns or throws. *)
Definition result (A : Type) : Type := A + exn.

Definition and_next {A B} (r : result A) (k : A -> result B) : result B :=
  match r with
  | inl a => k a
  | inr e => inr e
  end.

Declare Scope result_scope.
Delimit Scope result_scope with result.
Notation "x <- r ;; k" := (and_next r (fun x => k))
  (at level 100, r at next level, right associativity) : result_scope.

(* ===================================================================== *)
(** * The response formats: [json-formats.js] *)
(* ===================================================================== *)

(** A schema, of the keywords the file uses: [type] (["string"],
    ["array"] with [items], ["object"] with [properties]), [required] and
    [additionalProperties]. *)
Inductive schema :=
| type_string
| type_array (items : schema)
| type_object (properties : list (string * schema)) (required : list string)
    (additionalProperties : bool).

Module JsonSchema.
Record t := Build { name : string; strict : bool; schema : schema }.
End JsonSchema.

Module ResponseFormat.
Record t := Build { type : string; json_schema : JsonSchema.t }.
End ResponseFormat.

Module json_formats.

Definition personsList : ResponseFormat.t :=
  {| ResponseFormat.type := "json_schema";
     ResponseFormat.json_schema :=
       {| JsonSchema.name := "persons_list";
          JsonSchema.strict := true;
          JsonSchema.schema :=
            type_object
              [("persons",
                type_array
                  (type_object [("name", type_string)] ["name"] false))]
              ["persons"] false |} |}.

Definition personData : ResponseFormat.t :=
  {| ResponseFormat.type := "json_schema";
     ResponseFormat.json_schema :=
       {| JsonSchema.name := "person_data";
          JsonSchema.strict := true;
          JsonSchema.schema :=
            type_object
              [("biography", type_string); ("status", type_string)]
              ["biography"; "status"] false |} |}.

(** [module.exports] *)
Definition exports (fmt : responseFormat) : ResponseFormat.t :=
  match fmt with
  | personsListJsonFormat => personsList
  | personDataJsonFormat => personData
  end.

End json_formats.

(** What a schema admits: a string for ["string"]; an array whose items
    the schema of [items] admits for ["array"]; for ["object"], an object
    that has every key of [required] and whose properties are each
    admitted by the schema [properties] gives their key, a key without
    one being admitted when [additionalProperties] allows it. *)
Fixpoint validates (s : schema) (v : value) {struct v} : bool :=
  match s, v with
  | type_string, VString _ => true
  | type_array items, VArray vs => forallb (validates items) vs
  | type_object properties required additionalProperties, VObject fields =>
      forallb
        (fun key =>
           match own_property key fields with
           | Some _ => true
           | None => false
           end)
        required
      && forallb
           (fun field =>
              match own_property (fst field) properties with
              | Some s' => validates s' (snd field)
              | None => additionalProperties
              end)
           fields
  | _, _ => false
  end.

(** An answer of the text adapter for a format: parsed text that the
    schema of the format admits. *)
Definition conforms (fmt : responseFormat) (v : value) : bool :=
  parsed v
  && validates
       (JsonSchema.schema
          (ResponseFormat.json_schema (json_formats.exports fmt)))
       v.

(** The value of a response. *)
Definition PersonsList_value (response : PersonsList.t) : value :=
  VObject
    [("persons",
      VArray
        (map
           (fun person => VObject [("name", VString (PersonsList.name person))])
           (PersonsList.persons response)))].

Definition PersonData_value (personData : PersonData.t) : value :=
  VObject
    [("biography", VString (PersonData.biography personData));
     ("status", VString (PersonData.status personData))].

(* ===================================================================== *)
(** * The image card: [imageCard.vue] *)
(* ===================================================================== *)

Module ImageCard.

(** The properties the component reads. No boolean, number, string or
    array has a property of one of these names, own or inherited. *)
Inductive member := selections | settings | generateImageBy | name | params.

Definition member_key (m : member) : string :=
  match m with
  | selections => "selections"
  | settings => "settings"
  | generateImageBy => "generateImageBy"
  | name => "name"
  | params => "params"
  end.

(** [v.m] *)
Definition read (v : value) (m : member) : result value :=
  match v with
  | VUndefined =>
      inr (TypeError
             (String.append "Cannot read properties of undefined (reading '"
                (String.append (member_key m) "')")))
  | VNull =>
      inr (TypeError
             (String.append "Cannot read properties of null (reading '"
                (String.append (member_key m) "')")))
  | VObject properties =>
      inl (match own_property (member_key m) properties with
           | Some x => x
           | None => VUndefined
           end)
  | _ => inl VUndefined
  end.

(** [v.hasOwnProperty(key)]. No value here is a function, so an object
    with an own property [hasOwnProperty] has none to call. *)
Definition hasOwnProperty (v : value) (key : string) : result bool :=
  match v with
  | VUndefined =>
      inr (TypeError
             "Cannot read properties of undefined (reading 'hasOwnProperty')")
  | VNull =>
      inr (TypeError
             "Cannot read properties of null (reading 'hasOwnProperty')")
  | VObject properties =>
      match own_property "hasOwnProperty" properties with
      | Some _ => inr (TypeError "value.hasOwnProperty is not a function")
      | None =>
          inl (match own_property key properties with
               | Some _ => true
               | None => false
               end)
      end
  | VArray items =>
      inl (String.eqb key "length"
           || existsb (fun i => String.eqb (index_key i) key)
                (seq 0 (length items)))
  | VString s =>
      inl (String.eqb key "length"
           || existsb (fun i => String.eqb (index_key i) key)
                (seq 0 (length s)))
  | _ => inl false
  end.

(** An instance of the component: its props and its data. *)
Record t := Build {
  card : value;
  index : value;
  imageParams : value;
  isSettingsOpen : bool
}.

(** [this.$emit(event, payload)] *)
Inductive emitted := Emit (event : string) (payload : value).

Local Open Scope result_scope.

(** [props.card.validator] *)
Definition validator (value : value) : result bool :=
  has_selections <- hasOwnProperty value "selections" ;;
  if has_selections then hasOwnProperty value "type" else inl false.

(** [cloneDeep(v)]: a copy, which for data is the value itself. *)
Definition cloneDeep (v : value) : value := v.

(** [data()], for the prop [card]: [imageParams] and [isSettingsOpen]. *)
Definition data (card : value) : result (value * bool) :=
  a <- read card selections ;;
  b <- read a settings ;;
  c <- read b generateImageBy ;;
  d <- read c params ;;
  inl (cloneDeep d, false).

(** The instance created for the props [card] and [index]. *)
Definition instantiate (card index : value) : result t :=
  d <- data card ;;
  inl {| card := card; index := index;
         imageParams := fst d; isSettingsOpen := snd d |}.

(** [computed.currentServiceName.get] *)
Definition currentServiceName (this : t) : result value :=
  a <- read (card this) selections ;;
  b <- read a settings ;;
  c <- read b generateImageBy ;;
  read c name.

(** [computed.currentServiceName.set] *)
Definition set_currentServiceName (this : t) (newServiceName : value)
  : result emitted :=
  a <- read (card this) selections ;;
  b <- read a settings ;;
  let settings :=
    VObject
      (define_property "generateImageBy"
         (VObject [("name", newServiceName); ("params", imageParams this)])
         (own_enumerable_properties b)) in
  c <- read (card this) selections ;;
  inl (Emit "change"
         (VObject
            [("index", index this);
             ("selections",
              VObject
                (define_property "settings" settings
                   (own_enumerable_properties c)))])).

(** [watch.imageParams.handler] *)
Definition imageParams_handler (this : t) (newValue : value)
  : result emitted :=
  a <- read (card this) selections ;;
  b <- read a settings ;;
  currentServiceName <- currentServiceName this ;;
  let settings :=
    VObject
      (define_property "generateImageBy"
         (VObject [("name", currentServiceName); ("params", newValue)])
         (own_enumerable_properties b)) in
  c <- read (card this) selections ;;
  inl (Emit "change"
         (VObject
            [("index", index this);
             ("selections",
              VObject
                (define_property "settings" settings
                   (own_enumerable_properties c)))])).

(** [methods.emitChange] *)
Definition emitChange (this : t) (field : string) (value : value)
  : result emitted :=
  a <- read (card this) selections ;;
  inl (Emit "change"
         (VObject
            [("index", index this);
             ("selections",
              VObject
                (define_property field value
                   (own_enumerable_properties a)))])).

Definition headingChange (this : t) (heading : value) : result emitted :=
  emitChange this "heading" heading.

Definition headingRepeat (this : t) (repeat : value) : result emitted :=
  emitChange this "repeat" repeat.

Definition sourceChange (this : t) (promptSource : value) : result emitted :=
  emitChange this "promptSource" promptSource.

(** [methods.generateImageByChange] *)
Definition generateImageByChange (this : t) : result emitted :=
  a <- read (card this) selections ;;
  b <- read a settings ;;
  currentServiceName <- currentServiceName this ;;
  let settings :=
    VObject
      (define_property "generateImageBy"
         (VObject
            [("name", currentServiceName); ("params", imageParams this)])
         (own_enumerable_properties b)) in
  c <- read (card this) selections ;;
  inl (Emit "change"
         (VObject
            [("index", index this);
             ("selections",
              VObject
                (define_property "settings" settings
                   (own_enumerable_properties c)))])).

(** The selections an emitted change carries. *)
Definition emitted_selections (e : emitted) : result value :=
  match e with
  | Emit _ payload => read payload selections
  end.

End ImageCard.

(** The change [e] carries the index of the component and the selections
    [sel] with the property [key] set to [v]: every other property of
    [sel] is carried over as it is. *)
Definition changes_selection (this : ImageCard.t) (sel : value)
  (key : string) (v : value) (e : ImageCard.emitted) : Prop :=
  exists properties,
    e = ImageCard.Emit "change"
          (VObject
             [("index", ImageCard.index this);
              ("selections", VObject properties)])
    /\ own_property key properties = Some v
    /\ forall k,
         k <> key ->
         own_property k properties
         = own_property k (own_enumerable_properties sel).

Local Close Scope string_scope.

(* ===================================================================== *)
(** * A card *)
(* ===================================================================== *)

(** A card as the editor holds it, and the component created for it. *)
Definition hero_card : value :=
  VObject
    [("id"%string, VNumber (Number_of_Z 7));
     ("type"%string, VString (lit "image"));
     ("title"%string, VString (lit "Hero"));
     ("selections"%string,
      VObject
        [("heading"%string, VString (lit "h2"));
         ("settings"%string,
          VObject
            [("generateImageBy"%string,
              VObject
                [("name"%string, VString (lit "midjourney"));
                 ("params"%string,
                  VObject
                    [("aspectRatio"%string, VString (lit "1:1"))])]);
             ("quality"%string, VString (lit "high"))])])].

Definition hero_component : ImageCard.t :=
  {| ImageCard.card := hero_card;
     ImageCard.index := VString (lit "0-1");
     ImageCard.imageParams :=
       VObject [("aspectRatio"%string, VString (lit "1:1"))];
     ImageCard.isSettingsOpen := false |}.

(** Division and remainder by constants, for [lia]. *)
Ltac Zify.zify_post_hook ::= Z.to_euclidean_division_equations.

(* ===================================================================== *)
(** * Running programs *)
(* ===================================================================== *)

Lemma and_then_returned {A B} (a : A) evs
  (next : A -> list event -> (B + exn) * list event) :
  and_then (inl a, evs) next = (fst (next a evs), evs ++ snd (next a evs)).
Proof. unfold and_then. destruct (next a evs); reflexivity. Qed.

Lemma run_bind {A B} env (p : Prog A) (f : A -> Prog B) tr :
  run env (bind p f) tr
  = and_then (run env p tr) (fun a evs => run env (f a) (tr ++ evs)).
Proof.
  revert tr. induction p as [a|e|X c k IH|k IH|a k IH]; intros tr; simpl.
  - rewrite app_nil_r. destruct (run env (f a) tr); reflexivity.
  - reflexivity.
  - destruct (answer env tr c) as [x|e]; [|reflexivity].
    rewrite IH. destruct (run env (k x) _) as [[b|e] evs]; simpl.
    + rewrite <- app_assoc. simpl.
      destruct (run env (f b) _); reflexivity.
    + reflexivity.
  - rewrite IH. destruct (run env (k _) _) as [[b|e] evs]; simpl.
    + rewrite <- app_assoc. simpl.
      destruct (run env (f b) _); reflexivity.
    + reflexivity.
  - rewrite IH. destruct (run env k _) as [[b|e] evs]; simpl.
    + rewrite <- app_assoc. simpl.
      destruct (run env (f b) _); reflexivity.
    + reflexivity.
Qed.

(* ===================================================================== *)
(** * Headshots: [resolvePersonImages] *)
(* ===================================================================== *)

(** Case analysis on what the environment answers, call after call. *)
Ltac destruct_answers :=
  repeat match goal with
    | |- context [answer ?env ?tr ?c] =>
        let a := fresh "a" in
        destruct (answer env tr c) as [a|?]; cbn [bind run]
    | |- context [match ?x with Some _ => _ | None => _ end] =>
        is_var x; destruct x as [[|? ?]|]; cbn [bind run]
    end.

Lemma and_then_ext {A B} (first : (A + exn) * list event)
  (next next' : A -> list event -> (B + exn) * list event) :
  (forall a evs, first = (inl a, evs) -> next a evs = next' a evs) ->
  and_then first next = and_then first next'.
Proof.
  intros Hext. destruct first as [[a|e] evs]; simpl; [|reflexivity].
  rewrite (Hext a evs eq_refl). reflexivity.
Qed.

Lemma evolves_refl h : evolves h h.
Proof. intros l; split; reflexivity. Qed.

Lemma evolves_trans h1 h2 h3 : evolves h1 h2 -> evolves h2 h3 -> evolves h1 h3.
Proof.
  intros H12 H23 l. destruct (H12 l) as [Hn12 Hk12], (H23 l) as [Hn23 Hk23].
  split; [congruence|].
  intros Ht. rewrite <- (Hk12 Ht). apply Hk23. rewrite (Hk12 Ht). exact Ht.
Qed.

Lemma evolves_set_headshot h l url :
  truthy (Person.headshot (h !!! l)) = false ->
  evolves h (<[l := Person.set_headshot (h !!! l) url]> h).
Proof.
  intros Hl l'. destruct (decide (l = l')) as [<-|Hne].
  - destruct (decide (l < length h)) as [Hlt|Hge].
    + rewrite list_lookup_total_insert_eq by exact Hlt. split; [reflexivity|].
      intros Ht. congruence.
    + rewrite list_insert_ge by lia. split; reflexivity.
  - rewrite list_lookup_total_insert_ne by exact Hne. split; reflexivity.
Qed.

Section Images.
Context `{Platform}.
Variable this : VirtualPersons.
Variable env : Env.

Lemma run_resolvePersonImages_cons l rest h tr :
  run env (resolvePersonImages this (l :: rest) h) tr
  = and_then (run env (resolvePersonImage this l h) tr)
      (fun h' evs => run env (resolvePersonImages this rest h') (tr ++ evs)).
Proof. cbn [resolvePersonImages]. apply run_bind. Qed.

(** A turn for a record that carries a headshot does nothing. *)
Lemma resolvePersonImage_skips l h :
  truthy (Person.headshot (h !!! l)) = true ->
  resolvePersonImage this l h = Ret h.
Proof. intros Hl. unfold resolvePersonImage. rewrite Hl. reflexivity. Qed.

(** A turn for a record without a headshot makes one image request, the
    fixed one for the record's name, and never touches a record that
    carries a headshot. *)
Lemma resolvePersonImage_requests l h tr :
  truthy (Person.headshot (h !!! l)) = false ->
  omap image_query (snd (run env (resolvePersonImage this l h) tr))
  = [headshot_prompt (Person.name (h !!! l))]
  /\ omap image_request (snd (run env (resolvePersonImage this l h) tr))
     = [headshot_request this (Person.name (h !!! l))]
  /\ forall h', fst (run env (resolvePersonImage this l h) tr) = inl h' ->
                evolves h h'.
Proof.
  intros Hl. unfold resolvePersonImage. rewrite Hl.
  unfold generateHeadshot, call, Math_random, act. cbn [bind run].
  destruct_answers; cbn [fst snd omap image_query];
    (split; [reflexivity|split; [reflexivity|]]);
    intros h' Hh'; try discriminate Hh'; injection Hh' as <-;
    try apply evolves_refl;
    match goal with
    | |- evolves _ (if truthy ?a then _ else _) =>
        destruct (truthy a);
        [apply evolves_set_headshot; exact Hl|apply evolves_refl]
    end.
Qed.

Lemma resolvePersonImage_evolves l h tr h' :
  fst (run env (resolvePersonImage this l h) tr) = inl h' -> evolves h h'.
Proof.
  destruct (truthy (Person.headshot (h !!! l))) eqn:Hl.
  - rewrite (resolvePersonImage_skips _ _ Hl). cbn. intros [= <-].
    apply evolves_refl.
  - apply (resolvePersonImage_requests l h tr Hl).
Qed.

Lemma resolvePersonImages_evolves personsData h tr h' :
  fst (run env (resolvePersonImages this personsData h) tr) = inl h' ->
  evolves h h'.
Proof.
  revert h tr. induction personsData as [|l rest IH]; intros h tr.
  - cbn. intros [= <-]. apply evolves_refl.
  - rewrite run_resolvePersonImages_cons.
    destruct (run env (resolvePersonImage this l h) tr)
      as [[h1|e] evs] eqn:Hturn; cbn [and_then]; [|discriminate].
    destruct (run env (resolvePersonImages this rest h1) (tr ++ evs))
      as [o evs'] eqn:Hrest.
    cbn [fst]. intros ->.
    apply evolves_trans with h1.
    + apply (resolvePersonImage_evolves l h tr). rewrite Hturn. reflexivity.
    + apply (IH h1 (tr ++ evs)). rewrite Hrest. reflexivity.
Qed.

Lemma lacks_headshot_evolves h0 h l :
  evolves h0 h ->
  truthy (Person.headshot (h !!! l)) = false ->
  lacks_headshot h0 l = true.
Proof.
  intros Hev Hl. unfold lacks_headshot.
  destruct (truthy (Person.headshot (h0 !!! l))) eqn:H0; [|reflexivity].
  destruct (Hev l) as [_ Hkeep]. rewrite (Hkeep H0) in Hl. congruence.
Qed.

(** The image requests of the loop, when the store has evolved from [h0]:
    they are the requests for some of the records that had no headshot in
    [h0], in the order of the list. *)
Lemma resolvePersonImages_requests_from h0 personsData :
  forall h tr,
    evolves h0 h ->
    exists requested,
      sublist requested (List.filter (lacks_headshot h0) personsData)
      /\ omap image_query
           (snd (run env (resolvePersonImages this personsData h) tr))
         = map (fun l => headshot_prompt (Person.name (h0 !!! l))) requested.
Proof.
  induction personsData as [|l rest IH]; intros h tr Hev.
  - exists []. split; [constructor|reflexivity].
  - rewrite run_resolvePersonImages_cons.
    destruct (truthy (Person.headshot (h !!! l))) eqn:Hl.
    + rewrite (resolvePersonImage_skips _ _ Hl). cbn [run].
      rewrite and_then_returned. cbn [snd app].
      destruct (IH h (tr ++ []) Hev) as (requested & Hsub & Hreq).
      exists requested. split; [|exact Hreq].
      cbn [List.filter]. destruct (lacks_headshot h0 l); [|exact Hsub].
      apply sublist_cons, Hsub.
    + cbn [List.filter]. rewrite (lacks_headshot_evolves _ _ _ Hev Hl).
      destruct (resolvePersonImage_requests l h tr Hl) as (Hq & _ & Hkeep).
      destruct (Hev l) as [Hname _]. rewrite Hname in Hq.
      destruct (run env (resolvePersonImage this l h) tr)
        as [[h1|e] evs] eqn:Hturn; cbn [fst snd] in Hq, Hkeep.
      * rewrite and_then_returned. cbn [snd].
        assert (Hev1 : evolves h0 h1)
          by (apply evolves_trans with h; [exact Hev|apply Hkeep; reflexivity]).
        destruct (IH h1 (tr ++ evs) Hev1) as (requested & Hsub & Hreq).
        exists (l :: requested). split; [apply sublist_skip, Hsub|].
        rewrite omap_app, Hq, Hreq. reflexivity.
      * cbn [and_then snd]. exists [l].
        split; [apply sublist_skip, sublist_nil_l|exact Hq].
Qed.

(** ** C9 *)

(** C9. A record that already carries a headshot is never requested again:
    whatever the environment answers, the image requests of
    [resolvePersonImages] are requests for records of the list that had no
    headshot when it was called, at most one for each of their places in
    the list and in the order of the list. *)
Theorem resolvePersonImages_requests_only_missing_headshots
  personsData (h : heap) tr :
  exists requested,
    sublist requested (List.filter (lacks_headshot h) personsData)
    /\ omap image_query
         (snd (run env (resolvePersonImages this personsData h) tr))
       = map (fun l => headshot_prompt (Person.name (h !!! l))) requested.
Proof. apply resolvePersonImages_requests_from, evolves_refl. Qed.

(** ** C10 *)

Lemma resolvePersonImages_skips_carrier l post :
  forall pre h tr,
    truthy (Person.headshot (h !!! l)) = true ->
    run env (resolvePersonImages this (pre ++ l :: post) h) tr
    = run env (resolvePersonImages this (pre ++ post) h) tr.
Proof.
  induction pre as [|a pre IH]; intros h tr Hl.
  - cbn [app]. rewrite run_resolvePersonImages_cons.
    rewrite (resolvePersonImage_skips _ _ Hl). cbn [run and_then].
    rewrite app_nil_r.
    destruct (run env (resolvePersonImages this post h) tr); reflexivity.
  - cbn [app]. rewrite !run_resolvePersonImages_cons.
    apply and_then_ext. intros h1 evs Hturn. apply IH.
    assert (Hev : evolves h h1).
    { apply (resolvePersonImage_evolves a h tr). rewrite Hturn. reflexivity. }
    destruct (Hev l) as [_ Hkeep]. rewrite (Hkeep Hl). exact Hl.
Qed.

(** C10. A record that carries a headshot is skipped entirely: with the
    record in the list, [resolvePersonImages] has the outcome and the
    events (requests, patches, delays) it has with the record taken out of
    the list, and when it returns the record is what it was. *)
Theorem resolvePersonImages_skips_record_with_headshot
  pre l post (h : heap) tr :
  truthy (Person.headshot (h !!! l)) = true ->
  run env (resolvePersonImages this (pre ++ l :: post) h) tr
  = run env (resolvePersonImages this (pre ++ post) h) tr
  /\ run env (resolvePersonImage this l h) tr = (inl h, [])
  /\ forall h' : heap,
       fst (run env (resolvePersonImages this (pre ++ l :: post) h) tr) = inl h'
       -> h' !!! l = h !!! l.
Proof.
  intros Hl. split; [apply resolvePersonImages_skips_carrier, Hl|].
  split; [rewrite (resolvePersonImage_skips _ _ Hl); reflexivity|].
  intros h' Hrun. apply resolvePersonImages_evolves in Hrun.
  destruct (Hrun l) as [_ Hkeep]. exact (Hkeep Hl).
Qed.

(** ** C3 *)

(** C3 (amended). When the image adapter returns no URL (nothing, or an
    empty string) for a record without a headshot, a warning is logged and
    the record is patched as it is, its headshot still unset. What follows
    depends on the patch call alone. When it succeeds, the loop draws its
    delay and goes on with the next record, in the same store: the run of
    the list is this turn followed by the run of the rest. When it is
    rejected, the loop ends there with the rejection, and no later record is
    processed. *)
Theorem resolvePersonImages_continues_without_url
  l rest (h : heap) tr url :
  let personData := h !!! l in
  let request := headshot_request this (Person.name personData) in
  let failed :=
    [Called request (inl url);
     Did (console_warn "Failed to generate headshot")] in
  let patch := VirtualPersonsService_patch (Person._id personData) personData in
  truthy (Person.headshot personData) = false ->
  answer env tr request = inl url ->
  truthy url = false ->
  match answer env (tr ++ failed) patch with
  | inl _ =>
      let r := random env (tr ++ failed ++ [Called patch (inl tt)]) in
      let turn :=
        failed
        ++ [Called patch (inl tt); Drew r;
            Did (Promise_delay
                   (random_integer r (Number_of_Z 1500) (Number_of_Z 2500)))] in
      run env (resolvePersonImages this (l :: rest) h) tr
      = (fst (run env (resolvePersonImages this rest h) (tr ++ turn)),
         turn ++ snd (run env (resolvePersonImages this rest h) (tr ++ turn)))
  | inr e =>
      run env (resolvePersonImages this (l :: rest) h) tr
      = (inr e, failed ++ [Called patch (inr e)])
  end.
Proof.
  intros personData request failed patch Hl Hrequest Hurl.
  rewrite run_resolvePersonImages_cons.
  assert (Hcases : url = None \/ url = Some [])
    by (destruct url as [[|c s]|]; [right|discriminate Hurl|left];
        reflexivity).
  destruct (answer env (tr ++ failed) patch) as [[]|e] eqn:Hpatch.
  - intros r turn.
    assert (Hturn : run env (resolvePersonImage this l h) tr = (inl h, turn)).
    { subst turn r patch failed request personData.
      unfold headshot_request, headshot_prompt in *.
      unfold resolvePersonImage. rewrite Hl.
      unfold generateHeadshot, call, Math_random, act.
      cbn [bind run aspectRatio]. rewrite Hrequest.
      destruct Hcases as [-> | ->]; cbn [bind run truthy];
        rewrite <- !app_assoc; cbn [app];
        rewrite Hpatch; rewrite <- !app_assoc; reflexivity. }
    rewrite Hturn, and_then_returned. reflexivity.
  - assert (Hturn : run env (resolvePersonImage this l h) tr
                    = (inr e, failed ++ [Called patch (inr e)])).
    { subst patch failed request personData.
      unfold headshot_request, headshot_prompt in *.
      unfold resolvePersonImage. rewrite Hl.
      unfold generateHeadshot, call, Math_random, act.
      cbn [bind run aspectRatio]. rewrite Hrequest.
      destruct Hcases as [-> | ->]; cbn [bind run truthy];
        rewrite <- !app_assoc; cbn [app];
        rewrite Hpatch; reflexivity. }
    rewrite Hturn. reflexivity.
Qed.

End Images.

(* ===================================================================== *)
(** * Persisting: [savePersonsData] *)
(* ===================================================================== *)

Section Save.
Context `{Platform}.
Variable this : VirtualPersons.
Variable env : Env.

Lemma filter_lacks_id_app (h added : heap) (ls : list loc) :
  (forall l, In l ls -> l < length h) ->
  List.filter (lacks_id (h ++ added)) ls = List.filter (lacks_id h) ls.
Proof.
  intros Hvalid. apply List.filter_ext_in. intros l Hl.
  unfold lacks_id. rewrite lookup_total_app_l by (apply Hvalid, Hl).
  reflexivity.
Qed.

(** What the loop of [savePersonsData] has done when it returns. *)
Lemma savePersonsData_from_returns personsData :
  forall acc (h : heap) tr created (h' : heap) evs,
    (forall l, In l personsData -> l < length h) ->
    run env (savePersonsData_from this personsData acc h) tr
    = (inl (created, h'), evs) ->
    exists new added,
      created = acc ++ new /\ h' = h ++ added
      /\ length new = length personsData
      /\ Forall (fun e => is_create e = true) evs
      /\ omap created_payload evs
         = map (fun l => create_payload this (h !!! l))
             (List.filter (lacks_id h) personsData)
      /\ (forall i l, personsData !! i = Some l ->
            truthy (Person._id (h !!! l)) = true -> new !! i = Some l)
      /\ (forall i l, personsData !! i = Some l ->
            truthy (Person._id (h !!! l)) = false ->
            exists l' saved,
              new !! i = Some l' /\ length h <= l' /\ h' !!! l' = saved
              /\ In (Called
                       (VirtualPersonsService_create
                          (create_payload this (h !!! l)))
                       (inl saved)) evs).
Proof.
  induction personsData as [|l rest IH];
    intros acc h tr created h' evs Hvalid Hrun.
  - cbn in Hrun. injection Hrun as <- <- <-.
    exists [], []. rewrite !app_nil_r.
    repeat split; try constructor; intros i l Hi; discriminate Hi.
  - cbn [savePersonsData_from] in Hrun.
    assert (Hrest : forall l', In l' rest -> l' < length h)
      by (intros l' Hl'; apply Hvalid; right; exact Hl').
    destruct (truthy (Person._id (h !!! l))) eqn:Hid.
    + destruct (IH _ _ _ _ _ _ Hrest Hrun)
        as (new & added & -> & -> & Hlen & Hall & Hpay & Hpass & Hnew).
      exists (l :: new), added. rewrite <- app_assoc.
      split; [reflexivity|]. split; [reflexivity|].
      split; [cbn; lia|]. split; [exact Hall|].
      split.
      { cbn [List.filter].
        replace (lacks_id h l) with false
          by (unfold lacks_id; rewrite Hid; reflexivity).
        exact Hpay. }
      split.
      * intros [|i] l0 Hi Hl0; cbn in Hi |- *; [congruence|].
        apply (Hpass i l0 Hi Hl0).
      * intros [|i] l0 Hi Hl0; cbn in Hi |- *; [congruence|].
        apply (Hnew i l0 Hi Hl0).
    + unfold call in Hrun. cbn [bind run] in Hrun.
      destruct (answer env tr _) as [saved|e] eqn:Hanswer; [|discriminate].
      unfold alloc in Hrun.
      destruct (run env (savePersonsData_from this rest _ _) _)
        as [o evs1] eqn:Hrun1.
      injection Hrun as -> <-.
      assert (Hrest1 : forall l', In l' rest -> l' < length (h ++ [saved]))
        by (intros l' Hl'; rewrite length_app; specialize (Hrest l' Hl'); lia).
      destruct (IH _ _ _ _ _ _ Hrest1 Hrun1)
        as (new & added & -> & -> & Hlen & Hall & Hpay & Hpass & Hnew).
      exists (length h :: new), (saved :: added). rewrite <- !app_assoc.
      split; [reflexivity|]. split; [reflexivity|].
      split; [cbn; lia|]. split; [constructor; [reflexivity|exact Hall]|].
      split.
      { cbn [List.filter].
        replace (lacks_id h l) with true
          by (unfold lacks_id; rewrite Hid; reflexivity).
        cbn [omap list_omap created_payload map]. f_equal.
        change (list_omap _ _ created_payload evs1)
          with (omap created_payload evs1).
        rewrite Hpay, filter_lacks_id_app by exact Hrest.
        apply map_ext_in. intros l' Hl'. apply List.filter_In in Hl'.
        rewrite lookup_total_app_l by (apply Hrest, Hl'). reflexivity. }
      split.
      * intros [|i] l0 Hi Hl0; cbn in Hi |- *; [congruence|].
        apply (Hpass i l0 Hi).
        rewrite lookup_total_app_l; [exact Hl0|].
        apply Hrest. apply list_elem_of_In. eapply list_elem_of_lookup_2, Hi.
      * intros [|i] l0 Hi Hl0; cbn in Hi |- *.
        -- injection Hi as <-. exists (length h), saved.
           split; [reflexivity|]. split; [lia|].
           split; [|left; reflexivity].
           cbn [app]. rewrite lookup_total_app_r by lia.
           rewrite Nat.sub_diag. reflexivity.
        -- assert (Hl0' : l0 < length h).
           { apply Hrest. apply list_elem_of_In.
             eapply list_elem_of_lookup_2, Hi. }
           destruct (Hnew i l0 Hi) as (l' & saved' & Hi' & Hfresh & Hh' & Hin).
           { rewrite lookup_total_app_l by exact Hl0'. exact Hl0. }
           exists l', saved'. split; [exact Hi'|].
           split; [rewrite length_app in Hfresh; lia|].
           split; [rewrite <- app_assoc in Hh'; exact Hh'|]. right.
           rewrite lookup_total_app_l in Hin by exact Hl0'. exact Hin.
Qed.

(** The loop returns when the persistence adapter answers every create. *)
Lemma savePersonsData_from_total personsData :
  (forall tr data,
      exists saved,
        answer env tr (VirtualPersonsService_create data) = inl saved) ->
  forall acc (h : heap) tr,
    exists created h' evs,
      run env (savePersonsData_from this personsData acc h) tr
      = (inl (created, h'), evs).
Proof.
  intros Hanswers. induction personsData as [|l rest IH]; intros acc h tr.
  - eexists _, _, _. reflexivity.
  - cbn [savePersonsData_from].
    destruct (truthy (Person._id (h !!! l))); [apply IH|].
    unfold call. cbn [bind run].
    destruct (Hanswers tr (create_payload this (h !!! l))) as [saved ->].
    unfold alloc.
    destruct (IH (acc ++ [length h]) (h ++ [saved])
                (tr ++ [Called
                          (VirtualPersonsService_create
                             (create_payload this (h !!! l)))
                          (inl saved)]))
      as (created & h' & evs & ->).
    eexists _, _, _. reflexivity.
Qed.

(** The payload of a create call, property by property. *)
Lemma create_payload_fields (personData : Person.t) :
  let payload := create_payload this personData in
  Person.nameEncoded payload = Some (encodeName (Person.name personData))
  /\ Person.link payload = Some (createFileName (Person.name personData))
  /\ Person.projectId payload = projectId this
  /\ Person.userId payload = userId (settings this)
  /\ Person.projectName payload = Some (projectName this)
  /\ Person._id payload = Person._id personData
  /\ Person.name payload = Person.name personData
  /\ Person.biography payload = Person.biography personData
  /\ Person.status payload = Person.status personData
  /\ Person.headshot payload = Person.headshot personData.
Proof. repeat split. Qed.

(** ** C4 *)

(** C4. [savePersonsData], for records of the store: when the persistence
    adapter answers its create calls the function returns, and then
    - the returned list has one reference for each input record, in the
      order of the input;
    - a record that carries a storage identifier is returned as it is, and
      the store keeps every record it had;
    - the calls made are create calls only, one for each entry of the list
      whose record has no identifier, in the order of the input, and the
      payload is the record with [nameEncoded = encodeName(name)],
      [link = createFileName(name)] and the project and owner references;
    - a record without an identifier is returned as the fresh record the
      adapter answered its create call with. *)
Theorem savePersonsData_creates_once_each personsData (h : heap) tr :
  (forall l, In l personsData -> l < length h) ->
  ((forall tr data,
       exists saved,
         answer env tr (VirtualPersonsService_create data) = inl saved) ->
   exists created h' evs,
     run env (savePersonsData this personsData h) tr
     = (inl (created, h'), evs))
  /\ (forall created (h' : heap) evs,
       run env (savePersonsData this personsData h) tr
       = (inl (created, h'), evs) ->
       length created = length personsData
       /\ (forall l, l < length h -> h' !!! l = h !!! l)
       /\ (forall i l, personsData !! i = Some l ->
             truthy (Person._id (h !!! l)) = true -> created !! i = Some l)
       /\ Forall (fun e => is_create e = true) evs
       /\ omap created_payload evs
          = map (fun l => create_payload this (h !!! l))
              (List.filter (lacks_id h) personsData)
       /\ (forall i l, personsData !! i = Some l ->
             truthy (Person._id (h !!! l)) = false ->
             exists l' saved,
               created !! i = Some l' /\ length h <= l' /\ h' !!! l' = saved
               /\ In (Called
                        (VirtualPersonsService_create
                           (create_payload this (h !!! l)))
                        (inl saved)) evs))
  /\ (forall personData : Person.t,
       let payload := create_payload this personData in
       Person.nameEncoded payload = Some (encodeName (Person.name personData))
       /\ Person.link payload
          = Some (createFileName (Person.name personData))
       /\ Person.projectId payload = projectId this
       /\ Person.userId payload = userId (settings this)
       /\ Person.projectName payload = Some (projectName this)
       /\ Person._id payload = Person._id personData
       /\ Person.name payload = Person.name personData
       /\ Person.biography payload = Person.biography personData
       /\ Person.status payload = Person.status personData
       /\ Person.headshot payload = Person.headshot personData).
Proof.
  intros Hvalid. split; [|split].
  - intros Hanswers. apply savePersonsData_from_total, Hanswers.
  - intros created h' evs Hrun.
    destruct (savePersonsData_from_returns _ _ _ _ _ _ _ Hvalid Hrun)
      as (new & added & -> & -> & Hlen & Hall & Hpay & Hpass & Hnew).
    cbn [app]. repeat split; try assumption.
    intros l Hl. apply lookup_total_app_l, Hl.
  - apply create_payload_fields.
Qed.

End Save.

(* ===================================================================== *)
(** * Biographies: [resolvePersonsData] *)
(* ===================================================================== *)

Section Resolve.
Context `{Platform}.
Variable this : VirtualPersons.
Variable env : Env.

(** Candidates that carry a biography and a status are passed through, in
    order, without any call. *)
Lemma resolvePersonsData_from_passes persons :
  forall acc (h : heap) tr ls,
    Forall2 (fun person l => carries_biography_and_status h person = Some l)
      persons ls ->
    run env (resolvePersonsData_from this persons acc h) tr
    = (inl (acc ++ ls, h), []).
Proof.
  induction persons as [|person rest IH]; intros acc h tr ls Hall.
  - apply Forall2_nil_inv_l in Hall as ->. rewrite app_nil_r. reflexivity.
  - apply Forall2_cons_inv_l in Hall as (l & ls' & Hl & Hall & ->).
    cbn [resolvePersonsData_from]. rewrite Hl.
    rewrite (IH _ _ _ _ Hall), <- app_assoc. reflexivity.
Qed.

(** The first candidate without a biography or a status ends the loop: the
    text adapter is asked once, and either its call fails or the push on
    its answer throws. *)
Lemma resolvePersonsData_from_throws persons :
  forall acc (h : heap) tr,
    Exists (fun person => carries_biography_and_status h person = None)
      persons ->
    exists person e answered,
      In person persons
      /\ run env (resolvePersonsData_from this persons acc h) tr
         = (inr e,
            [Called (createChatCompletionJson (Some 1000%Z)
                       (getPersonDataPrompt this person) personDataJsonFormat)
               answered])
      /\ (answered = inr e
          \/ e = TypeError "personData.push is not a function").
Proof.
  induction persons as [|person rest IH]; intros acc h tr Hex.
  - inversion Hex.
  - cbn [resolvePersonsData_from].
    destruct (carries_biography_and_status h person) as [l|] eqn:Hperson.
    + destruct (IH (acc ++ [l]) h tr) as (p & e & a & Hin & Hrun & He).
      { inversion Hex as [? ? Hhead|? ? Htail]; subst;
          [congruence|exact Htail]. }
      exists p, e, a. split; [right; exact Hin|]. split; assumption.
    + unfold call, PersonData_push. cbn [bind run].
      destruct (answer env tr _) as [personData|e].
      * exists person, (TypeError "personData.push is not a function"),
          (inl personData).
        split; [left; reflexivity|]. split; [reflexivity|right; reflexivity].
      * exists person, e, (inr e).
        split; [left; reflexivity|]. split; [reflexivity|left; reflexivity].
Qed.

(** A list of names never gets through. *)
Lemma resolvePersonsData_fails_on_names name names (h : heap) tr :
  exists e evs,
    run env (resolvePersonsData this (map CName (name :: names)) h) tr
    = (inr e, evs).
Proof.
  destruct (resolvePersonsData_from_throws
              (map CName (name :: names)) [] h tr)
    as (person & e & answered & _ & Hrun & _).
  - left. reflexivity.
  - eexists _, _. exact Hrun.
Qed.

(** ** C1 *)

(** C1 (what the code does instead). As soon as one candidate lacks a
    biography or a status, [resolvePersonsData] returns no list at all: it
    makes a single biography request, for the first such candidate, and
    ends with an exception, which is the [TypeError] of
    [personData.push] whenever the adapter answered. *)
Theorem resolvePersonsData_fails_on_unresolved_candidate persons (h : heap) tr :
  Exists (fun person => carries_biography_and_status h person = None)
    persons ->
  exists person e answered,
    In person persons
    /\ run env (resolvePersonsData this persons h) tr
       = (inr e,
          [Called (createChatCompletionJson (Some 1000%Z)
                     (getPersonDataPrompt this person) personDataJsonFormat)
             answered])
    /\ (answered = inr e
        \/ e = TypeError "personData.push is not a function").
Proof. apply resolvePersonsData_from_throws. Qed.

End Resolve.

(* ===================================================================== *)
(** * The pipeline: [init] *)
(* ===================================================================== *)

Section Init.
Context `{Platform}.
Variable this : VirtualPersons.
Variable env : Env.

(** The events of the first two stages. *)
Lemma run_getVirtualPersons min max tr filteredPersons evs :
  run env (getVirtualPersons this min max) tr = (inl filteredPersons, evs) ->
  exists r response existingPersons,
    evs = [Drew r;
           Called (createChatCompletionJson None
                     (names_prompt this (random_integer r min max))
                     personsListJsonFormat)
             (inl response);
           Called (VirtualPersonsService_find
                     (map encodeName
                        (map PersonsList.name (PersonsList.persons response)))
                     [lit "name"; lit "nameEncoded"] false)
             (inl existingPersons)]
          ++ (if Number_ltb
                   (Number_of_Z (Z.of_nat (length filteredPersons))) min
              then [Did (console_warn "not enough persons")] else []).
Proof.
  unfold getVirtualPersons, getRandomVirtualPersons, filterExistingPersons,
    call, Math_random, act.
  cbn [bind run].
  destruct (answer env _ _) as [response|e]; [|discriminate].
  cbn [bind run].
  destruct (answer env _ _) as [existingPersons|e]; [|discriminate].
  cbn [bind run].
  match goal with
  | |- context [Number_ltb ?a ?b] => destruct (Number_ltb a b) eqn:Hwarn
  end; cbn [bind run]; intros [= <- <-]; rewrite Hwarn;
    eexists _, _, _; reflexivity.
Qed.

(** ** C2 *)

(** C2. When deduplication leaves no candidate, [init] ends with what the
    first two stages did: the draw, the names request, the find and, when
    [0 < min], the warning. No biography request, create, image request or
    patch follows. *)
Theorem init_stops_after_deduplication min max (h : heap) tr evs :
  run env (getVirtualPersons this min max) tr = (inl [], evs) ->
  run env (init this min max h) tr = (inl h, evs)
  /\ exists r response existingPersons,
       evs = [Drew r;
              Called (createChatCompletionJson None
                        (names_prompt this (random_integer r min max))
                        personsListJsonFormat)
                (inl response);
              Called (VirtualPersonsService_find
                        (map encodeName
                           (map PersonsList.name
                              (PersonsList.persons response)))
                        [lit "name"; lit "nameEncoded"] false)
                (inl existingPersons)]
             ++ (if Number_ltb (Number_of_Z 0) min
                 then [Did (console_warn "not enough persons")] else []).
Proof.
  intros Hrun. split.
  - unfold init. rewrite run_bind, Hrun. cbn. rewrite app_nil_r. reflexivity.
  - apply run_getVirtualPersons in Hrun. exact Hrun.
Qed.

End Init.

(* ===================================================================== *)
(** * Deduplication: [filterExistingPersons] *)
(* ===================================================================== *)

Lemma jsstring_eqb_eq a b : jsstring_eqb a b = true <-> a = b.
Proof.
  revert b. induction a as [|x a IH]; intros [|y b]; cbn;
    try (split; [discriminate|discriminate]); [split; reflexivity|].
  rewrite andb_true_iff, N.eqb_eq, IH. split.
  - intros [-> ->]. reflexivity.
  - intros [= -> ->]. split; reflexivity.
Qed.

Lemma includes_In names person :
  includes names person = true <-> In person names.
Proof.
  unfold includes. rewrite existsb_exists. split.
  - intros (n & Hn & Heq). apply jsstring_eqb_eq in Heq as ->. exact Hn.
  - intros Hin. exists person. split; [exact Hin|]. apply jsstring_eqb_eq.
    reflexivity.
Qed.

Lemma filter_all_true {A} (f : A -> bool) (l : list A) :
  (forall x, In x l -> f x = true) -> List.filter f l = l.
Proof.
  induction l as [|x l IH]; intros Hall; [reflexivity|]. cbn.
  rewrite (Hall x) by (left; reflexivity). f_equal. apply IH.
  intros y Hy. apply Hall. right. exact Hy.
Qed.

(** The records a query finds are found by every larger query. *)
Lemma VirtualPersonsService_find_in_mono store keys keys' record :
  (forall key, In key keys -> In key keys') ->
  In record (VirtualPersonsService_find_in store keys) ->
  In record (VirtualPersonsService_find_in store keys').
Proof.
  unfold VirtualPersonsService_find_in. rewrite !List.filter_In.
  intros Hsub [Hin Hkey].
  split; [exact Hin|].
  destruct (Person.nameEncoded record) as [key|]; [|discriminate].
  apply includes_In. apply Hsub. apply includes_In. exact Hkey.
Qed.

(** Filtering again with records that were already among the first ones
    removes nothing. *)
Lemma filter_existing_twice (existing existing' : list Person.t) persons :
  (forall record, In record existing' -> In record existing) ->
  let remaining :=
    List.filter
      (fun person => negb (includes (map Person.name existing) person))
      persons in
  List.filter
    (fun person => negb (includes (map Person.name existing') person))
    remaining
  = remaining.
Proof.
  intros Hsub remaining. apply filter_all_true. intros person Hperson.
  apply List.filter_In in Hperson as [_ Hkept].
  apply negb_true_iff. apply negb_true_iff in Hkept.
  apply not_true_iff_false. intros Hin. apply not_true_iff_false in Hkept.
  apply Hkept. apply includes_In. apply includes_In in Hin.
  apply in_map_iff in Hin as (record & Hname & Hrecord).
  apply in_map_iff. exists record. split; [exact Hname|apply Hsub, Hrecord].
Qed.

Section Filter.

Lemma run_filterExistingPersons env store persons tr :
  answers_find_from env store ->
  fst (run env (filterExistingPersons persons) tr)
  = inl (List.filter
           (fun person =>
              negb (includes
                      (map Person.name
                         (VirtualPersonsService_find_in store
                            (map encodeName persons)))
                      person))
           persons).
Proof.
  intros Hfind. unfold filterExistingPersons, call. cbn [bind run].
  rewrite Hfind. reflexivity.
Qed.

(** ** C8 *)

(** C8. Against a fixed set of stored records, filtering the candidates
    that remained after a first filtering gives the same list again. *)
Theorem filterExistingPersons_idempotent env store persons tr tr' :
  answers_find_from env store ->
  exists remaining,
    fst (run env (filterExistingPersons persons) tr) = inl remaining
    /\ fst (run env (filterExistingPersons remaining) tr') = inl remaining.
Proof.
  intros Hfind. eexists. split; [apply run_filterExistingPersons, Hfind|].
  rewrite (run_filterExistingPersons _ _ _ _ Hfind). f_equal.
  apply filter_existing_twice. intros record.
  apply VirtualPersonsService_find_in_mono. intros key Hkey.
  apply in_map_iff in Hkey as (person & <- & Hperson).
  apply in_map_iff. exists person. split; [reflexivity|].
  apply List.filter_In in Hperson. apply Hperson.
Qed.

End Filter.

(* ===================================================================== *)
(** * The naming codec: [encodeName] *)
(* ===================================================================== *)

Local Open Scope N_scope.

Lemma base64_char_index s :
  s < 64 ->
  base64_index (base64_char s) = s /\ base64_char s <> base64_pad.
Proof.
  intros Hs.
  assert (Hall :
    forallb (fun s => N.eqb (base64_index (base64_char s)) s
                      && negb (N.eqb (base64_char s) base64_pad))
      (map N.of_nat (seq 0 64)) = true) by (vm_compute; reflexivity).
  rewrite forallb_forall in Hall. specialize (Hall s).
  rewrite andb_true_iff, negb_true_iff, N.eqb_eq, N.eqb_neq in Hall.
  apply Hall. apply in_map_iff. exists (N.to_nat s).
  split; [apply N2Nat.id|]. apply in_seq. lia.
Qed.

Lemma list_ind3 {A} (P : list A -> Prop) :
  P [] -> (forall a, P [a]) -> (forall a b, P [a; b]) ->
  (forall a b c l, P l -> P (a :: b :: c :: l)) ->
  forall l, P l.
Proof.
  intros H0 H1 H2 H3.
  fix IH 1. intros [|a [|b [|c l]]]; [exact H0|apply H1|apply H2|].
  apply H3, IH.
Qed.

Ltac base64_chars :=
  repeat match goal with
    | |- context [base64_index (base64_char ?s)] =>
        let Hs := fresh "Hs" in
        assert (Hs : s < 64) by lia;
        rewrite (proj1 (base64_char_index s Hs))
    | |- context [N.eqb (base64_char ?s) base64_pad] =>
        let Hs := fresh "Hs" in
        assert (Hs : s < 64) by lia;
        rewrite (proj2 (N.eqb_neq _ _) (proj2 (base64_char_index s Hs)))
    end.

(** Decoding the base64 form of bytes gives the bytes back. *)
Lemma base64_decode_toString bytes :
  Forall (fun b => b < 256) bytes ->
  base64_decode (toString_base64 bytes) = bytes.
Proof.
  induction bytes as [|a|a b|a b c rest IH] using list_ind3; intros Hbytes.
  - reflexivity.
  - apply Forall_cons in Hbytes as [Ha _].
    cbn [toString_base64 base64_decode]. rewrite N.eqb_refl.
    base64_chars. f_equal. lia.
  - apply Forall_cons in Hbytes as [Ha Hbytes].
    apply Forall_cons in Hbytes as [Hb _].
    cbn [toString_base64 base64_decode]. rewrite N.eqb_refl.
    base64_chars. f_equal; [lia|]. f_equal. lia.
  - apply Forall_cons in Hbytes as [Ha Hbytes].
    apply Forall_cons in Hbytes as [Hb Hbytes].
    apply Forall_cons in Hbytes as [Hc Hbytes].
    cbn [toString_base64 base64_decode app].
    base64_chars. rewrite (IH Hbytes).
    cbn [app]. f_equal; [lia|]. f_equal; [lia|]. f_equal. lia.
Qed.

Ltac decide_ltb :=
  repeat match goal with
    | |- context [?a <? ?b] =>
        first [ rewrite (proj2 (N.ltb_lt a b)) by lia
              | rewrite (proj2 (N.ltb_ge a b)) by lia ]
    end.

Lemma is_high_surrogate_spec c :
  is_high_surrogate c = true <-> 0xD800 <= c <= 0xDBFF.
Proof. unfold is_high_surrogate. rewrite andb_true_iff, !N.leb_le. tauto. Qed.

Lemma is_low_surrogate_spec c :
  is_low_surrogate c = true <-> 0xDC00 <= c <= 0xDFFF.
Proof. unfold is_low_surrogate. rewrite andb_true_iff, !N.leb_le. tauto. Qed.

(** The bytes of a code point are bytes, and they decode to its units. *)
Lemma utf8_encode_bytes cp :
  cp < 0x110000 -> Forall (fun b => b < 256) (utf8_encode cp).
Proof.
  intros Hcp. unfold utf8_encode.
  destruct (cp <? 0x80) eqn:H1; [|destruct (cp <? 0x800) eqn:H2;
    [|destruct (cp <? 0x10000) eqn:H3]];
    rewrite ?N.ltb_lt, ?N.ltb_ge in *; repeat constructor; lia.
Qed.

Lemma utf8_decode_encode cp tail :
  cp < 0x110000 ->
  utf8_decode (utf8_encode cp ++ tail) = utf16_encode cp ++ utf8_decode tail.
Proof.
  intros Hcp. unfold utf8_encode.
  destruct (cp <? 0x80) eqn:H1; [|destruct (cp <? 0x800) eqn:H2;
    [|destruct (cp <? 0x10000) eqn:H3]];
    rewrite ?N.ltb_lt, ?N.ltb_ge in *; cbn [app utf8_decode]; decide_ltb;
    do 2 f_equal; lia.
Qed.

Lemma utf16_encode_unit c : c < 0x10000 -> utf16_encode c = [c].
Proof. intros Hc. unfold utf16_encode. decide_ltb. reflexivity. Qed.

Lemma utf16_encode_pair c d :
  is_high_surrogate c = true -> is_low_surrogate d = true ->
  surrogate_pair c d < 0x110000
  /\ utf16_encode (surrogate_pair c d) = [c; d].
Proof.
  rewrite is_high_surrogate_spec, is_low_surrogate_spec. intros Hc Hd.
  unfold utf16_encode, surrogate_pair. split; [lia|].
  decide_ltb. f_equal; [lia|]. f_equal. lia.
Qed.

Lemma Buffer_from_unit c rest :
  is_high_surrogate c = false -> is_low_surrogate c = false ->
  Buffer_from (c :: rest) = utf8_encode c ++ Buffer_from rest.
Proof.
  intros Hhigh Hlow. cbn [Buffer_from]. rewrite Hhigh, Hlow. reflexivity.
Qed.

Lemma Buffer_from_pair c d rest :
  is_high_surrogate c = true -> is_low_surrogate d = true ->
  Buffer_from (c :: d :: rest)
  = utf8_encode (surrogate_pair c d) ++ Buffer_from rest.
Proof.
  intros Hhigh Hlow. cbn [Buffer_from]. rewrite Hhigh, Hlow. reflexivity.
Qed.

Lemma well_formed_unit c rest :
  is_high_surrogate c = false ->
  well_formed (c :: rest)
  = negb (is_low_surrogate c) && (c <? 0x10000) && well_formed rest.
Proof. intros Hhigh. cbn [well_formed]. rewrite Hhigh. reflexivity. Qed.

Lemma well_formed_pair c d rest :
  is_high_surrogate c = true ->
  well_formed (c :: d :: rest) = is_low_surrogate d && well_formed rest.
Proof. intros Hhigh. cbn [well_formed]. rewrite Hhigh. reflexivity. Qed.

(** Decoding the UTF-8 form of a well-formed string gives the string
    back, and the form consists of bytes. *)
Lemma utf8_decode_Buffer_from_step s :
  (well_formed s = true ->
   utf8_decode (Buffer_from s) = s
   /\ Forall (fun b => b < 256) (Buffer_from s))
  /\ forall c,
       well_formed (c :: s) = true ->
       utf8_decode (Buffer_from (c :: s)) = c :: s
       /\ Forall (fun b => b < 256) (Buffer_from (c :: s)).
Proof.
  assert (Hunit : forall c rest,
    is_high_surrogate c = false ->
    (well_formed rest = true ->
     utf8_decode (Buffer_from rest) = rest
     /\ Forall (fun b => b < 256) (Buffer_from rest)) ->
    well_formed (c :: rest) = true ->
    utf8_decode (Buffer_from (c :: rest)) = c :: rest
    /\ Forall (fun b => b < 256) (Buffer_from (c :: rest))).
  { intros c rest Hhigh IH. rewrite (well_formed_unit c rest Hhigh).
    rewrite !andb_true_iff, negb_true_iff, N.ltb_lt. intros [[Hlow Hc] Hrest].
    destruct (IH Hrest) as [Hdec Hbytes].
    rewrite (Buffer_from_unit c rest Hhigh Hlow).
    rewrite utf8_decode_encode, utf16_encode_unit, Hdec by lia.
    split; [reflexivity|].
    apply Forall_app. split; [apply utf8_encode_bytes; lia|exact Hbytes]. }
  induction s as [|d rest [IHrest IHcons]].
  - split; [intros _; split; [reflexivity|constructor]|].
    intros c Hwf. destruct (is_high_surrogate c) eqn:Hhigh.
    + cbn [well_formed] in Hwf. rewrite Hhigh in Hwf. discriminate.
    + apply Hunit; [exact Hhigh| |exact Hwf].
      intros _. split; [reflexivity|constructor].
  - split; [apply IHcons|].
    intros c Hwf. destruct (is_high_surrogate c) eqn:Hhigh.
    + rewrite (well_formed_pair c d rest Hhigh), andb_true_iff in Hwf.
      destruct Hwf as [Hlow Hrest]. destruct (IHrest Hrest) as [Hdec Hbytes].
      destruct (utf16_encode_pair c d Hhigh Hlow) as [Hcp Hunits].
      rewrite (Buffer_from_pair c d rest Hhigh Hlow).
      rewrite utf8_decode_encode, Hunits, Hdec by exact Hcp.
      split; [reflexivity|].
      apply Forall_app. split; [apply utf8_encode_bytes, Hcp|exact Hbytes].
    + apply Hunit; [exact Hhigh|apply IHcons|exact Hwf].
Qed.

Lemma utf8_decode_Buffer_from s :
  well_formed s = true -> utf8_decode (Buffer_from s) = s.
Proof. intros Hs. apply (utf8_decode_Buffer_from_step s), Hs. Qed.

Lemma Buffer_from_bytes s :
  well_formed s = true -> Forall (fun b => b < 256) (Buffer_from s).
Proof. intros Hs. apply (utf8_decode_Buffer_from_step s), Hs. Qed.

(** A well-formed name is read back from its key. *)
Lemma decode_encodeName name :
  well_formed name = true ->
  utf8_decode (base64_decode (encodeName name)) = name.
Proof.
  intros Hname. unfold encodeName.
  rewrite base64_decode_toString by (apply Buffer_from_bytes, Hname).
  apply utf8_decode_Buffer_from, Hname.
Qed.

(** ** C7 *)

(** C7 (amended). [encodeName] is deterministic, equal names have equal
    keys, and it is injective on the names whose surrogates are paired:
    two such names with the same key are equal. *)
Theorem encodeName_injective_on_well_formed_names :
  (forall a b : jsstring, a = b -> encodeName a = encodeName b)
  /\ (forall a b : jsstring,
        well_formed a = true -> well_formed b = true ->
        encodeName a = encodeName b -> a = b).
Proof.
  split; [intros a b ->; reflexivity|].
  intros a b Ha Hb Hkey.
  rewrite <- (decode_encodeName a Ha), <- (decode_encodeName b Hb).
  rewrite Hkey. reflexivity.
Qed.

Lemma encodeName_injective_on_well_formed_names_witness :
  well_formed (lit "Ann") = true /\ well_formed (lit "Bob") = true
  /\ (encodeName (lit "Ann") = encodeName (lit "Bob")
      -> lit "Ann" = lit "Bob").
Proof.
  split; [reflexivity|]. split; [reflexivity|].
  apply (proj2 encodeName_injective_on_well_formed_names
           (lit "Ann") (lit "Bob"));
    reflexivity.
Defined.

(** C7, as stated, fails: a lone surrogate and U+FFFD are two names with
    one key, "77+9". *)
Lemma encodeName_collides_on_lone_surrogate :
  [0xD800] <> [0xFFFD]
  /\ encodeName [0xD800] = lit "77+9"
  /\ encodeName [0xFFFD] = lit "77+9".
Proof. split; [discriminate|]. split; reflexivity. Qed.

Local Close Scope N_scope.

(* ===================================================================== *)
(** * The random count: [Math.floor(Math.random() * (max - min) + min)] *)
(* ===================================================================== *)

Local Open Scope Z_scope.

(** ** Digits and shifts *)

Lemma digits2_pos_bounds m :
  2 ^ (Zpos (digits2_pos m) - 1) <= Zpos m < 2 ^ Zpos (digits2_pos m).
Proof.
  induction m as [m IH|m IH|]; cbn [digits2_pos].
  - rewrite Pos2Z.inj_succ.
    replace (Z.succ (Zpos (digits2_pos m)) - 1)
      with (Z.succ (Zpos (digits2_pos m) - 1)) by lia.
    rewrite !Z.pow_succ_r by lia. lia.
  - rewrite Pos2Z.inj_succ.
    replace (Z.succ (Zpos (digits2_pos m)) - 1)
      with (Z.succ (Zpos (digits2_pos m) - 1)) by lia.
    rewrite !Z.pow_succ_r by lia. lia.
  - cbn. lia.
Qed.

Lemma Zdigits2_le m k : 0 <= m < 2 ^ k -> 0 <= k -> Zdigits2 m <= k.
Proof.
  intros [Hm Hlt] Hk. destruct m as [|p|p]; cbn [Zdigits2]; [lia| |lia].
  destruct (Z.le_gt_cases (Zpos (digits2_pos p)) k) as [Hle|Hgt]; [exact Hle|].
  pose proof (digits2_pos_bounds p) as [Hlow _].
  assert (Hpow : 2 ^ k <= 2 ^ (Zpos (digits2_pos p) - 1))
    by (apply Z.pow_le_mono_r; lia).
  lia.
Qed.

Lemma shr_1_spec x :
  0 <= shr_m x ->
  shr_m (shr_1 x) = shr_m x / 2
  /\ (inexact (shr_1 x) = true -> inexact x = true \/ shr_m x mod 2 <> 0).
Proof.
  destruct x as [m r s]. unfold inexact. cbn [shr_m shr_r shr_s].
  intros Hm. destruct m as [|[p|p|]|]; try lia; cbn [shr_1 shr_m shr_r shr_s].
  - split; [reflexivity|]. rewrite orb_false_l. intros ->. left. reflexivity.
  - split; [lia|]. intros _. right. lia.
  - split; [lia|]. rewrite orb_false_l. intros ->. left. reflexivity.
  - split; [reflexivity|]. intros _. right. cbn. lia.
Qed.

Lemma shr_1_nonneg x : 0 <= shr_m x -> 0 <= shr_m (shr_1 x).
Proof.
  intros Hm. rewrite (proj1 (shr_1_spec x Hm)). apply Z.div_pos; lia.
Qed.

Lemma lost_bits_compose m a b :
  0 < a -> 0 < b ->
  m mod a <> 0 \/ (m / a) mod b <> 0 -> m mod (a * b) <> 0.
Proof.
  intros Ha Hb Hlost. rewrite Z.rem_mul_r by lia.
  pose proof (Z.mod_pos_bound m a Ha).
  pose proof (Z.mod_pos_bound (m / a) b Hb). nia.
Qed.

Lemma iter_shr_1_spec p :
  forall x,
    0 <= shr_m x ->
    shr_m (SpecFloat.iter_pos shr_1 p x) = shr_m x / 2 ^ Zpos p
    /\ (inexact (SpecFloat.iter_pos shr_1 p x) = true ->
        inexact x = true \/ shr_m x mod 2 ^ Zpos p <> 0).
Proof.
  assert (Hstep : forall (f g : shr_record -> shr_record) a b,
    0 < a -> 0 < b ->
    (forall x, 0 <= shr_m x ->
       shr_m (f x) = shr_m x / a
       /\ (inexact (f x) = true -> inexact x = true \/ shr_m x mod a <> 0)) ->
    (forall x, 0 <= shr_m x ->
       shr_m (g x) = shr_m x / b
       /\ (inexact (g x) = true -> inexact x = true \/ shr_m x mod b <> 0)) ->
    forall x, 0 <= shr_m x ->
      shr_m (g (f x)) = shr_m x / (a * b)
      /\ (inexact (g (f x)) = true ->
          inexact x = true \/ shr_m x mod (a * b) <> 0)).
  { intros f g a b Ha Hb Hf Hg x Hx.
    destruct (Hf x Hx) as [Hfm Hfi].
    assert (Hfx : 0 <= shr_m (f x)) by (rewrite Hfm; apply Z.div_pos; lia).
    destruct (Hg (f x) Hfx) as [Hgm Hgi].
    split; [rewrite Hgm, Hfm, Z.div_div by lia; reflexivity|].
    intros Hi. destruct (Hgi Hi) as [Hi'|Hlost].
    - destruct (Hfi Hi') as [Hi''|Hlost]; [left; exact Hi''|].
      right. apply lost_bits_compose; [lia|lia|left; exact Hlost].
    - right. apply lost_bits_compose; [lia|lia|right].
      rewrite <- Hfm. exact Hlost. }
  induction p as [p IH|p IH|]; cbn [SpecFloat.iter_pos].
  - replace (2 ^ Zpos p~1) with (2 * (2 ^ Zpos p * 2 ^ Zpos p))
      by (replace (Zpos p~1) with (1 + (Zpos p + Zpos p)) by lia;
          rewrite !Z.pow_add_r by lia; rewrite Z.pow_1_r; reflexivity).
    intros x Hx.
    apply (Hstep shr_1
             (fun y => SpecFloat.iter_pos shr_1 p (SpecFloat.iter_pos shr_1 p y))
             2 (2 ^ Zpos p * 2 ^ Zpos p));
      [lia|lia|apply shr_1_spec| |exact Hx].
    apply Hstep; [lia|lia|exact IH|exact IH].
  - replace (2 ^ Zpos p~0) with (2 ^ Zpos p * 2 ^ Zpos p)
      by (rewrite <- Z.pow_add_r by lia; f_equal; lia).
    apply Hstep; [lia|lia|exact IH|exact IH].
  - rewrite Z.pow_1_r. apply shr_1_spec.
Qed.

(** What [shr] leaves of a mantissa that was exact so far. *)
Lemma shr_spec m e n :
  0 <= m ->
  let '(y, e') := shr (Build_shr_record m false false) e n in
  0 <= shr_m y
  /\ (n <= 0 -> shr_m y = m /\ inexact y = false /\ e' = e)
  /\ (0 < n ->
      shr_m y = m / 2 ^ n /\ e' = e + n
      /\ (inexact y = true -> m mod 2 ^ n <> 0)).
Proof.
  intros Hm. unfold shr. destruct n as [|p|p].
  - split; [exact Hm|]. split; [intros _; repeat split|lia].
  - destruct (iter_shr_1_spec p (Build_shr_record m false false) Hm)
      as [Hshift Hlost].
    cbn [shr_m] in Hshift, Hlost.
    split; [rewrite Hshift; apply Z.div_pos; lia|]. split; [lia|].
    intros _. split; [exact Hshift|]. split; [reflexivity|].
    intros Hi. destruct (Hlost Hi) as [Hfalse|Hne]; [discriminate|exact Hne].
  - split; [exact Hm|]. split; [intros _; repeat split|lia].
Qed.

Lemma round_nearest_even_spec y :
  round_nearest_even (shr_m y) (loc_of_shr_record y) = shr_m y
  \/ (round_nearest_even (shr_m y) (loc_of_shr_record y) = shr_m y + 1
      /\ inexact y = true).
Proof.
  destruct y as [m [|] [|]]; cbn; try destruct (Z.even m); auto.
Qed.

Lemma pow2_pos k : 0 < 2 ^ k \/ (k < 0 /\ 2 ^ k = 0).
Proof.
  destruct (Z.le_gt_cases 0 k) as [Hk|Hk].
  - left. apply Z.pow_pos_nonneg; lia.
  - right. split; [lia|]. apply Z.pow_neg_r. lia.
Qed.

Lemma pow2_split x y : 0 <= x -> 0 <= y -> 2 ^ (x + y) = 2 ^ x * 2 ^ y.
Proof. intros Hx Hy. apply Z.pow_add_r; assumption. Qed.

(** A floor shift keeps integer bounds: with [e' = e + n <= 0]. *)
Lemma shift_keeps_bounds a b m e n :
  0 < n -> e + n <= 0 ->
  a * 2 ^ (- e) <= m <= b * 2 ^ (- e) ->
  a * 2 ^ (- (e + n)) <= m / 2 ^ n <= b * 2 ^ (- (e + n))
  /\ (m mod 2 ^ n <> 0 -> m / 2 ^ n + 1 <= b * 2 ^ (- (e + n))).
Proof.
  intros Hn He.
  replace (- e) with (- (e + n) + n) by lia.
  rewrite pow2_split by lia.
  assert (Hpow : 0 < 2 ^ n) by (apply Z.pow_pos_nonneg; lia).
  generalize dependent (2 ^ n). intros k Hk.
  generalize (2 ^ (- (e + n))). intros j [Hlow Hhigh].
  split; [split|].
  - apply Z.div_le_lower_bound; [exact Hk|]. lia.
  - apply Z.div_le_upper_bound; [exact Hk|]. lia.
  - intros Hlost.
    assert (Hlt : m / k < b * j); [|lia].
    apply Z.div_lt_upper_bound; [exact Hk|].
    assert (Hne : m <> k * (b * j)); [|lia].
    intros ->. apply Hlost. rewrite Z.mul_comm. apply Z.mod_mul. lia.
Qed.

(** ** Rounding stays between integer bounds *)

Lemma fexp_least e : -1074 <= fexp 53 1024 e.
Proof. unfold fexp, SpecFloat.emin. lia. Qed.

Lemma digits_fexp_nonpos m e b :
  0 <= m <= b * 2 ^ (- e) -> e <= 0 -> b < 2 ^ 53 ->
  fexp 53 1024 (Zdigits2 m + e) <= 0.
Proof.
  intros [Hm Hb] He Hb53. unfold fexp, SpecFloat.emin.
  assert (Hdigits : Zdigits2 m <= 53 - e).
  { apply Zdigits2_le; [|lia]. split; [exact Hm|].
    replace (53 - e) with (53 + - e) by lia. rewrite pow2_split by lia.
    assert (0 < 2 ^ (- e)) by (apply Z.pow_pos_nonneg; lia). nia. }
  lia.
Qed.

(** A mantissa above the least exponent keeps its 53 leading digits. *)
Lemma shift_keeps_leading_digits m e :
  0 < m -> -1074 <= e ->
  0 < fexp 53 1024 (Zdigits2 m + e) - e ->
  0 < m / 2 ^ (fexp 53 1024 (Zdigits2 m + e) - e).
Proof.
  intros Hm He. destruct m as [|p|p]; try lia. cbn [Zdigits2].
  unfold fexp, SpecFloat.emin. intros Hn.
  replace (Z.max (Zpos (digits2_pos p) + e - 53) (3 - 1024 - 53) - e)
    with (Zpos (digits2_pos p) - 53) by lia.
  pose proof (digits2_pos_bounds p) as [Hlow _].
  replace (Zpos (digits2_pos p) - 1)
    with (52 + (Zpos (digits2_pos p) - 53)) in Hlow by lia.
  rewrite pow2_split in Hlow by lia.
  assert (Hpow : 0 < 2 ^ (Zpos (digits2_pos p) - 53))
    by (apply Z.pow_pos_nonneg; lia).
  assert (Hq : 2 ^ 52 <= Zpos p / 2 ^ (Zpos (digits2_pos p) - 53))
    by (apply Z.div_le_lower_bound; [exact Hpow|lia]).
  assert (0 < 2 ^ 52) by (apply Z.pow_pos_nonneg; lia). lia.
Qed.

(** One alignment of a mantissa on its exponent. *)
Lemma shr_fexp_step m e a b :
  0 <= m -> e <= 0 -> b < 2 ^ 53 ->
  a * 2 ^ (- e) <= m <= b * 2 ^ (- e) ->
  let '(y, e') :=
    shr (Build_shr_record m false false) e
      (fexp 53 1024 (Zdigits2 m + e) - e) in
  -1074 <= e' <= 0 /\ 0 <= shr_m y
  /\ a * 2 ^ (- e') <= shr_m y <= b * 2 ^ (- e')
  /\ (inexact y = true -> shr_m y + 1 <= b * 2 ^ (- e'))
  /\ (0 < m -> -1074 <= e -> 0 < shr_m y).
Proof.
  intros Hm He Hb Hbounds.
  assert (Hfexp : fexp 53 1024 (Zdigits2 m + e) <= 0)
    by (apply (digits_fexp_nonpos m e b); lia).
  pose proof (fexp_least (Zdigits2 m + e)) as Hleast.
  pose proof (shift_keeps_leading_digits m e) as Hleading.
  set (n := fexp 53 1024 (Zdigits2 m + e) - e) in *.
  pose proof (shr_spec m e n Hm) as Hshr.
  destruct (shr (Build_shr_record m false false) e n) as [y e'].
  destruct Hshr as (Hy & Hkeep & Hshift).
  destruct (Z.le_gt_cases n 0) as [Hn|Hn].
  - destruct (Hkeep Hn) as (Hmy & Hexact & ->). rewrite Hmy.
    split; [lia|]. split; [exact Hm|]. split; [exact Hbounds|].
    split; [congruence|]. intros Hpos _. exact Hpos.
  - destruct (Hshift Hn) as (Hmy & -> & Hlost).
    assert (He' : e + n <= 0) by lia.
    destruct (shift_keeps_bounds a b m e n Hn He' Hbounds) as [Hfloor Hup].
    rewrite <- Hmy in Hfloor, Hup.
    split; [lia|]. split; [exact Hy|]. split; [exact Hfloor|].
    split; [intros Hi; apply Hup, Hlost, Hi|].
    intros Hpos Hlow. rewrite Hmy. apply Hleading; assumption.
Qed.

Lemma binary_round_aux_rounded sx mx ex a b :
  0 < mx -> ex <= 0 -> b < 2 ^ 53 ->
  a * 2 ^ (- ex) <= mx <= b * 2 ^ (- ex) ->
  rounded sx a b ex (binary_round_aux 53 1024 sx mx ex loc_Exact).
Proof.
  intros Hmx Hex Hb Hbounds. unfold binary_round_aux, shr_fexp.
  cbn [shr_record_of_loc].
  pose proof (shr_fexp_step mx ex a b (Z.lt_le_incl _ _ Hmx) Hex Hb Hbounds)
    as Hstep1.
  destruct (shr (Build_shr_record mx false false) ex _) as [y1 e1].
  destruct Hstep1 as (He1 & Hy1 & Hbounds1 & Hup1 & Hpos1).
  set (m2 := round_nearest_even (shr_m y1) (loc_of_shr_record y1)).
  assert (Hm2 : shr_m y1 <= m2 /\ a * 2 ^ (- e1) <= m2 <= b * 2 ^ (- e1)).
  { subst m2. destruct (round_nearest_even_spec y1) as [->|[-> Hi]]; [lia|].
    specialize (Hup1 Hi). lia. }
  pose proof (shr_fexp_step m2 e1 a b ltac:(lia) ltac:(lia) Hb (proj2 Hm2))
    as Hstep2.
  destruct (shr (Build_shr_record m2 false false) e1 _) as [y2 e2].
  destruct Hstep2 as (He2 & Hy2 & Hbounds2 & _ & Hpos2).
  assert (Hpow : 0 < 2 ^ (- e2)) by (apply Z.pow_pos_nonneg; lia).
  destruct (shr_m y2) as [|m|m] eqn:Hm3; [| |lia].
  - cbn [rounded]. split; [reflexivity|]. split; [nia|].
    destruct (Z.lt_ge_cases ex (-1074)) as [Hlow|Hlow]; [exact Hlow|].
    specialize (Hpos1 Hmx Hlow).
    assert (0 < 0); [|lia]. apply Hpos2; lia.
  - replace (e2 <=? 1024 - 53) with true by (symmetry; apply Z.leb_le; lia).
    cbn [rounded]. split; [reflexivity|]. lia.
Qed.

Lemma Pos_iter_xO m d : Zpos (Pos.iter xO m d) = Zpos m * 2 ^ Zpos d.
Proof.
  induction d as [|d IH] using Pos.peano_ind.
  - cbn. lia.
  - rewrite Pos.iter_succ, Pos2Z.inj_succ, Z.pow_succ_r, Pos2Z.inj_xO, IH
      by lia.
    lia.
Qed.

Lemma shl_align_spec mx ex ex' :
  let '(mz, ez) := shl_align mx ex ex' in
  ez <= ex /\ (ex' <= ex -> ez = ex') /\ (ez = ex \/ ez = ex')
  /\ Zpos mz = Zpos mx * 2 ^ (ex - ez).
Proof.
  unfold shl_align. destruct (ex' - ex) as [|d|d] eqn:Hd.
  - rewrite Z.sub_diag. cbn. lia.
  - rewrite Z.sub_diag. cbn. lia.
  - replace (ex - ex') with (Zpos d) by lia. rewrite Pos_iter_xO. lia.
Qed.

Lemma scale_bounds a b m e ez :
  ez <= e -> e <= 0 ->
  a * 2 ^ (- e) <= m <= b * 2 ^ (- e) ->
  a * 2 ^ (- ez) <= m * 2 ^ (e - ez) <= b * 2 ^ (- ez).
Proof.
  intros Hez He Hm. replace (- ez) with (- e + (e - ez)) by lia.
  rewrite pow2_split by lia.
  assert (0 < 2 ^ (e - ez)) by (apply Z.pow_pos_nonneg; lia). nia.
Qed.

(** Rounding a mantissa whose exponent is not below the least one gives a
    number that is not zero. *)
Lemma binary_round_rounded sx mx ex a b :
  -1074 <= ex <= 0 -> b < 2 ^ 53 ->
  a * 2 ^ (- ex) <= Zpos mx <= b * 2 ^ (- ex) ->
  match binary_round 53 1024 sx mx ex with
  | S754_finite s m e =>
      s = sx
      /\ -1074 <= e <= 0 /\ a * 2 ^ (- e) <= Zpos m <= b * 2 ^ (- e)
  | _ => False
  end.
Proof.
  intros Hex Hb Hbounds. unfold binary_round.
  pose proof (shl_align_spec mx ex
                (fexp 53 1024 (Zpos (digits2_pos mx) + ex))) as Halign.
  pose proof (fexp_least (Zpos (digits2_pos mx) + ex)) as Hleast.
  destruct (shl_align mx ex _) as [mz ez].
  destruct Halign as (Hez & _ & Hwhich & Hmz).
  assert (Hrounded : rounded sx a b ez
            (binary_round_aux 53 1024 sx (Zpos mz) ez loc_Exact)).
  { apply binary_round_aux_rounded; [lia|lia|exact Hb|].
    rewrite Hmz. apply scale_bounds; lia. }
  destruct (binary_round_aux 53 1024 sx (Zpos mz) ez loc_Exact)
    as [s|s| |s m e]; cbn [rounded] in Hrounded; try tauto.
  lia.
Qed.

Lemma binary_normalize_within M e a b :
  -1074 <= e <= 0 -> - 2 ^ 53 < a -> b < 2 ^ 53 ->
  a * 2 ^ (- e) <= M <= b * 2 ^ (- e) ->
  within a b (binary_normalize 53 1024 M e false).
Proof.
  intros He Ha Hb Hbounds.
  assert (Hpow : 0 < 2 ^ (- e)) by (apply Z.pow_pos_nonneg; lia).
  destruct M as [|m|m]; cbn [binary_normalize].
  - cbn [within]. nia.
  - pose proof (binary_round_rounded false m e a b He Hb Hbounds) as Hround.
    destruct (binary_round 53 1024 false m e) as [s|s| |s m' e'];
      try tauto.
    destruct Hround as (-> & He' & Hm'). cbn [within cond_Zopp].
    split; assumption.
  - pose proof (binary_round_rounded true m e (- b) (- a) He ltac:(lia)
                  ltac:(lia)) as Hround.
    destruct (binary_round 53 1024 true m e) as [s|s| |s m' e'];
      try tauto.
    destruct Hround as (-> & He' & Hm'). cbn [within cond_Zopp].
    split; [exact He'|lia].
Qed.

Lemma within_weaken a b a' b' x :
  a' <= a -> b <= b' -> within a b x -> within a' b' x.
Proof.
  intros Ha Hb. destruct x as [[|]|[|]| |s m e]; cbn [within]; try tauto.
  - lia.
  - intros [He Hm]. split; [exact He|].
    assert (0 < 2 ^ (- e)) by (apply Z.pow_pos_nonneg; lia). nia.
Qed.

(** The sign of a number with a sign. *)
Lemma within_sign a b s m e :
  within a b (S754_finite s m e) ->
  (0 < a -> s = false) /\ (b < 0 -> s = true).
Proof.
  cbn [within]. intros [He Hm].
  assert (0 < 2 ^ (- e)) by (apply Z.pow_pos_nonneg; lia).
  destruct s; cbn [cond_Zopp] in Hm; split; intros Hsign;
    try reflexivity; nia.
Qed.

(** ** The operations of the expression *)

(** An integer of less than 54 bits is a number exactly. *)
Lemma Number_of_Z_within z :
  - 2 ^ 53 < z < 2 ^ 53 -> within z z (Number_of_Z z).
Proof.
  intros Hz. unfold Number_of_Z. apply binary_normalize_within; lia.
Qed.

Lemma aligned_mantissa m e ez :
  ez <= e -> Zpos (fst (shl_align m e ez)) = Zpos m * 2 ^ (e - ez).
Proof.
  intros Hez. pose proof (shl_align_spec m e ez) as Halign.
  destruct (shl_align m e ez) as [mz ez']. cbn [fst].
  destruct Halign as (_ & Hez' & _ & Hmz). rewrite (Hez' Hez) in Hmz.
  exact Hmz.
Qed.

Lemma aligned_bounds a b s m e ez :
  ez <= e -> e <= 0 ->
  a * 2 ^ (- e) <= cond_Zopp s (Zpos m) <= b * 2 ^ (- e) ->
  a * 2 ^ (- ez) <= cond_Zopp s (Zpos (fst (shl_align m e ez)))
  <= b * 2 ^ (- ez).
Proof.
  intros Hez He Hm.
  pose proof (scale_bounds a b _ e ez Hez He Hm) as Hscaled.
  pose proof (aligned_mantissa m e ez Hez) as Haligned.
  destruct s; cbn [cond_Zopp] in *; lia.
Qed.

(** [max - min] is exact. *)
Lemma Number_sub_within a b x y :
  - 2 ^ 53 < a -> a < b -> b < 2 ^ 53 -> b - a < 2 ^ 53 ->
  within a a x -> within b b y ->
  within (b - a) (b - a) (Number_sub y x).
Proof.
  intros Ha Hab Hb Hdiff Hx Hy. unfold Number_sub.
  destruct y as [[|]|[|]| |sy my ey]; cbn [within] in Hy; try tauto;
    destruct x as [[|]|[|]| |sx mx ex]; cbn [within] in Hx; try tauto.
  - lia.
  - assert (b = 0) by lia. subst b.
    destruct (within_sign a a sx mx ex Hx) as [_ Hneg].
    rewrite (Hneg ltac:(lia)) in *. cbn [SFsub negb within cond_Zopp] in *.
    lia.
  - cbn [SFsub within]. replace (b - a) with b by lia. exact Hy.
  - destruct Hx as [Hex Hmx], Hy as [Hey Hmy]. cbn [SFsub].
    apply binary_normalize_within; [lia|lia|lia|].
    pose proof (aligned_bounds a a sx mx ex (Z.min ey ex)
                  ltac:(lia) ltac:(lia) Hmx).
    pose proof (aligned_bounds b b sy my ey (Z.min ey ex)
                  ltac:(lia) ltac:(lia) Hmy).
    lia.
Qed.

(** A valid mantissa has at most 53 digits. *)
Lemma valid_mantissa m e :
  valid_binary 53 1024 (S754_finite false m e) = true -> Zpos m < 2 ^ 53.
Proof.
  cbn [valid_binary]. unfold bounded, canonical_mantissa, fexp, SpecFloat.emin.
  rewrite andb_true_iff, Z.eqb_eq. intros [Hcanonical _].
  pose proof (digits2_pos_bounds m) as [_ Hhigh].
  assert (Hpow : 2 ^ Zpos (digits2_pos m) <= 2 ^ 53)
    by (apply Z.pow_le_mono_r; lia).
  lia.
Qed.

(** A random draw is below 1. *)
Lemma random_draw_below_one m e :
  is_random_draw (S754_finite false m e) = true ->
  e <= 0 /\ Zpos m < 2 ^ (- e).
Proof.
  unfold is_random_draw. rewrite !andb_true_iff. intros [[_ Hvalid] Hlt].
  apply valid_mantissa in Hvalid.
  unfold SFltb in Hlt. change (Number_of_Z 1)
    with (S754_finite false 4503599627370496 (-52)) in Hlt.
  cbn [SFcompare] in Hlt.
  destruct (e ?= -52) eqn:He.
  - apply Z.compare_eq in He. subst e.
    destruct (Pos.compare_cont Eq m 4503599627370496) eqn:Hm;
      try discriminate.
    assert (Hbelow : Zpos m < 4503599627370496) by exact Hm.
    clear Hm Hlt. change (2 ^ (- -52)) with 4503599627370496. lia.
  - rewrite Z.compare_lt_iff in He. split; [lia|].
    assert (Hpow : 2 ^ 53 <= 2 ^ (- e)) by (apply Z.pow_le_mono_r; lia).
    lia.
  - discriminate.
Qed.

(** [r * (max - min)] lies between 0 and [max - min]. *)
Lemma Number_mul_within r D d :
  0 < D -> D < 2 ^ 53 ->
  is_random_draw r = true -> within D D d ->
  within 0 D (Number_mul r d).
Proof.
  intros HD HD53 Hr Hd. unfold Number_mul.
  destruct d as [[|]|[|]| |sd md ed]; cbn [within] in Hd; try tauto; [lia|].
  destruct (within_sign D D sd md ed Hd) as [Hpos _].
  rewrite (Hpos HD) in *. cbn [within cond_Zopp] in Hd.
  destruct Hd as [Hed Hmd].
  destruct r as [[|]|[|]| |[|] mr er]; try discriminate Hr.
  - cbn [SFmul xorb within]. lia.
  - apply random_draw_below_one in Hr as [Her Hmr].
    cbn [SFmul xorb].
    assert (Hrounded : rounded false 0 D (er + ed)
              (binary_round_aux 53 1024 false (Zpos (mr * md)) (er + ed)
                 loc_Exact)).
    { apply binary_round_aux_rounded; [lia|lia|exact HD53|].
      replace (- (er + ed)) with (- er + - ed) by lia.
      rewrite pow2_split, Pos2Z.inj_mul by lia.
      assert (0 < 2 ^ (- er)) by (apply Z.pow_pos_nonneg; lia).
      assert (0 < 2 ^ (- ed)) by (apply Z.pow_pos_nonneg; lia).
      nia. }
    destruct (binary_round_aux 53 1024 false (Zpos (mr * md)) (er + ed)
                loc_Exact) as [s|s| |s m e];
      cbn [rounded] in Hrounded; try tauto.
    + destruct Hrounded as (-> & Hzero & _). exact Hzero.
    + destruct Hrounded as (-> & Hbounds). exact Hbounds.
Qed.

(** [... + min] lies between [min] and [max]. *)
Lemma Number_add_within a D p q :
  - 2 ^ 53 < a -> 0 <= D -> a + D < 2 ^ 53 ->
  within 0 D p -> within a a q ->
  within a (a + D) (Number_add p q).
Proof.
  intros Ha HD Hsum Hp Hq. unfold Number_add.
  destruct p as [[|]|[|]| |sp mp ep]; cbn [within] in Hp; try tauto;
    destruct q as [[|]|[|]| |sq mq eq]; cbn [within] in Hq; try tauto.
  - cbn [SFadd within]. lia.
  - cbn [SFadd]. apply (within_weaken a a); [lia|lia|exact Hq].
  - cbn [SFadd]. apply (within_weaken 0 D); [lia|lia|exact Hp].
  - destruct Hp as [Hep Hmp], Hq as [Heq Hmq]. cbn [SFadd].
    apply binary_normalize_within; [lia|lia|lia|].
    pose proof (aligned_bounds 0 D sp mp ep (Z.min ep eq)
                  ltac:(lia) ltac:(lia) Hmp).
    pose proof (aligned_bounds a a sq mq eq (Z.min ep eq)
                  ltac:(lia) ltac:(lia) Hmq).
    lia.
Qed.

(** The floor of a number between two integers is an integer between
    them. *)
Lemma Math_floor_within a b x :
  within a b x ->
  exists k, Math_floor x = Number_of_Z k /\ a <= k <= b.
Proof.
  destruct x as [[|]|[|]| |s m e]; cbn [within]; try tauto.
  - intros Hab. exists 0. split; [reflexivity|exact Hab].
  - intros [He Hm]. exists (cond_Zopp s (Zpos m) / 2 ^ (- e)).
    cbn [Math_floor]. rewrite Z.shiftr_div_pow2 by lia.
    split; [reflexivity|].
    assert (0 < 2 ^ (- e)) by (apply Z.pow_pos_nonneg; lia).
    split; [apply Z.div_le_lower_bound|apply Z.div_le_upper_bound]; lia.
Qed.

Lemma random_integer_within min max r :
  - 2 ^ 53 < min -> min < max -> max < 2 ^ 53 -> max - min < 2 ^ 53 ->
  is_random_draw r = true ->
  exists k,
    random_integer r (Number_of_Z min) (Number_of_Z max) = Number_of_Z k
    /\ min <= k <= max.
Proof.
  intros Hmin Hlt Hmax Hdiff Hr. unfold random_integer.
  apply Math_floor_within.
  assert (Hmin' : within min min (Number_of_Z min))
    by (apply Number_of_Z_within; lia).
  assert (Hmax' : within max max (Number_of_Z max))
    by (apply Number_of_Z_within; lia).
  pose proof (Number_sub_within min max _ _ Hmin Hlt Hmax Hdiff Hmin' Hmax')
    as Hsub.
  pose proof (Number_mul_within r (max - min) _ ltac:(lia) ltac:(lia) Hr Hsub)
    as Hmul.
  pose proof (Number_add_within min (max - min) _ _ Hmin ltac:(lia) ltac:(lia)
                Hmul Hmin') as Hadd.
  replace (min + (max - min)) with max in Hadd by lia. exact Hadd.
Qed.

(** ** C6 *)

(** C6 (amended). For integers [min < max] that a number holds exactly,
    as their difference ([-2^53 < min], [max < 2^53],
    [max - min < 2^53]), and for every draw of [Math.random()], the count
    that [getRandomVirtualPersons] computes, and asks for in its names
    prompt, is an integer [k] with [min <= k <= max]. *)
Theorem getRandomVirtualPersons_count_within `{Platform}
  (this : VirtualPersons) (env : Env) (min max : Z) tr :
  - 2 ^ 53 < min -> min < max -> max < 2 ^ 53 -> max - min < 2 ^ 53 ->
  is_random_draw (random env tr) = true ->
  exists k,
    min <= k <= max
    /\ random_integer (random env tr) (Number_of_Z min) (Number_of_Z max)
       = Number_of_Z k
    /\ exists answered,
         snd (run env
                (getRandomVirtualPersons this (Number_of_Z min)
                   (Number_of_Z max)) tr)
         = [Drew (random env tr);
            Called (createChatCompletionJson None
                      (names_prompt this (Number_of_Z k))
                      personsListJsonFormat) answered].
Proof.
  intros Hmin Hlt Hmax Hdiff Hr.
  destruct (random_integer_within min max _ Hmin Hlt Hmax Hdiff Hr)
    as (k & Hk & Hrange).
  exists k. split; [exact Hrange|]. split; [exact Hk|].
  unfold getRandomVirtualPersons, call, Math_random. cbn [bind run].
  rewrite Hk. fold (names_prompt this (Number_of_Z k)).
  destruct (answer env _ _) as [response|e]; eexists; reflexivity.
Qed.

(** C6, as stated, fails: with [min = 1], [max = 3] and the draw
    [1 - 2^-53], the sum [r * 2 + 1] rounds to 3 and the count is [max]. *)
Lemma random_integer_reaches_max :
  is_random_draw largest_draw = true
  /\ random_integer largest_draw (Number_of_Z 1) (Number_of_Z 3)
     = Number_of_Z 3.
Proof. split; vm_compute; reflexivity. Qed.

Local Close Scope Z_scope.

(* ===================================================================== *)
(** * More on the naming codec *)
(* ===================================================================== *)

Local Open Scope N_scope.

Lemma is_utf16_cons c s :
  is_utf16 (c :: s) = true <-> c < 0x10000 /\ is_utf16 s = true.
Proof. cbn [is_utf16 forallb]. rewrite andb_true_iff, N.ltb_lt. tauto. Qed.

Lemma toWellFormed_unit c rest :
  is_high_surrogate c = false -> is_low_surrogate c = false ->
  toWellFormed (c :: rest) = c :: toWellFormed rest.
Proof. intros Hh Hl. cbn [toWellFormed]. rewrite Hh, Hl. reflexivity. Qed.

Lemma toWellFormed_pair c d rest :
  is_high_surrogate c = true -> is_low_surrogate d = true ->
  toWellFormed (c :: d :: rest) = c :: d :: toWellFormed rest.
Proof. intros Hh Hl. cbn [toWellFormed]. rewrite Hh, Hl. reflexivity. Qed.

Lemma toWellFormed_lone_low c rest :
  is_high_surrogate c = false -> is_low_surrogate c = true ->
  toWellFormed (c :: rest) = replacement_character :: toWellFormed rest.
Proof. intros Hh Hl. cbn [toWellFormed]. rewrite Hh, Hl. reflexivity. Qed.

Lemma toWellFormed_lone_high c d rest :
  is_high_surrogate c = true -> is_low_surrogate d = false ->
  toWellFormed (c :: d :: rest)
  = replacement_character :: toWellFormed (d :: rest).
Proof. intros Hh Hl. cbn [toWellFormed]. rewrite Hh, Hl. reflexivity. Qed.

Lemma Buffer_from_lone_low c rest :
  is_high_surrogate c = false -> is_low_surrogate c = true ->
  Buffer_from (c :: rest)
  = utf8_encode replacement_character ++ Buffer_from rest.
Proof. intros Hh Hl. cbn [Buffer_from]. rewrite Hh, Hl. reflexivity. Qed.

Lemma Buffer_from_lone_high c d rest :
  is_high_surrogate c = true -> is_low_surrogate d = false ->
  Buffer_from (c :: d :: rest)
  = utf8_encode replacement_character ++ Buffer_from (d :: rest).
Proof. intros Hh Hl. cbn [Buffer_from]. rewrite Hh, Hl. reflexivity. Qed.

Lemma replacement_character_plain :
  is_high_surrogate replacement_character = false
  /\ is_low_surrogate replacement_character = false.
Proof. split; reflexivity. Qed.

(** The ways a string starts, for the functions that read surrogates. *)
Lemma surrogate_cases (P : jsstring -> Prop) :
  P [] ->
  (forall c rest,
      is_high_surrogate c = false -> is_low_surrogate c = false ->
      P rest -> P (c :: rest)) ->
  (forall c rest,
      is_high_surrogate c = false -> is_low_surrogate c = true ->
      P rest -> P (c :: rest)) ->
  (forall c, is_high_surrogate c = true -> P [c]) ->
  (forall c d rest,
      is_high_surrogate c = true -> is_low_surrogate d = true ->
      P rest -> P (c :: d :: rest)) ->
  (forall c d rest,
      is_high_surrogate c = true -> is_low_surrogate d = false ->
      P (d :: rest) -> P (c :: d :: rest)) ->
  forall s, P s.
Proof.
  intros Hnil Hunit Hlow Hlast Hpair Hhigh s.
  assert (Hboth : P s /\ forall c, P (c :: s)).
  { induction s as [|d rest [IHrest IHcons]].
    - split; [exact Hnil|]. intros c.
      destruct (is_high_surrogate c) eqn:Hh; [apply Hlast, Hh|].
      destruct (is_low_surrogate c) eqn:Hl;
        [apply Hlow|apply Hunit]; assumption.
    - split; [apply IHcons|]. intros c.
      destruct (is_high_surrogate c) eqn:Hh.
      + destruct (is_low_surrogate d) eqn:Hl;
          [apply Hpair|apply Hhigh]; try assumption. apply IHcons.
      + destruct (is_low_surrogate c) eqn:Hl;
          [apply Hlow|apply Hunit]; try assumption; apply IHcons. }
  apply Hboth.
Qed.

(** The bytes of a string are the bytes of its well-formed version. *)
Lemma Buffer_from_toWellFormed s :
  Buffer_from (toWellFormed s) = Buffer_from s.
Proof.
  destruct replacement_character_plain as [Hrh Hrl].
  induction s as [|c rest Hh Hl IH|c rest Hh Hl IH|c Hh|c d rest Hh Hl IH
                 |c d rest Hh Hl IH] using surrogate_cases.
  - reflexivity.
  - rewrite (toWellFormed_unit _ _ Hh Hl), !(Buffer_from_unit _ _ Hh Hl), IH.
    reflexivity.
  - rewrite (toWellFormed_lone_low _ _ Hh Hl), (Buffer_from_lone_low _ _ Hh Hl).
    rewrite (Buffer_from_unit _ _ Hrh Hrl), IH. reflexivity.
  - cbn [toWellFormed Buffer_from]. rewrite Hh. reflexivity.
  - rewrite (toWellFormed_pair _ _ _ Hh Hl), !(Buffer_from_pair _ _ _ Hh Hl).
    rewrite IH.
    reflexivity.
  - rewrite (toWellFormed_lone_high _ _ _ Hh Hl),
      (Buffer_from_lone_high _ _ _ Hh Hl).
    rewrite (Buffer_from_unit _ _ Hrh Hrl), IH. reflexivity.
Qed.

Lemma well_formed_toWellFormed s :
  is_utf16 s = true -> well_formed (toWellFormed s) = true.
Proof.
  destruct replacement_character_plain as [Hrh Hrl].
  induction s as [|c rest Hh Hl IH|c rest Hh Hl IH|c Hh|c d rest Hh Hl IH
                 |c d rest Hh Hl IH] using surrogate_cases.
  - reflexivity.
  - rewrite is_utf16_cons. intros [Hc Hrest].
    rewrite (toWellFormed_unit _ _ Hh Hl), (well_formed_unit _ _ Hh), Hl.
    rewrite (IH Hrest), (proj2 (N.ltb_lt _ _) Hc). reflexivity.
  - rewrite is_utf16_cons. intros [Hc Hrest].
    rewrite (toWellFormed_lone_low _ _ Hh Hl), (well_formed_unit _ _ Hrh), Hrl.
    rewrite (IH Hrest). reflexivity.
  - intros _. cbn [toWellFormed]. rewrite Hh. reflexivity.
  - rewrite !is_utf16_cons. intros (Hc & Hd & Hrest).
    rewrite (toWellFormed_pair _ _ _ Hh Hl), (well_formed_pair _ _ _ Hh), Hl.
    apply (IH Hrest).
  - rewrite is_utf16_cons. intros [Hc Hrest].
    rewrite (toWellFormed_lone_high _ _ _ Hh Hl).
    rewrite (well_formed_unit _ _ Hrh), Hrl.
    rewrite (IH Hrest). reflexivity.
Qed.

(** A well-formed string is its own well-formed version. *)
Lemma toWellFormed_well_formed s :
  well_formed s = true -> toWellFormed s = s.
Proof.
  induction s as [|c rest Hh Hl IH|c rest Hh Hl IH|c Hh|c d rest Hh Hl IH
                 |c d rest Hh Hl IH] using surrogate_cases.
  - reflexivity.
  - rewrite (well_formed_unit _ _ Hh), !andb_true_iff. intros [_ Hrest].
    rewrite (toWellFormed_unit _ _ Hh Hl), (IH Hrest). reflexivity.
  - rewrite (well_formed_unit _ _ Hh), Hl. discriminate.
  - cbn [well_formed]. rewrite Hh. discriminate.
  - rewrite (well_formed_pair _ _ _ Hh), andb_true_iff. intros [_ Hrest].
    rewrite (toWellFormed_pair _ _ _ Hh Hl), (IH Hrest). reflexivity.
  - rewrite (well_formed_pair _ _ _ Hh), Hl. discriminate.
Qed.

Lemma Buffer_from_bytes_utf16 s :
  is_utf16 s = true -> Forall (fun b => b < 256) (Buffer_from s).
Proof.
  intros Hs. rewrite <- Buffer_from_toWellFormed.
  apply Buffer_from_bytes, well_formed_toWellFormed, Hs.
Qed.

Lemma decode_encodeName_utf16 name :
  is_utf16 name = true ->
  utf8_decode (base64_decode (encodeName name)) = toWellFormed name.
Proof.
  intros Hname. unfold encodeName.
  rewrite base64_decode_toString by (apply Buffer_from_bytes_utf16, Hname).
  rewrite <- Buffer_from_toWellFormed.
  apply utf8_decode_Buffer_from, well_formed_toWellFormed, Hname.
Qed.

Lemma base64_char_alphabet s : s < 64 -> In (base64_char s) base64_alphabet.
Proof.
  intros Hs. unfold base64_char. apply nth_In.
  replace (length base64_alphabet) with 64%nat by reflexivity. lia.
Qed.

Lemma toString_base64_chars bytes :
  Forall (fun b => b < 256) bytes ->
  Forall is_base64_char (toString_base64 bytes).
Proof.
  induction bytes as [|a|a b|a b c rest IH] using list_ind3; intros Hbytes.
  - constructor.
  - apply Forall_cons in Hbytes as [Ha _]. cbn [toString_base64].
    repeat apply List.Forall_cons; try apply List.Forall_nil;
      first [right; reflexivity|left; apply base64_char_alphabet; lia].
  - apply Forall_cons in Hbytes as [Ha Hbytes].
    apply Forall_cons in Hbytes as [Hb _]. cbn [toString_base64].
    repeat apply List.Forall_cons; try apply List.Forall_nil;
      first [right; reflexivity|left; apply base64_char_alphabet; lia].
  - apply Forall_cons in Hbytes as [Ha Hbytes].
    apply Forall_cons in Hbytes as [Hb Hbytes].
    apply Forall_cons in Hbytes as [Hc Hbytes]. cbn [toString_base64 app].
    do 4 (apply Forall_cons; split; [left; apply base64_char_alphabet; lia|]).
    apply IH, Hbytes.
Qed.

Lemma toString_base64_length bytes :
  length (toString_base64 bytes) = (4 * ((length bytes + 2) / 3))%nat.
Proof.
  induction bytes as [|a|a b|a b c rest IH] using list_ind3.
  - reflexivity.
  - reflexivity.
  - reflexivity.
  - cbn [toString_base64 app length]. rewrite IH.
    replace (S (S (S (length rest))) + 2)%nat
      with (1 * 3 + (length rest + 2))%nat by lia.
    rewrite Nat.div_add_l by lia. lia.
Qed.

Lemma utf8_encode_length cp :
  (1 <= length (utf8_encode cp) <= 4)%nat
  /\ (cp < 0x10000 -> (length (utf8_encode cp) <= 3)%nat)
  /\ (0x10000 <= cp -> length (utf8_encode cp) = 4%nat).
Proof.
  unfold utf8_encode.
  destruct (cp <? 0x80) eqn:H1; [|destruct (cp <? 0x800) eqn:H2;
    [|destruct (cp <? 0x10000) eqn:H3]];
    rewrite ?N.ltb_lt, ?N.ltb_ge in *; cbn [length];
    repeat split; intros; lia.
Qed.

Lemma Buffer_from_length s :
  is_utf16 s = true ->
  (length s <= length (Buffer_from s) <= 3 * length s)%nat.
Proof.
  destruct replacement_character_plain as [Hrh Hrl].
  assert (Hr : length (utf8_encode replacement_character) = 3%nat)
    by reflexivity.
  induction s as [|c rest Hh Hl IH|c rest Hh Hl IH|c Hh|c d rest Hh Hl IH
                 |c d rest Hh Hl IH] using surrogate_cases.
  - intros _. cbn. lia.
  - rewrite is_utf16_cons. intros [Hc Hrest]. specialize (IH Hrest).
    rewrite (Buffer_from_unit _ _ Hh Hl), length_app. cbn [length].
    destruct (utf8_encode_length c) as (Hlen & Hshort & _).
    specialize (Hshort Hc). lia.
  - rewrite is_utf16_cons. intros [Hc Hrest]. specialize (IH Hrest).
    rewrite (Buffer_from_lone_low _ _ Hh Hl), length_app, Hr. cbn [length].
    lia.
  - intros _. cbn [Buffer_from]. rewrite Hh, Hr. cbn [length]. lia.
  - rewrite !is_utf16_cons. intros (Hc & Hd & Hrest). specialize (IH Hrest).
    rewrite (Buffer_from_pair _ _ _ Hh Hl), length_app. cbn [length].
    destruct (utf8_encode_length (surrogate_pair c d)) as (_ & _ & Hlong).
    rewrite Hlong by (unfold surrogate_pair; lia). lia.
  - rewrite is_utf16_cons. intros [Hc Hrest]. specialize (IH Hrest).
    rewrite (Buffer_from_lone_high _ _ _ Hh Hl), length_app, Hr.
    cbn [length] in *. lia.
Qed.

(** ** The characters and the length of a key *)

(** X1. A key is text of the base64 alphabet: every character of
    [encodeName(name)] is one of [A-Za-z0-9+/] or the padding [=]. *)
Theorem encodeName_is_base64_text name :
  is_utf16 name = true -> Forall is_base64_char (encodeName name).
Proof.
  intros Hname. apply toString_base64_chars, Buffer_from_bytes_utf16, Hname.
Qed.

(** X2. A key has four characters for every three bytes of the name in
    UTF-8, the last group padded: its length is a multiple of 4, at least
    the length of the name rounded up to a multiple of 3 and times 4/3, and
    at most 4 times the length of the name. *)
Theorem encodeName_length name :
  is_utf16 name = true ->
  length (encodeName name)
  = (4 * ((length (Buffer_from name) + 2) / 3))%nat
  /\ (4 * ((length name + 2) / 3) <= length (encodeName name)
      <= 4 * length name)%nat.
Proof.
  intros Hname. unfold encodeName. rewrite toString_base64_length.
  split; [reflexivity|].
  pose proof (Buffer_from_length name Hname) as [Hlow Hhigh].
  split.
  - apply Nat.mul_le_mono_l, Nat.Div0.div_le_mono. lia.
  - apply Nat.mul_le_mono_l.
    transitivity ((3 * length name + 2) / 3)%nat;
      [apply Nat.Div0.div_le_mono; lia|].
    rewrite Nat.mul_comm, Nat.div_add_l by lia. cbn. lia.
Qed.

(** ** Reading a key back, and the names that share a key *)

(** X3. Decoding a key ([Buffer.from(key, 'base64').toString()]) gives the
    name with every unpaired surrogate replaced by U+FFFD; a name whose
    surrogates are paired is given back as it is. *)
Theorem encodeName_decodes_to_well_formed_name name :
  is_utf16 name = true ->
  utf8_decode (base64_decode (encodeName name)) = toWellFormed name
  /\ (well_formed name = true -> toWellFormed name = name).
Proof.
  intros Hname. split; [apply decode_encodeName_utf16, Hname|].
  apply toWellFormed_well_formed.
Qed.

(** X4. Two names have the same key exactly when they are the same once
    their unpaired surrogates are replaced by U+FFFD. *)
Theorem encodeName_collides_iff a b :
  is_utf16 a = true -> is_utf16 b = true ->
  encodeName a = encodeName b <-> toWellFormed a = toWellFormed b.
Proof.
  intros Ha Hb. split.
  - intros Hkey.
    rewrite <- (decode_encodeName_utf16 a Ha).
    rewrite <- (decode_encodeName_utf16 b Hb).
    rewrite Hkey. reflexivity.
  - intros Hwf. unfold encodeName.
    rewrite <- (Buffer_from_toWellFormed a), <- (Buffer_from_toWellFormed b).
    rewrite Hwf. reflexivity.
Qed.

Local Close Scope N_scope.

(* ===================================================================== *)
(** * More on deduplication *)
(* ===================================================================== *)

Lemma sublist_List_filter {A} (f : A -> bool) (l : list A) :
  sublist (List.filter f l) l.
Proof.
  induction l as [|x l IH]; [constructor|]. cbn [List.filter].
  destruct (f x); [apply sublist_skip|apply sublist_cons]; exact IH.
Qed.

Lemma count_occ_List_filter {A} (dec : forall x y : A, {x = y} + {x <> y})
  (f : A -> bool) (l : list A) (x : A) :
  f x = true -> count_occ dec (List.filter f l) x = count_occ dec l x.
Proof.
  intros Hx. induction l as [|y l IH]; [reflexivity|]. cbn [List.filter].
  destruct (f y) eqn:Hy; cbn [count_occ]; destruct (dec y x) as [->|Hne];
    try (rewrite IH; reflexivity).
  congruence.
Qed.

Lemma excludes_not_In names person :
  negb (includes names person) = true <-> ~ In person names.
Proof.
  rewrite negb_true_iff, <- not_true_iff_false, includes_In. reflexivity.
Qed.

Section FilterAnswers.
Variable env : Env.

(** X5. [filterExistingPersons] asks the persistence service once, for the
    keys of all the candidates, and then drops the candidates that bear the
    name of a record it answered: what remains is in the order of the input,
    contains no such name, and has every other name as often as the input
    has it (a name proposed twice stays twice). When the service rejects the
    query, so does the function. *)
Theorem filterExistingPersons_drops_answered_names persons tr :
  let query :=
    VirtualPersonsService_find (map encodeName persons)
      [lit "name"; lit "nameEncoded"] false in
  match answer env tr query with
  | inl existingPersons =>
      exists remaining,
        run env (filterExistingPersons persons) tr
        = (inl remaining, [Called query (inl existingPersons)])
        /\ sublist remaining persons
        /\ (forall person,
              In person (map Person.name existingPersons) ->
              ~ In person remaining)
        /\ (forall person,
              ~ In person (map Person.name existingPersons) ->
              count_occ jsstring_eq_dec remaining person
              = count_occ jsstring_eq_dec persons person)
  | inr e =>
      run env (filterExistingPersons persons) tr
      = (inr e, [Called query (inr e)])
  end.
Proof.
  intros query. unfold filterExistingPersons, call. cbn [bind run].
  fold query. destruct (answer env tr query) as [existingPersons|e];
    [|reflexivity].
  eexists. split; [reflexivity|]. split; [apply sublist_List_filter|]. split.
  - intros person Hin Hkept. apply List.filter_In in Hkept as [_ Hkept].
    apply excludes_not_In in Hkept. exact (Hkept Hin).
  - intros person Hout. apply count_occ_List_filter.
    apply excludes_not_In. exact Hout.
Qed.

End FilterAnswers.

(** In a store filed by name, the records found for the keys of the
    candidates bear the stored names among the candidates'. *)
Lemma found_names_of_keyed_store store persons person :
  keyed_by_name store -> In person persons ->
  includes
    (map Person.name
       (VirtualPersonsService_find_in store (map encodeName persons)))
    person
  = includes (map Person.name store) person.
Proof.
  intros Hkeyed Hperson. apply eq_true_iff_eq. rewrite !includes_In.
  rewrite !in_map_iff. unfold VirtualPersonsService_find_in. split.
  - intros (record & Hname & Hfound). apply List.filter_In in Hfound.
    exists record. split; [exact Hname|apply Hfound].
  - intros (record & Hname & Hstored). exists record.
    split; [exact Hname|]. apply List.filter_In. split; [exact Hstored|].
    unfold keyed_by_name in Hkeyed. rewrite List.Forall_forall in Hkeyed.
    rewrite (Hkeyed record Hstored), Hname. apply includes_In.
    apply in_map. exact Hperson.
Qed.

Lemma run_filterExistingPersons_keyed env store persons tr :
  answers_find_from env store -> keyed_by_name store ->
  fst (run env (filterExistingPersons persons) tr)
  = inl (List.filter
           (fun person => negb (includes (map Person.name store) person))
           persons).
Proof.
  intros Hfind Hkeyed. rewrite (run_filterExistingPersons _ _ _ _ Hfind).
  f_equal. apply List.filter_ext_in. intros person Hperson.
  rewrite (found_names_of_keyed_store _ _ _ Hkeyed Hperson). reflexivity.
Qed.

Lemma encodeName_injective a b :
  well_formed a = true -> well_formed b = true ->
  encodeName a = encodeName b -> a = b.
Proof.
  intros Ha Hb Hkey.
  rewrite <- (decode_encodeName a Ha), <- (decode_encodeName b Hb), Hkey.
  reflexivity.
Qed.

(** X6. When the service holds [store] and every record of it is filed under
    the key of its name, [filterExistingPersons] returns exactly the
    candidates whose name no stored record bears. *)
Theorem filterExistingPersons_keeps_names_not_stored env store persons tr :
  answers_find_from env store -> keyed_by_name store ->
  fst (run env (filterExistingPersons persons) tr)
  = inl (List.filter
           (fun person => negb (includes (map Person.name store) person))
           persons).
Proof. apply run_filterExistingPersons_keyed. Qed.

(** X7. With names whose surrogates are paired, deduplication by name is
    deduplication by key: no candidate that remains has the key of a stored
    record, so creating it adds no second record under a key. *)
Theorem filterExistingPersons_leaves_new_keys env store persons tr remaining :
  answers_find_from env store -> keyed_by_name store ->
  Forall (fun record => well_formed (Person.name record) = true) store ->
  Forall (fun person => well_formed person = true) persons ->
  fst (run env (filterExistingPersons persons) tr) = inl remaining ->
  forall person record,
    In person remaining -> In record store ->
    Person.nameEncoded record <> Some (encodeName person).
Proof.
  intros Hfind Hkeyed Hstore Hpersons Hrun person record Hperson Hrecord Hkey.
  rewrite (run_filterExistingPersons_keyed _ _ _ _ Hfind Hkeyed) in Hrun.
  injection Hrun as <-.
  apply List.filter_In in Hperson as [Hperson Hkept].
  apply excludes_not_In in Hkept. apply Hkept.
  unfold keyed_by_name in Hkeyed.
  rewrite List.Forall_forall in Hkeyed, Hstore, Hpersons.
  rewrite (Hkeyed record Hrecord) in Hkey. injection Hkey as Hkey.
  apply encodeName_injective in Hkey;
    [|apply Hstore, Hrecord|apply Hpersons, Hperson].
  rewrite <- Hkey. apply in_map. exact Hrecord.
Qed.

(* ===================================================================== *)
(** * More on headshots *)
(* ===================================================================== *)

Section MoreImages.
Context `{Platform}.
Variable this : VirtualPersons.
Variable env : Env.

(** A property of event lists that holds of every turn holds of the
    loop. *)
Lemma resolvePersonImages_events (P : list event -> Prop) :
  P [] -> (forall a b, P a -> P b -> P (a ++ b)) ->
  (forall l h tr, P (snd (run env (resolvePersonImage this l h) tr))) ->
  forall personsData h tr,
    P (snd (run env (resolvePersonImages this personsData h) tr)).
Proof.
  intros Hnil Happ Hturn. induction personsData as [|l rest IH]; intros h tr.
  - exact Hnil.
  - rewrite run_resolvePersonImages_cons. specialize (Hturn l h tr).
    destruct (run env (resolvePersonImage this l h) tr) as [[h1|e] evs];
      cbn [snd] in Hturn.
    + rewrite and_then_returned. cbn [snd]. apply Happ; [exact Hturn|apply IH].
    + exact Hturn.
Qed.

Lemma resolvePersonImage_uploads l h tr :
  omap uploaded_url (snd (run env (resolvePersonImage this l h) tr))
  = omap generated_url (snd (run env (resolvePersonImage this l h) tr)).
Proof.
  unfold resolvePersonImage.
  destruct (truthy (Person.headshot (h !!! l))); [reflexivity|].
  unfold generateHeadshot, call, Math_random, act. cbn [bind run].
  destruct_answers; reflexivity.
Qed.

Lemma resolvePersonImage_delays l h tr :
  Forall
    (fun ms =>
       exists tr',
         ms = random_integer (random env tr')
                (Number_of_Z 1500) (Number_of_Z 2500))
    (omap delay_of (snd (run env (resolvePersonImage this l h) tr))).
Proof.
  unfold resolvePersonImage.
  destruct (truthy (Person.headshot (h !!! l))); [constructor|].
  unfold generateHeadshot, call, Math_random, act. cbn [bind run].
  destruct_answers; cbn [snd omap list_omap delay_of];
    repeat constructor; eexists; reflexivity.
Qed.

(** A turn that returns, for a record without a headshot. *)
Lemma resolvePersonImage_returns l h tr h1 evs :
  truthy (Person.headshot (h !!! l)) = false ->
  run env (resolvePersonImage this l h) tr = (inl h1, evs) ->
  exists headshot,
    h1 = (if truthy headshot
          then <[l := Person.set_headshot (h !!! l) headshot]> h else h)
    /\ omap stored_url evs
       = match headshot with Some (c :: url) => [c :: url] | _ => [] end
    /\ omap image_query evs = [headshot_prompt (Person.name (h !!! l))]
    /\ omap patch_of evs = [(Person._id (h1 !!! l), h1 !!! l)]
    /\ length (omap delay_of evs) = 1.
Proof.
  intros Hl. unfold resolvePersonImage. rewrite Hl.
  unfold generateHeadshot, call, Math_random, act. cbn [bind run].
  destruct (answer env tr _) as [[[|c url]|]|e]; cbn [bind run];
    try discriminate.
  - destruct (answer env _ _) as [[]|e]; cbn [bind run]; try discriminate.
    intros [= <- <-]. exists None. repeat split.
  - destruct (answer env _ _) as [headshot|e]; cbn [bind run];
      try discriminate.
    destruct (answer env _ _) as [[]|e]; cbn [bind run]; try discriminate.
    intros [= <- <-]. exists headshot.
    destruct headshot as [[|c' url']|]; repeat split.
  - destruct (answer env _ _) as [[]|e]; cbn [bind run]; try discriminate.
    intros [= <- <-]. exists None. repeat split.
Qed.

(** A turn returns when the adapters answer. *)
Lemma resolvePersonImage_total l h tr :
  answers_images env ->
  exists h1 evs, run env (resolvePersonImage this l h) tr = (inl h1, evs).
Proof.
  intros (Himage & Hupload & Hpatch). unfold resolvePersonImage.
  destruct (truthy (Person.headshot (h !!! l))); [eexists _, _; reflexivity|].
  unfold generateHeadshot, call, Math_random, act. cbn [bind run].
  match goal with
  | |- context [answer env tr ?c] =>
      match c with
      | ImageService_getPicture ?s ?n ?o ?q ?r =>
          destruct (Himage tr s n o q r) as [url ->]
      end
  end.
  destruct url as [[|c url]|]; cbn [bind run].
  - rewrite Hpatch. eexists _, _; reflexivity.
  - match goal with
    | |- context [answer env ?tr' (uploadImageStorageFromUrl ?u)] =>
        destruct (Hupload tr' u) as [headshot ->]
    end.
    cbn [bind run]. rewrite Hpatch. eexists _, _; reflexivity.
  - rewrite Hpatch. eexists _, _; reflexivity.
Qed.

Lemma turn_changes_one_record l (h : heap) headshot l0 :
  l0 <> l ->
  (if truthy headshot
   then <[l := Person.set_headshot (h !!! l) headshot]> h else h) !!! l0
  = h !!! l0.
Proof.
  intros Hne. destruct (truthy headshot); [|reflexivity].
  apply list_lookup_total_insert_ne. congruence.
Qed.

Lemma only_headshots_set_refl personsData evs (h : heap) :
  only_headshots_set personsData evs h h.
Proof. split; [reflexivity|]. intros l. left. reflexivity. Qed.

Lemma only_headshots_set_trans pd1 pd2 evs1 evs2 (h h1 h2 : heap) :
  only_headshots_set pd1 evs1 h h1 -> only_headshots_set pd2 evs2 h1 h2 ->
  only_headshots_set (pd1 ++ pd2) (evs1 ++ evs2) h h2.
Proof.
  intros [Hlen1 H1] [Hlen2 H2]. split; [congruence|]. intros l.
  destruct (H2 l) as [Hsame2|(Hin2 & Hlacks2 & url2 & Ht2 & Hurl2 & Hset2)];
    destruct (H1 l) as [Hsame1|(Hin1 & Hlacks1 & url1 & Ht1 & Hurl1 & Hset1)].
  - left. congruence.
  - right. split; [apply in_or_app; left; exact Hin1|].
    split; [exact Hlacks1|]. exists url1. split; [exact Ht1|].
    split; [rewrite omap_app; apply in_or_app; left; exact Hurl1|].
    congruence.
  - right. split; [apply in_or_app; right; exact Hin2|].
    split; [unfold lacks_headshot in *; rewrite <- Hsame1; exact Hlacks2|].
    exists url2. split; [exact Ht2|].
    split; [rewrite omap_app; apply in_or_app; right; exact Hurl2|].
    rewrite Hset2, Hsame1. reflexivity.
  - exfalso. unfold lacks_headshot in Hlacks2. rewrite Hset1 in Hlacks2.
    destruct url1 as [|c url1]; [discriminate Ht1|discriminate Hlacks2].
Qed.

Lemma resolvePersonImage_only_headshots_set l (h : heap) tr h1 evs :
  run env (resolvePersonImage this l h) tr = (inl h1, evs) ->
  only_headshots_set [l] evs h h1.
Proof.
  destruct (truthy (Person.headshot (h !!! l))) eqn:Hl.
  - rewrite (resolvePersonImage_skips _ _ _ Hl). cbn [run].
    intros [= <- <-]. apply only_headshots_set_refl.
  - intros Hrun.
    destruct (resolvePersonImage_returns l h tr h1 evs Hl Hrun)
      as (headshot & -> & Hstored & _).
    destruct headshot as [[|c url]|]; cbn [truthy];
      try apply only_headshots_set_refl.
    split; [apply length_insert|]. intros l0.
    destruct (decide (l0 = l)) as [->|Hne];
      [|left; apply list_lookup_total_insert_ne; congruence].
    destruct (decide (l < length h)) as [Hlt|Hge];
      [|left; rewrite list_insert_ge by lia; reflexivity].
    right. split; [left; reflexivity|].
    split; [unfold lacks_headshot; rewrite Hl; reflexivity|].
    exists (c :: url). split; [reflexivity|].
    split; [rewrite Hstored; left; reflexivity|].
    apply list_lookup_total_insert_eq. exact Hlt.
Qed.

Lemma resolvePersonImages_only_headshots_set personsData :
  forall (h : heap) tr h' evs,
    run env (resolvePersonImages this personsData h) tr = (inl h', evs) ->
    only_headshots_set personsData evs h h'.
Proof.
  induction personsData as [|l rest IH]; intros h tr h' evs.
  - cbn [resolvePersonImages run]. intros [= <- <-].
    apply only_headshots_set_refl.
  - rewrite run_resolvePersonImages_cons.
    destruct (run env (resolvePersonImage this l h) tr)
      as [[h1|e] evs1] eqn:Hturn; cbn [and_then]; [|discriminate].
    destruct (run env (resolvePersonImages this rest h1) (tr ++ evs1))
      as [o evs2] eqn:Hrest.
    intros [= -> <-].
    apply (only_headshots_set_trans [l] rest evs1 evs2 h h1 h').
    + apply (resolvePersonImage_only_headshots_set l h tr), Hturn.
    + apply (IH h1 (tr ++ evs1)), Hrest.
Qed.

(** The loop over distinct records, when the adapters answer. *)
Lemma resolvePersonImages_once_each personsData :
  answers_images env -> NoDup personsData ->
  forall (h : heap) tr,
    exists (h' : heap) evs,
      run env (resolvePersonImages this personsData h) tr = (inl h', evs)
      /\ omap image_query evs
         = map (fun l => headshot_prompt (Person.name (h !!! l)))
             (List.filter (lacks_headshot h) personsData)
      /\ omap patch_of evs
         = map (fun l => (Person._id (h' !!! l), h' !!! l))
             (List.filter (lacks_headshot h) personsData)
      /\ length (omap delay_of evs)
         = length (List.filter (lacks_headshot h) personsData)
      /\ (forall l, ~ In l personsData -> h' !!! l = h !!! l).
Proof.
  intros Hanswers. induction personsData as [|l rest IH]; intros Hnodup h tr.
  - exists h, []. repeat split.
  - apply NoDup_cons in Hnodup as [Hl Hrest].
    rewrite list_elem_of_In in Hl.
    rewrite run_resolvePersonImages_cons. cbn [List.filter].
    destruct (truthy (Person.headshot (h !!! l))) eqn:Hhead.
    + rewrite (resolvePersonImage_skips _ _ _ Hhead). cbn [run].
      rewrite and_then_returned. cbn [app].
      replace (lacks_headshot h l) with false
        by (unfold lacks_headshot; rewrite Hhead; reflexivity).
      destruct (IH Hrest h (tr ++ []))
        as (h' & evs & Hrun & Hq & Hp & Hd & Hout).
      exists h', evs. rewrite Hrun. cbn [fst snd].
      split; [reflexivity|]. split; [exact Hq|]. split; [exact Hp|].
      split; [exact Hd|]. intros l0 Hl0. apply Hout. intros Hin.
      apply Hl0. right. exact Hin.
    + replace (lacks_headshot h l) with true
        by (unfold lacks_headshot; rewrite Hhead; reflexivity).
      destruct (resolvePersonImage_total l h tr Hanswers)
        as (h1 & evs1 & Hturn).
      destruct (resolvePersonImage_returns l h tr h1 evs1 Hhead Hturn)
        as (headshot & Hh1 & _ & Hq1 & Hp1 & Hd1).
      assert (Hother : forall l0, l0 <> l -> h1 !!! l0 = h !!! l0)
        by (intros l0 Hne; rewrite Hh1; apply turn_changes_one_record, Hne).
      assert (Hfilter : List.filter (lacks_headshot h1) rest
                        = List.filter (lacks_headshot h) rest).
      { apply List.filter_ext_in. intros l0 Hl0. unfold lacks_headshot.
        rewrite Hother by (intros ->; exact (Hl Hl0)). reflexivity. }
      rewrite Hturn, and_then_returned.
      destruct (IH Hrest h1 (tr ++ evs1))
        as (h' & evs & Hrun & Hq & Hp & Hd & Hout).
      exists h', (evs1 ++ evs). rewrite Hrun. cbn [fst snd].
      rewrite !omap_app, Hq1, Hp1, Hq, Hp, Hfilter.
      rewrite length_app, Hd1, Hd, Hfilter.
      split; [reflexivity|]. split.
      { cbn [app map]. f_equal. apply map_ext_in. intros l0 Hl0.
        apply List.filter_In in Hl0 as [Hl0 _].
        rewrite Hother by (intros ->; exact (Hl Hl0)). reflexivity. }
      split; [cbn [app map]; rewrite (Hout l Hl); reflexivity|].
      split; [reflexivity|].
      intros l0 Hl0. rewrite Hout by (intros Hin; apply Hl0; right; exact Hin).
      apply Hother. intros ->. apply Hl0. left. reflexivity.
Qed.

(** ** Uploads *)

(** X8. What [resolvePersonImages] stores is what was generated: its upload
    calls are made for the non-empty URLs its image requests were answered
    with, one upload for each and in their order, whatever the environment
    answers and wherever the run ends. *)
Theorem resolvePersonImages_uploads_what_was_generated
  personsData (h : heap) tr :
  omap uploaded_url (snd (run env (resolvePersonImages this personsData h) tr))
  = omap generated_url
      (snd (run env (resolvePersonImages this personsData h) tr)).
Proof.
  apply (resolvePersonImages_events
           (fun evs => omap uploaded_url evs = omap generated_url evs)).
  - reflexivity.
  - intros a b Ha Hb. rewrite !omap_app, Ha, Hb. reflexivity.
  - apply resolvePersonImage_uploads.
Qed.

(** ** Delays *)

(** X9. Every delay of [resolvePersonImages] lasts a whole number of
    milliseconds between 1500 and 2500, both included, when the random
    numbers are at least 0 and below 1. *)
Theorem resolvePersonImages_delays_within personsData (h : heap) tr :
  draws_below_one env ->
  Forall
    (fun ms => exists k : Z, ms = Number_of_Z k /\ (1500 <= k <= 2500)%Z)
    (omap delay_of (snd (run env (resolvePersonImages this personsData h) tr))).
Proof.
  intros Hdraws.
  apply (resolvePersonImages_events
           (fun evs =>
              Forall
                (fun ms =>
                   exists k : Z,
                     ms = Number_of_Z k /\ (1500 <= k <= 2500)%Z)
                (omap delay_of evs))).
  - constructor.
  - intros a b Ha Hb. rewrite omap_app. apply Forall_app. split; assumption.
  - intros l h0 tr0. eapply Forall_impl; [apply resolvePersonImage_delays|].
    intros ms [tr' ->]. cbv beta.
    assert (Hwithin : exists k : Z,
              random_integer (random env tr')
                (Number_of_Z 1500) (Number_of_Z 2500) = Number_of_Z k
              /\ (1500 <= k <= 2500)%Z)
      by (apply random_integer_within;
          [reflexivity|reflexivity|reflexivity|reflexivity|apply Hdraws]).
    exact Hwithin.
Qed.

(** ** The store after the loop *)

(** X10. [resolvePersonImages] changes nothing in the store but headshots:
    when it returns, the store has the records it had, and each record is
    what it was or is a record of the list that had no headshot and has got
    one, a non-empty string that an upload call of the run was answered
    with. *)
Theorem resolvePersonImages_sets_only_headshots
  personsData (h : heap) tr (h' : heap) evs :
  run env (resolvePersonImages this personsData h) tr = (inl h', evs) ->
  length h' = length h
  /\ forall l : loc,
       h' !!! l = h !!! l
       \/ (In l personsData /\ lacks_headshot h l = true
           /\ exists url,
                truthy (Some url) = true /\ In url (omap stored_url evs)
                /\ h' !!! l = Person.set_headshot (h !!! l) (Some url)).
Proof. apply resolvePersonImages_only_headshots_set. Qed.

(** ** One request, one patch and one delay for each record *)

(** X11. Over distinct records, when the image, storage and patch adapters
    answer every call, [resolvePersonImages] returns, and it has made, in
    the order of the list and for exactly the records that had no headshot:
    one image request for the record's name, one patch sent to the record's
    identifier with the record as it is afterwards, and one delay. *)
Theorem resolvePersonImages_processes_each_record_once
  personsData (h : heap) tr :
  answers_images env -> NoDup personsData ->
  exists (h' : heap) evs,
    run env (resolvePersonImages this personsData h) tr = (inl h', evs)
    /\ omap image_query evs
       = map (fun l => headshot_prompt (Person.name (h !!! l)))
           (List.filter (lacks_headshot h) personsData)
    /\ omap patch_of evs
       = map (fun l => (Person._id (h' !!! l), h' !!! l))
           (List.filter (lacks_headshot h) personsData)
    /\ length (omap delay_of evs)
       = length (List.filter (lacks_headshot h) personsData).
Proof.
  intros Hanswers Hnodup.
  destruct (resolvePersonImages_once_each personsData Hanswers Hnodup h tr)
    as (h' & evs & Hrun & Hq & Hp & Hd & _).
  exists h', evs. repeat split; assumption.
Qed.

End MoreImages.

(* ===================================================================== *)
(** * The image requests *)
(* ===================================================================== *)

Section ImageRequests.
Context `{Platform}.
Variable this : VirtualPersons.
Variable env : Env.

(** The image requests of one turn: the request for the name of the record
    of the turn when it has no headshot, however the turn ends, and none
    when it has one. *)
Lemma resolvePersonImage_image_requests l (h : heap) tr :
  omap image_request (snd (run env (resolvePersonImage this l h) tr))
  = if lacks_headshot h l
    then [headshot_request this (Person.name (h !!! l))]
    else [].
Proof.
  unfold lacks_headshot.
  destruct (truthy (Person.headshot (h !!! l))) eqn:Hl; cbn [negb].
  - rewrite (resolvePersonImage_skips _ _ _ Hl). reflexivity.
  - apply (resolvePersonImage_requests this env l h tr Hl).
Qed.

(** The image requests of the loop, when the store has evolved from [h0]:
    the requests for some of the records that had no headshot in [h0], each
    under the name of its record, in the order of the list. *)
Lemma resolvePersonImages_image_requests_from h0 personsData :
  forall h tr,
    evolves h0 h ->
    exists requested,
      sublist requested (List.filter (lacks_headshot h0) personsData)
      /\ omap image_request
           (snd (run env (resolvePersonImages this personsData h) tr))
         = map (fun l => headshot_request this (Person.name (h0 !!! l)))
             requested.
Proof.
  induction personsData as [|l rest IH]; intros h tr Hev.
  - exists []. split; [constructor|reflexivity].
  - rewrite run_resolvePersonImages_cons.
    pose proof (resolvePersonImage_image_requests l h tr) as Hq.
    unfold lacks_headshot in Hq.
    destruct (truthy (Person.headshot (h !!! l))) eqn:Hl; cbn [negb] in Hq.
    + rewrite (resolvePersonImage_skips _ _ _ Hl). cbn [run].
      rewrite and_then_returned. cbn [snd app].
      destruct (IH h (tr ++ []) Hev) as (requested & Hsub & Hreq).
      exists requested. split; [|exact Hreq].
      cbn [List.filter]. destruct (lacks_headshot h0 l); [|exact Hsub].
      apply sublist_cons, Hsub.
    + cbn [List.filter]. rewrite (lacks_headshot_evolves _ _ _ Hev Hl).
      pose proof (resolvePersonImage_evolves this env l h tr) as Hkeep.
      destruct (Hev l) as [Hname _]. rewrite Hname in Hq.
      destruct (run env (resolvePersonImage this l h) tr)
        as [[h1|e] evs] eqn:Hturn; cbn [fst snd] in Hq, Hkeep.
      * rewrite and_then_returned. cbn [snd].
        assert (Hev1 : evolves h0 h1)
          by (apply evolves_trans with h; [exact Hev|apply Hkeep; reflexivity]).
        destruct (IH h1 (tr ++ evs) Hev1) as (requested & Hsub & Hreq).
        exists (l :: requested). split; [apply sublist_skip, Hsub|].
        rewrite omap_app, Hq, Hreq. reflexivity.
      * cbn [and_then snd]. exists [l].
        split; [apply sublist_skip, sublist_nil_l|exact Hq].
Qed.

(** The image requests of the loop over distinct records: the requests for
    the first records that had no headshot, as many as the loop had turns
    for; none is left out when the loop returns. *)
Lemma resolvePersonImages_image_requests_distinct personsData :
  NoDup personsData ->
  forall (h : heap) tr,
    exists n,
      omap image_request
        (snd (run env (resolvePersonImages this personsData h) tr))
      = map (fun l => headshot_request this (Person.name (h !!! l)))
          (take n (List.filter (lacks_headshot h) personsData))
      /\ forall h' : heap,
           fst (run env (resolvePersonImages this personsData h) tr) = inl h'
           -> length (List.filter (lacks_headshot h) personsData) <= n.
Proof.
  induction personsData as [|l rest IH]; intros Hnodup h tr.
  - exists 0. split; [reflexivity|]. intros h' _. cbn. lia.
  - apply NoDup_cons in Hnodup as [Hl Hrest].
    rewrite list_elem_of_In in Hl.
    rewrite run_resolvePersonImages_cons. cbn [List.filter].
    pose proof (resolvePersonImage_image_requests l h tr) as Hq.
    destruct (truthy (Person.headshot (h !!! l))) eqn:Hhead.
    + rewrite (resolvePersonImage_skips _ _ _ Hhead). cbn [run].
      rewrite and_then_returned. cbn [fst snd app].
      replace (lacks_headshot h l) with false
        by (unfold lacks_headshot; rewrite Hhead; reflexivity).
      apply (IH Hrest h (tr ++ [])).
    + replace (lacks_headshot h l) with true in *
        by (unfold lacks_headshot; rewrite Hhead; reflexivity).
      destruct (run env (resolvePersonImage this l h) tr)
        as [[h1|e] evs1] eqn:Hturn; cbn [snd] in Hq.
      * destruct (resolvePersonImage_returns this env l h tr h1 evs1 Hhead
                    Hturn) as (headshot & Hh1 & _).
        assert (Hother : forall l0, l0 <> l -> h1 !!! l0 = h !!! l0)
          by (intros l0 Hne; rewrite Hh1; apply turn_changes_one_record, Hne).
        assert (Hfilter : List.filter (lacks_headshot h1) rest
                          = List.filter (lacks_headshot h) rest).
        { apply List.filter_ext_in. intros l0 Hl0. unfold lacks_headshot.
          rewrite Hother by (intros ->; exact (Hl Hl0)). reflexivity. }
        rewrite and_then_returned. cbn [fst snd].
        destruct (IH Hrest h1 (tr ++ evs1)) as (n & Hn & Hall).
        exists (S n). rewrite omap_app, Hq, Hn, Hfilter. split.
        { cbn [take app map]. f_equal. apply map_ext_in. intros l0 Hl0.
          assert (Hin : In l0 (List.filter (lacks_headshot h) rest))
            by (rewrite <- (firstn_skipn n); apply in_or_app; left;
                exact Hl0).
          apply List.filter_In in Hin as [Hin _].
          rewrite Hother by (intros ->; exact (Hl Hin)). reflexivity. }
        intros h' Hrun. specialize (Hall h' Hrun). rewrite Hfilter in Hall.
        cbn [length]. lia.
      * cbn [and_then fst snd]. exists 1. split; [exact Hq|].
        intros h' Hrun. discriminate Hrun.
Qed.

(** ** C5 *)

(** C5 (amended). Every image request of [resolvePersonImages] is the one
    request [generateHeadshot] makes for the name of the record the turn is
    for: sent with the settings of the instance to the backend ['midjourney'],
    with no styles and the aspect ratio ['1:1'], its prompt "Photo headshot
    for the {name} , Aged 30-40 years old." (a space before the comma) with
    that record's name for {name}. A turn makes this request, and no other,
    when its record has no headshot, and none when it has one. The requests
    of the loop are such requests for records of the list that had no
    headshot, each under its own name, in the order of the list and at most
    one for each place; over distinct records they are the requests for the
    first of these records, and for all of them when the loop returns. *)
Theorem resolvePersonImages_image_requests_are_fixed
  personsData (h : heap) tr :
  let request personName :=
    ImageService_getPicture (settings this) (lit "midjourney")
      {| styles := []; aspectRatio := lit "1:1" |}
      (lit "Photo headshot for the " ++ personName
       ++ lit " , Aged 30-40 years old.")
      (lit "1:1") in
  let requests :=
    omap image_request
      (snd (run env (resolvePersonImages this personsData h) tr)) in
  let missing := List.filter (lacks_headshot h) personsData in
  (forall l (h1 : heap) tr1,
      omap image_request (snd (run env (resolvePersonImage this l h1) tr1))
      = if truthy (Person.headshot (h1 !!! l)) then []
        else [request (Person.name (h1 !!! l))])
  /\ (exists requested,
        sublist requested missing
        /\ requests = map (fun l => request (Person.name (h !!! l))) requested)
  /\ (NoDup personsData ->
      (exists n,
         requests
         = map (fun l => request (Person.name (h !!! l))) (take n missing))
      /\ (forall h' : heap,
            fst (run env (resolvePersonImages this personsData h) tr) = inl h'
            -> requests
               = map (fun l => request (Person.name (h !!! l))) missing)).
Proof.
  intros request requests missing. split; [|split].
  - intros l h1 tr1. rewrite resolvePersonImage_image_requests.
    unfold lacks_headshot. destruct (truthy (Person.headshot (h1 !!! l)));
      reflexivity.
  - apply resolvePersonImages_image_requests_from, evolves_refl.
  - intros Hnodup.
    destruct (resolvePersonImages_image_requests_distinct personsData Hnodup
                h tr) as (n & Hn & Hall).
    split; [exists n; exact Hn|].
    intros h' Hrun. specialize (Hall h' Hrun). subst requests missing.
    rewrite Hn, take_ge by exact Hall. reflexivity.
Qed.

End ImageRequests.

(* ===================================================================== *)
(** * More on persisting *)
(* ===================================================================== *)

Section MoreSave.
Context `{Platform}.
Variable this : VirtualPersons.
Variable env : Env.

Lemma In_filter_lacks_id_valid (h : heap) personsData l ls ls' :
  (forall l, In l personsData -> l < length h) ->
  List.filter (lacks_id h) personsData = ls ++ ls' ->
  In l (ls ++ ls') -> l < length h.
Proof.
  intros Hvalid Hfilter Hl. apply Hvalid. rewrite <- Hfilter in Hl.
  apply List.filter_In in Hl. apply Hl.
Qed.

(** What the loop of [savePersonsData] has done when it fails. *)
Lemma savePersonsData_from_fails personsData :
  forall acc (h : heap) tr e evs,
    (forall l, In l personsData -> l < length h) ->
    run env (savePersonsData_from this personsData acc h) tr = (inr e, evs) ->
    exists before failed rest answered,
      List.filter (lacks_id h) personsData = before ++ failed :: rest
      /\ length answered = length before
      /\ evs
         = map (fun created =>
                  create_event this h (fst created) (inl (snd created)))
             (combine before answered)
           ++ [create_event this h failed (inr e)].
Proof.
  induction personsData as [|l rest IH]; intros acc h tr e evs Hvalid Hrun.
  - discriminate Hrun.
  - cbn [savePersonsData_from] in Hrun. cbn [List.filter].
    assert (Hrest : forall l', In l' rest -> l' < length h)
      by (intros l' Hl'; apply Hvalid; right; exact Hl').
    destruct (truthy (Person._id (h !!! l))) eqn:Hid.
    + replace (lacks_id h l) with false
        by (unfold lacks_id; rewrite Hid; reflexivity).
      apply (IH _ _ _ _ _ Hrest Hrun).
    + replace (lacks_id h l) with true
        by (unfold lacks_id; rewrite Hid; reflexivity).
      unfold call in Hrun. cbn [bind run] in Hrun.
      destruct (answer env tr _) as [saved|e0] eqn:Hanswer.
      * unfold alloc in Hrun.
        destruct (run env (savePersonsData_from this rest _ _) _)
          as [o evs1] eqn:Hrun1.
        injection Hrun as -> <-.
        assert (Hrest1 : forall l', In l' rest -> l' < length (h ++ [saved]))
          by (intros l' Hl'; rewrite length_app;
              specialize (Hrest l' Hl'); lia).
        destruct (IH _ _ _ _ _ Hrest1 Hrun1)
          as (before & failed & after & answered & Hfilter & Hlen & ->).
        rewrite filter_lacks_id_app in Hfilter by exact Hrest.
        exists (l :: before), failed, after, (saved :: answered).
        split; [rewrite Hfilter; reflexivity|]. split; [cbn; lia|].
        cbn [combine map app fst snd]. unfold create_event at 3. f_equal.
        f_equal.
        -- apply map_ext_in. intros [l' saved'] Hin. cbn [fst snd].
           apply in_combine_l in Hin. unfold create_event.
           rewrite lookup_total_app_l; [reflexivity|].
           apply (In_filter_lacks_id_valid h rest l' before (failed :: after)
                    Hrest Hfilter).
           apply in_or_app. left. exact Hin.
        -- unfold create_event. rewrite lookup_total_app_l; [reflexivity|].
           apply (In_filter_lacks_id_valid h rest failed before
                    (failed :: after) Hrest Hfilter).
           apply in_or_app. right. left. reflexivity.
      * injection Hrun as <- <-.
        exists [], l, (List.filter (lacks_id h) rest), [].
        split; [reflexivity|]. split; reflexivity.
Qed.

(** Records that carry an identifier are passed on without a call. *)
Lemma savePersonsData_from_passes personsData :
  forall acc (h : heap) tr,
    Forall (fun l => truthy (Person._id (h !!! l)) = true) personsData ->
    run env (savePersonsData_from this personsData acc h) tr
    = (inl (acc ++ personsData, h), []).
Proof.
  induction personsData as [|l rest IH]; intros acc h tr Hall.
  - rewrite app_nil_r. reflexivity.
  - apply Forall_cons in Hall as [Hl Hall].
    cbn [savePersonsData_from]. rewrite Hl, (IH _ _ _ Hall), <- app_assoc.
    reflexivity.
Qed.

(** ** A failing create *)

(** X12. [savePersonsData] undoes nothing: when a create call is rejected,
    the function ends with that exception, the records without identifier
    that come before the failing one have each been created, in order, and
    the records after it have got no call. *)
Theorem savePersonsData_keeps_earlier_creates personsData (h : heap) tr e evs :
  (forall l, In l personsData -> l < length h) ->
  run env (savePersonsData this personsData h) tr = (inr e, evs) ->
  exists before failed rest answered,
    List.filter (lacks_id h) personsData = before ++ failed :: rest
    /\ length answered = length before
    /\ evs
       = map (fun created =>
                Called
                  (VirtualPersonsService_create
                     (create_payload this (h !!! fst created)))
                  (inl (snd created)))
           (combine before answered)
         ++ [Called
               (VirtualPersonsService_create
                  (create_payload this (h !!! failed)))
               (inr e)].
Proof. apply savePersonsData_from_fails. Qed.

(** ** Saving again *)

(** X13. The list [savePersonsData] returns is saved: when the service gave
    an identifier to every record it created, saving the returned list makes
    no call and returns the list as it is. *)
Theorem savePersonsData_returned_list_is_saved
  personsData (h : heap) tr created (h' : heap) evs tr' :
  (forall l, In l personsData -> l < length h) ->
  run env (savePersonsData this personsData h) tr = (inl (created, h'), evs) ->
  Forall (fun e => answered_with_id e = true) evs ->
  run env (savePersonsData this created h') tr' = (inl (created, h'), []).
Proof.
  intros Hvalid Hrun Hids. rewrite List.Forall_forall in Hids.
  destruct (savePersonsData_from_returns _ _ _ _ _ _ _ _ _ Hvalid Hrun)
    as (new & added & -> & -> & Hlen & _ & _ & Hpass & Hnew).
  cbn [app]. apply (savePersonsData_from_passes new [] (h ++ added) tr').
  apply Forall_lookup. intros i l' Hi.
  assert (Hsome : is_Some (personsData !! i)).
  { apply lookup_lt_is_Some. rewrite <- Hlen.
    apply lookup_lt_is_Some. exists l'. exact Hi. }
  destruct Hsome as [l Hl].
  assert (Hlive : l < length h).
  { apply Hvalid, list_elem_of_In. eapply list_elem_of_lookup_2, Hl. }
  destruct (truthy (Person._id (h !!! l))) eqn:Hid.
  - rewrite (Hpass i l Hl Hid) in Hi. injection Hi as <-.
    rewrite lookup_total_app_l by exact Hlive. exact Hid.
  - destruct (Hnew i l Hl Hid) as (l0 & saved & Hi0 & _ & Hsaved & Hin).
    rewrite Hi0 in Hi. injection Hi as <-. rewrite Hsaved.
    apply (Hids _ Hin).
Qed.

(** X14. [savePersonsData] writes no identifier back into the records it was
    given: saving the same list again, after a first call that returned,
    makes the same create calls again, with the same payloads. *)
Theorem savePersonsData_repeats_creates_on_its_input
  personsData (h : heap) tr created (h' : heap) evs
  tr' created' (h'' : heap) evs' :
  (forall l, In l personsData -> l < length h) ->
  run env (savePersonsData this personsData h) tr = (inl (created, h'), evs) ->
  run env (savePersonsData this personsData h') tr'
  = (inl (created', h''), evs') ->
  omap created_payload evs' = omap created_payload evs
  /\ omap created_payload evs
     = map (fun l => create_payload this (h !!! l))
         (List.filter (lacks_id h) personsData).
Proof.
  intros Hvalid Hrun Hrun'.
  destruct (savePersonsData_from_returns _ _ _ _ _ _ _ _ _ Hvalid Hrun)
    as (new & added & _ & -> & _ & _ & Hpay & _).
  assert (Hvalid' : forall l, In l personsData -> l < length (h ++ added))
    by (intros l Hl; rewrite length_app; specialize (Hvalid l Hl); lia).
  destruct (savePersonsData_from_returns _ _ _ _ _ _ _ _ _ Hvalid' Hrun')
    as (new' & added' & _ & _ & _ & _ & Hpay' & _).
  split; [|exact Hpay].
  rewrite Hpay', Hpay, filter_lacks_id_app by exact Hvalid.
  apply map_ext_in. intros l Hl. apply List.filter_In in Hl as [Hl _].
  rewrite lookup_total_app_l by (apply Hvalid, Hl). reflexivity.
Qed.

End MoreSave.

(* ===================================================================== *)
(** * More on the pipeline *)
(* ===================================================================== *)

Section MoreResolve.
Context `{Platform}.
Variable this : VirtualPersons.
Variable env : Env.

(** ** Records that are resolved already *)

(** X15. [resolvePersonsData] passes on the records that carry a biography
    and a status: for a list of such records it returns the same records in
    the same order, asks the text adapter nothing and leaves the store as it
    is. *)
Theorem resolvePersonsData_passes_resolved_records
  (records : list loc) (h : heap) tr :
  Forall
    (fun l =>
       truthy (Person.biography (h !!! l)) = true
       /\ truthy (Person.status (h !!! l)) = true)
    records ->
  run env (resolvePersonsData this (map CObject records) h) tr
  = (inl (records, h), []).
Proof.
  intros Hall.
  apply (resolvePersonsData_from_passes this env (map CObject records) [] h tr).
  induction Hall as [|l rest [Hbio Hstatus] _ IH]; [constructor|].
  cbn [map]. constructor; [|exact IH].
  cbn [carries_biography_and_status]. rewrite Hbio, Hstatus. reflexivity.
Qed.

End MoreResolve.

Section MoreInit.
Context `{Platform}.
Variable this : VirtualPersons.
Variable env : Env.

(** What [init] does after [getVirtualPersons]: nothing when no name is
    left, and otherwise one biography request, for the first name, which
    ends the run. *)
Lemma run_init min max (h : heap) tr :
  run env (init this min max h) tr
  = and_then (run env (getVirtualPersons this min max) tr)
      (fun virtualPersons evs =>
         match virtualPersons with
         | [] => (inl h, [])
         | person :: _ =>
             let request := biography_request this (CName person) in
             match answer env (tr ++ evs) request with
             | inl personData =>
                 (inr (TypeError "personData.push is not a function"),
                  [Called request (inl personData)])
             | inr e => (inr e, [Called request (inr e)])
             end
         end).
Proof.
  unfold init. rewrite run_bind. apply and_then_ext.
  intros virtualPersons evs _. cbn [truthy_array negb].
  destruct virtualPersons as [|person rest]; [reflexivity|].
  rewrite run_bind. unfold resolvePersonsData.
  cbn [map resolvePersonsData_from].
  cbn [carries_biography_and_status]. unfold call, PersonData_push.
  cbn [bind run]. unfold biography_request.
  destruct (answer env (tr ++ evs) _) as [personData|e]; reflexivity.
Qed.

Lemma getVirtualPersons_writes_nothing min max tr :
  Forall (fun e => writes_or_generates e = false)
    (snd (run env (getVirtualPersons this min max) tr)).
Proof.
  unfold getVirtualPersons, getRandomVirtualPersons, filterExistingPersons,
    call, Math_random, act.
  cbn [bind run].
  destruct (answer env _ _) as [response|e]; cbn [bind run snd];
    [|repeat constructor].
  destruct (answer env _ _) as [existingPersons|e]; cbn [bind run snd];
    [|repeat constructor].
  match goal with
  | |- context [Number_ltb ?a ?b] => destruct (Number_ltb a b)
  end; cbn [bind run snd]; repeat constructor.
Qed.

(** ** Names that remain *)

(** X16. As soon as one name remains after deduplication, [init] fails: it
    makes one biography request, for the first of the names, and ends with
    an exception, the one the request was rejected with or else the
    [TypeError] of [personData.push]. No later stage is reached. *)
Theorem init_fails_when_a_name_remains
  min max (h : heap) tr person rest evs :
  run env (getVirtualPersons this min max) tr = (inl (person :: rest), evs) ->
  exists e answered,
    run env (init this min max h) tr
    = (inr e,
       evs ++ [Called
                 (createChatCompletionJson (Some 1000%Z)
                    (getPersonDataPrompt this (CName person))
                    personDataJsonFormat)
                 answered])
    /\ (answered = inr e
        \/ (exists personData, answered = inl personData)
           /\ e = TypeError "personData.push is not a function").
Proof.
  intros Hnames. rewrite run_init, Hnames. cbn [and_then].
  unfold biography_request.
  destruct (answer env (tr ++ evs) _) as [personData|e].
  - eexists _, (inl personData). split; [reflexivity|]. right.
    split; [exists personData|]; reflexivity.
  - exists e, (inr e). split; [reflexivity|]. left. reflexivity.
Qed.

(** ** What the pipeline never does *)

(** X17. As the class is written, [init] never writes: whatever the adapters
    answer and however it ends, it makes no create call, no patch call, no
    image request and no upload, and when it returns the store is what it
    was. *)
Theorem init_never_writes min max (h : heap) tr :
  Forall (fun e => writes_or_generates e = false)
    (snd (run env (init this min max h) tr))
  /\ forall h' : heap,
       fst (run env (init this min max h) tr) = inl h' -> h' = h.
Proof.
  rewrite run_init.
  pose proof (getVirtualPersons_writes_nothing min max tr) as Hfirst.
  destruct (run env (getVirtualPersons this min max) tr)
    as [[[|person rest]|e] evs]; cbn [and_then snd fst] in *.
  - rewrite app_nil_r. split; [exact Hfirst|]. intros h' [= <-]. reflexivity.
  - unfold biography_request.
    destruct (answer env (tr ++ evs) _) as [personData|e];
      (split; [|discriminate]);
      apply Forall_app; (split; [exact Hfirst|repeat constructor]).
  - split; [exact Hfirst|discriminate].
Qed.

End MoreInit.

(* ===================================================================== *)
(** * More on the random count *)
(* ===================================================================== *)

Local Open Scope Z_scope.

(** A number that is an integer of no more than 53 bits is zero or finite,
    and subtracting it from itself gives zero. *)
Lemma Number_sub_diag a x :
  within a a x -> Number_sub x x = S754_zero false.
Proof.
  destruct x as [[|]| | |s m e]; cbn [within]; try contradiction.
  - intros _. reflexivity.
  - intros _. unfold Number_sub, SFsub. rewrite Z.sub_diag. reflexivity.
Qed.

Lemma Number_mul_zero r :
  is_random_draw r = true -> Number_mul r (S754_zero false) = S754_zero false.
Proof.
  destruct r as [[|]| | |[|] m e]; cbn [is_random_draw negb andb];
    try discriminate; intros _; reflexivity.
Qed.

Lemma Number_add_zero a x :
  within a a x -> Number_add (S754_zero false) x = x.
Proof.
  destruct x as [[|]| | |s m e]; cbn [within]; try contradiction;
    intros _; reflexivity.
Qed.

Lemma random_integer_diag n r :
  - 2 ^ 53 < n < 2 ^ 53 -> is_random_draw r = true ->
  random_integer r (Number_of_Z n) (Number_of_Z n) = Number_of_Z n.
Proof.
  intros Hn Hr. pose proof (Number_of_Z_within n Hn) as Hwithin.
  unfold random_integer.
  rewrite (Number_sub_diag n _ Hwithin), (Number_mul_zero r Hr),
    (Number_add_zero n _ Hwithin).
  destruct (Math_floor_within n n _ Hwithin) as (k & -> & Hk).
  f_equal. lia.
Qed.

(** X18. When [min] and [max] are the same integer, the count is that
    integer: [getRandomVirtualPersons(n, n)] asks for [n] names, whatever
    number is drawn. *)
Theorem getRandomVirtualPersons_count_of_equal_bounds `{Platform}
  (this : VirtualPersons) (env : Env) (n : Z) tr :
  - 2 ^ 53 < n < 2 ^ 53 ->
  is_random_draw (random env tr) = true ->
  random_integer (random env tr) (Number_of_Z n) (Number_of_Z n)
  = Number_of_Z n
  /\ exists answered,
       snd (run env
              (getRandomVirtualPersons this (Number_of_Z n) (Number_of_Z n))
              tr)
       = [Drew (random env tr);
          Called (createChatCompletionJson None
                    (names_prompt this (Number_of_Z n))
                    personsListJsonFormat) answered].
Proof.
  intros Hn Hr. pose proof (random_integer_diag n _ Hn Hr) as Hcount.
  split; [exact Hcount|].
  unfold getRandomVirtualPersons, call, Math_random. cbn [bind run].
  rewrite Hcount. fold (names_prompt this (Number_of_Z n)).
  destruct (answer env _ _) as [response|e]; eexists; reflexivity.
Qed.

Local Close Scope Z_scope.

(* ===================================================================== *)
(** * The count when the bounds are swapped *)
(* ===================================================================== *)

Local Open Scope Z_scope.

(** [max - min] is exact, also when it is negative. *)
Lemma Number_sub_within_negative a b x y :
  b < a -> - 2 ^ 53 < b - a ->
  within a a x -> within b b y ->
  within (b - a) (b - a) (Number_sub y x).
Proof.
  intros Hba Hdiff Hx Hy. unfold Number_sub.
  destruct y as [[|]|[|]| |sy my ey]; cbn [within] in Hy; try tauto;
    destruct x as [[|]|[|]| |sx mx ex]; cbn [within] in Hx; try tauto.
  - lia.
  - assert (b = 0) by lia. subst b.
    destruct (within_sign a a sx mx ex Hx) as [Hpos _].
    rewrite (Hpos ltac:(lia)) in *. cbn [SFsub negb within cond_Zopp] in *.
    lia.
  - cbn [SFsub within]. replace (b - a) with b by lia. exact Hy.
  - destruct Hx as [Hex Hmx], Hy as [Hey Hmy]. cbn [SFsub].
    apply binary_normalize_within; [lia|lia|lia|].
    pose proof (aligned_bounds a a sx mx ex (Z.min ey ex)
                  ltac:(lia) ltac:(lia) Hmx).
    pose proof (aligned_bounds b b sy my ey (Z.min ey ex)
                  ltac:(lia) ltac:(lia) Hmy).
    lia.
Qed.

(** [r * (max - min)] is the negative zero or lies between [max - min]
    and 0, when [max - min] is negative. *)
Lemma Number_mul_within_negative r D d :
  D < 0 -> - 2 ^ 53 < D ->
  is_random_draw r = true -> within D D d ->
  Number_mul r d = S754_zero true \/ within D 0 (Number_mul r d).
Proof.
  intros HD HD53 Hr Hd. unfold Number_mul.
  destruct d as [[|]|[|]| |sd md ed]; cbn [within] in Hd; try tauto; [lia|].
  destruct (within_sign D D sd md ed Hd) as [_ Hneg].
  rewrite (Hneg HD) in *. cbn [within cond_Zopp] in Hd.
  destruct Hd as [Hed Hmd].
  destruct r as [[|]|[|]| |[|] mr er]; try discriminate Hr.
  - left. reflexivity.
  - apply random_draw_below_one in Hr as [Her Hmr].
    cbn [SFmul xorb].
    assert (Hrounded : rounded true 0 (- D) (er + ed)
              (binary_round_aux 53 1024 true (Zpos (mr * md)) (er + ed)
                 loc_Exact)).
    { apply binary_round_aux_rounded; [lia|lia|lia|].
      replace (- (er + ed)) with (- er + - ed) by lia.
      rewrite pow2_split, Pos2Z.inj_mul by lia.
      assert (0 < 2 ^ (- er)) by (apply Z.pow_pos_nonneg; lia).
      assert (0 < 2 ^ (- ed)) by (apply Z.pow_pos_nonneg; lia).
      nia. }
    destruct (binary_round_aux 53 1024 true (Zpos (mr * md)) (er + ed)
                loc_Exact) as [s|s| |s m e];
      cbn [rounded] in Hrounded; try tauto.
    + destruct Hrounded as (-> & _). left. reflexivity.
    + destruct Hrounded as (-> & He & Hm). right. cbn [within cond_Zopp].
      split; [exact He|lia].
Qed.

(** [... + min] lies between [max] and [min]. *)
Lemma Number_add_within_negative a D p q :
  a < 2 ^ 53 -> D <= 0 -> - 2 ^ 53 < a + D ->
  p = S754_zero true \/ within D 0 p -> within a a q ->
  within (a + D) a (Number_add p q).
Proof.
  intros Ha HD Hsum [->|Hp] Hq; unfold Number_add.
  - destruct q as [[|]|[|]| |sq mq eq]; cbn [within] in Hq; try tauto.
    + cbn [SFadd Bool.eqb within]. lia.
    + cbn [SFadd]. apply (within_weaken a a); [lia|lia|exact Hq].
  - destruct p as [[|]|[|]| |sp mp ep]; cbn [within] in Hp; try tauto;
      destruct q as [[|]|[|]| |sq mq eq]; cbn [within] in Hq; try tauto.
    + cbn [SFadd within]. lia.
    + cbn [SFadd]. apply (within_weaken a a); [lia|lia|exact Hq].
    + cbn [SFadd]. apply (within_weaken D 0); [lia|lia|exact Hp].
    + destruct Hp as [Hep Hmp], Hq as [Heq Hmq]. cbn [SFadd].
      apply binary_normalize_within; [lia|lia|lia|].
      pose proof (aligned_bounds D 0 sp mp ep (Z.min ep eq)
                    ltac:(lia) ltac:(lia) Hmp).
      pose proof (aligned_bounds a a sq mq eq (Z.min ep eq)
                    ltac:(lia) ltac:(lia) Hmq).
      lia.
Qed.

Lemma random_integer_within_swapped min max r :
  - 2 ^ 53 < max -> max < min -> min < 2 ^ 53 -> min - max < 2 ^ 53 ->
  is_random_draw r = true ->
  exists k,
    random_integer r (Number_of_Z min) (Number_of_Z max) = Number_of_Z k
    /\ max <= k <= min.
Proof.
  intros Hmax Hlt Hmin Hdiff Hr. unfold random_integer.
  apply Math_floor_within.
  assert (Hmin' : within min min (Number_of_Z min))
    by (apply Number_of_Z_within; lia).
  assert (Hmax' : within max max (Number_of_Z max))
    by (apply Number_of_Z_within; lia).
  pose proof (Number_sub_within_negative min max _ _ Hlt ltac:(lia)
                Hmin' Hmax') as Hsub.
  pose proof (Number_mul_within_negative r (max - min) _ ltac:(lia)
                ltac:(lia) Hr Hsub) as Hmul.
  pose proof (Number_add_within_negative min (max - min) _ _ Hmin
                ltac:(lia) ltac:(lia) Hmul Hmin') as Hadd.
  replace (min + (max - min)) with max in Hadd by lia. exact Hadd.
Qed.

(** X19. When the bounds are swapped, [max < min], the count still lies
    between them: for integers that a number holds exactly, as their
    difference, and for every draw, [getRandomVirtualPersons] asks for an
    integer [k] of names with [max <= k <= min]. *)
Theorem getRandomVirtualPersons_count_within_swapped_bounds `{Platform}
  (this : VirtualPersons) (env : Env) (min max : Z) tr :
  - 2 ^ 53 < max -> max < min -> min < 2 ^ 53 -> min - max < 2 ^ 53 ->
  is_random_draw (random env tr) = true ->
  exists k,
    max <= k <= min
    /\ random_integer (random env tr) (Number_of_Z min) (Number_of_Z max)
       = Number_of_Z k
    /\ exists answered,
         snd (run env
                (getRandomVirtualPersons this (Number_of_Z min)
                   (Number_of_Z max)) tr)
         = [Drew (random env tr);
            Called (createChatCompletionJson None
                      (names_prompt this (Number_of_Z k))
                      personsListJsonFormat) answered].
Proof.
  intros Hmax Hlt Hmin Hdiff Hr.
  destruct (random_integer_within_swapped min max _ Hmax Hlt Hmin Hdiff Hr)
    as (k & Hcount & Hk).
  exists k. split; [exact Hk|]. split; [exact Hcount|].
  unfold getRandomVirtualPersons, call, Math_random. cbn [bind run].
  rewrite Hcount. fold (names_prompt this (Number_of_Z k)).
  destruct (answer env _ _) as [response|e]; eexists; reflexivity.
Qed.

Local Close Scope Z_scope.

(* ===================================================================== *)
(** * The answers the response formats admit *)
(* ===================================================================== *)

Lemma own_property_single {A} (key k : string) (x : A) :
  own_property k [(key, x)] = if String.eqb key k then Some x else None.
Proof. reflexivity. Qed.

(** What an object schema of one required property and no other admits. *)
Lemma object_of_one_property key s v :
  validates (type_object [(key, s)] [key] false) v = true ->
  parsed v = true ->
  exists x,
    v = VObject [(key, x)] /\ validates s x = true /\ parsed x = true.
Proof.
  destruct v as [| | | | | |fields]; try discriminate.
  cbn [validates parsed forallb]. rewrite !andb_true_iff.
  intros [[Hrequired _] Hfields] [Hparsed Hdistinct].
  destruct fields as [|[k x] rest]; [discriminate Hrequired|].
  cbn [forallb fst snd map distinct] in Hfields, Hparsed, Hdistinct.
  rewrite !andb_true_iff in *.
  destruct Hfields as [Hfield Hrest], Hparsed as [Hx _],
    Hdistinct as [Hfresh _].
  rewrite own_property_single in Hfield.
  destruct (String.eqb_spec key k) as [<-|]; [|discriminate].
  destruct rest as [|[k' x'] rest].
  - exists x. repeat split; assumption.
  - cbn [forallb fst] in Hrest. rewrite andb_true_iff in Hrest.
    destruct Hrest as [Hfield' _]. rewrite own_property_single in Hfield'.
    destruct (String.eqb_spec key k') as [<-|]; [|discriminate].
    cbn [map fst existsb] in Hfresh. rewrite String.eqb_refl in Hfresh.
    discriminate.
Qed.

(** What an object schema of two required properties and no other
    admits. *)
Lemma object_of_two_properties k1 k2 s1 s2 v :
  k1 <> k2 ->
  validates (type_object [(k1, s1); (k2, s2)] [k1; k2] false) v = true ->
  parsed v = true ->
  exists x1 x2,
    (v = VObject [(k1, x1); (k2, x2)] \/ v = VObject [(k2, x2); (k1, x1)])
    /\ validates s1 x1 = true /\ validates s2 x2 = true.
Proof.
  intros Hne. destruct v as [| | | | | |fields]; try discriminate.
  cbn [validates parsed forallb]. rewrite !andb_true_iff.
  intros [(Hr1 & Hr2 & _) Hfields] [_ Hdistinct].
  assert (Hkey : forall k x (rest : list (string * value)),
    match own_property (fst (k, x)) [(k1, s1); (k2, s2)] with
    | Some s' => validates s' (snd (k, x))
    | None => false
    end = true ->
    (k = k1 /\ validates s1 x = true) \/ (k = k2 /\ validates s2 x = true)).
  { intros k x _. cbn [own_property fst snd].
    destruct (String.eqb_spec k1 k) as [<-|]; [left; split; auto|].
    destruct (String.eqb_spec k2 k) as [<-|]; [right; split; auto|].
    discriminate. }
  destruct fields as [|[k x] [|[k' x'] rest]].
  - discriminate Hr1.
  - cbn [own_property] in Hr1, Hr2.
    destruct (String.eqb_spec k k1) as [->|]; [|discriminate].
    destruct (String.eqb_spec k1 k2) as [->|]; [contradiction|discriminate].
  - cbn [forallb] in Hfields. rewrite !andb_true_iff in Hfields.
    destruct Hfields as (Hf & Hf' & Hrest).
    cbn [map fst distinct existsb] in Hdistinct.
    rewrite !andb_true_iff, !negb_true_iff, !orb_false_iff in Hdistinct.
    destruct Hdistinct as [[Hkk' Hk] [Hk' _]].
    assert (rest = []) as ->.
    { destruct rest as [|[k'' x''] rest]; [reflexivity|].
      cbn [forallb] in Hrest. rewrite andb_true_iff in Hrest.
      destruct Hrest as [Hf'' _].
      cbn [map fst existsb] in Hk, Hk'. rewrite orb_false_iff in Hk, Hk'.
      destruct Hk as [Hkk'' _], Hk' as [Hk'k'' _].
      apply String.eqb_neq in Hkk', Hkk'', Hk'k''.
      destruct (Hkey k x [] Hf) as [[-> _]|[-> _]],
        (Hkey k' x' [] Hf') as [[-> _]|[-> _]],
        (Hkey k'' x'' [] Hf'') as [[-> _]|[-> _]]; congruence. }
    apply String.eqb_neq in Hkk'.
    destruct (Hkey k x [] Hf) as [[-> Hx]|[-> Hx]],
      (Hkey k' x' [] Hf') as [[-> Hx']|[-> Hx']]; try congruence.
    + exists x, x'. split; [left; reflexivity|]. split; assumption.
    + exists x', x. split; [right; reflexivity|]. split; assumption.
Qed.

Lemma string_value v :
  validates type_string v = true -> exists text, v = VString text.
Proof. destruct v; try discriminate. intros _. eexists. reflexivity. Qed.

Lemma array_of_named_objects items :
  forallb (validates (type_object [("name"%string, type_string)]
                        ["name"%string] false)) items = true ->
  forallb parsed items = true ->
  exists persons : list PersonsList.entry,
    items
    = map (fun person =>
             VObject [("name"%string, VString (PersonsList.name person))])
        persons.
Proof.
  induction items as [|item items IH]; intros Hvalid Hparsed.
  - exists []. reflexivity.
  - cbn [forallb] in Hvalid, Hparsed. rewrite andb_true_iff in *.
    destruct Hvalid as [Hitem Hitems], Hparsed as [Hp Hps].
    destruct (object_of_one_property _ _ _ Hitem Hp) as (x & -> & Hx & _).
    destruct (string_value _ Hx) as [text ->].
    destruct (IH Hitems Hps) as [persons ->].
    exists (PersonsList.Entry text :: persons). reflexivity.
Qed.

(** ** The list of persons *)

(** X20. The answers the format [personsListJsonFormat] admits are the
    objects [{ persons: [{ name: "..." }, ...] }], with no other property at
    either level: they are the values of the responses
    [getRandomVirtualPersons] reads its names from. *)
Theorem personsList_admits_lists_of_names (v : value) :
  conforms personsListJsonFormat v = true
  <-> exists response : PersonsList.t, v = PersonsList_value response.
Proof.
  unfold conforms. cbn [json_formats.exports json_formats.personsList
    ResponseFormat.json_schema JsonSchema.schema].
  rewrite andb_true_iff. split.
  - intros [Hparsed Hvalid].
    destruct (object_of_one_property _ _ _ Hvalid Hparsed)
      as (x & -> & Hx & Hpx).
    destruct x as [| | | | |items|]; try discriminate.
    cbn [validates] in Hx. cbn [parsed] in Hpx.
    destruct (array_of_named_objects items Hx Hpx) as [persons ->].
    exists (PersonsList.Build persons). reflexivity.
  - intros [[persons] ->]. unfold PersonsList_value.
    cbn [PersonsList.persons].
    assert (Hitems :
      forallb parsed
        (map (fun person =>
                VObject [("name"%string, VString (PersonsList.name person))])
           persons) = true
      /\ forallb (validates (type_object [("name"%string, type_string)]
                               ["name"%string] false))
           (map (fun person =>
                   VObject
                     [("name"%string, VString (PersonsList.name person))])
              persons) = true).
    { induction persons as [|person persons [IHp IHv]];
        [split; reflexivity|].
      cbn [map forallb]. rewrite IHp, IHv. split; reflexivity. }
    destruct Hitems as [Hp Hv].
    set (items := map _ persons) in *. clearbody items.
    cbn [parsed validates forallb fst snd map distinct existsb own_property].
    rewrite !String.eqb_refl, Hp, Hv. split; reflexivity.
Qed.

Lemma personData_answers (v : value) :
  conforms personDataJsonFormat v = true ->
  exists biography status,
    v = VObject [("biography"%string, VString biography);
                 ("status"%string, VString status)]
    \/ v = VObject [("status"%string, VString status);
                    ("biography"%string, VString biography)].
Proof.
  unfold conforms. cbn [json_formats.exports json_formats.personData
    ResponseFormat.json_schema JsonSchema.schema].
  rewrite andb_true_iff. intros [Hparsed Hvalid].
  assert (Hkeys : "biography"%string <> "status"%string) by discriminate.
  destruct (object_of_two_properties _ _ _ _ _ Hkeys Hvalid Hparsed)
    as (x1 & x2 & Hv & Hx1 & Hx2).
  destruct (string_value _ Hx1) as [biography ->].
  destruct (string_value _ Hx2) as [status ->].
  exists biography, status. exact Hv.
Qed.

(** ** The data of a person *)

(** X21. The answers the format [personDataJsonFormat] admits are the
    objects with the two properties [biography] and [status], both strings,
    in either order, and no other property. *)
Theorem personData_admits_biography_and_status (v : value) :
  conforms personDataJsonFormat v = true
  <-> exists personData : PersonData.t,
        v = PersonData_value personData
        \/ v = VObject
                 [("status"%string, VString (PersonData.status personData));
                  ("biography"%string,
                   VString (PersonData.biography personData))].
Proof.
  split.
  - intros Hv.
    destruct (personData_answers v Hv) as (biography & status & Hcases).
    exists (PersonData.Build biography status). exact Hcases.
  - intros [[biography status] [->| ->]]; reflexivity.
Qed.

(** X22. An answer the format [personDataJsonFormat] admits has the strings
    [biography] and [status] that [resolvePersonsData] reads, and it has no
    property [push]: [personData.push] is [undefined]. *)
Theorem personData_answers_have_no_push (v : value) :
  conforms personDataJsonFormat v = true ->
  exists properties biography status,
    v = VObject properties
    /\ own_property "biography" properties = Some (VString biography)
    /\ own_property "status" properties = Some (VString status)
    /\ own_property "push" properties = None.
Proof.
  intros Hv.
  destruct (personData_answers v Hv) as (biography & status & [->| ->]);
    eexists _, biography, status; repeat split.
Qed.

(* ===================================================================== *)
(** * The image card *)
(* ===================================================================== *)

Local Open Scope string_scope.

Lemma own_property_define_property_eq key v properties :
  own_property key (define_property key v properties) = Some v.
Proof.
  induction properties as [|[k old] rest IH]; cbn [define_property].
  - cbn [own_property]. rewrite String.eqb_refl. reflexivity.
  - destruct (String.eqb k key) eqn:Hk; cbn [own_property]; rewrite Hk;
      [reflexivity|exact IH].
Qed.

Lemma own_property_define_property_ne key k v properties :
  k <> key ->
  own_property k (define_property key v properties)
  = own_property k properties.
Proof.
  intros Hne.
  induction properties as [|[k' old] rest IH]; cbn [define_property].
  - cbn [own_property]. destruct (String.eqb_spec key k); [congruence|].
    reflexivity.
  - destruct (String.eqb_spec k' key) as [->|Hk']; cbn [own_property].
    + destruct (String.eqb_spec key k); [congruence|reflexivity].
    + destruct (String.eqb k' k); [reflexivity|exact IH].
Qed.

Lemma changes_selection_intro this sel key v :
  changes_selection this sel key v
    (ImageCard.Emit "change"
       (VObject
          [("index", ImageCard.index this);
           ("selections",
            VObject (define_property key v (own_enumerable_properties sel)))])).
Proof.
  eexists. split; [reflexivity|].
  split; [apply own_property_define_property_eq|].
  intros k Hk. apply own_property_define_property_ne, Hk.
Qed.

(** A value that has properties to read has the property [m], or
    [undefined] for it. *)
Lemma read_defined v m m' x :
  ImageCard.read v m = inl x -> exists y, ImageCard.read v m' = inl y.
Proof.
  destruct v; try discriminate; intros _; eexists; reflexivity.
Qed.

(** A key that is not a number in decimal is no index. *)
Lemma no_index_is key (indices : list nat) :
  NilZero.uint_of_string key = None ->
  existsb (fun i => String.eqb (index_key i) key) indices = false.
Proof.
  intros Hkey. induction indices as [|i indices IH]; [reflexivity|].
  cbn [existsb]. rewrite IH, orb_false_r. apply String.eqb_neq.
  intros <-. unfold index_key in Hkey.
  destruct (NilZero.usu_gen (Nat.to_uint i)); congruence.
Qed.

Section ImageCardFacts.
Variable this : ImageCard.t.

(** ** Changing one selection *)

(** X23. [headingChange], [headingRepeat] and [sourceChange] each emit one
    [change], with the index of the component and the selections of the card
    in which the one property [heading], [repeat] or [promptSource] is set
    to the argument: every other selection, the settings among them, is
    carried over as it is. They throw only when the card is [undefined] or
    [null]. *)
Theorem selection_handlers_change_one_selection (v : value) :
  match ImageCard.read (ImageCard.card this) ImageCard.selections with
  | inl sel =>
      exists heading repeat promptSource,
        ImageCard.headingChange this v = inl heading
        /\ changes_selection this sel "heading" v heading
        /\ ImageCard.headingRepeat this v = inl repeat
        /\ changes_selection this sel "repeat" v repeat
        /\ ImageCard.sourceChange this v = inl promptSource
        /\ changes_selection this sel "promptSource" v promptSource
  | inr e =>
      ImageCard.headingChange this v = inr e
      /\ ImageCard.headingRepeat this v = inr e
      /\ ImageCard.sourceChange this v = inr e
      /\ (ImageCard.card this = VUndefined \/ ImageCard.card this = VNull)
  end.
Proof.
  unfold ImageCard.headingChange, ImageCard.headingRepeat,
    ImageCard.sourceChange, ImageCard.emitChange, and_next.
  destruct (ImageCard.read (ImageCard.card this) _) as [sel|e] eqn:Hread.
  - eexists _, _, _.
    repeat (split; [first [reflexivity|apply changes_selection_intro]|]).
    apply changes_selection_intro.
  - repeat (split; [reflexivity|]).
    destruct (ImageCard.card this); try discriminate Hread;
      [left|right]; reflexivity.
Qed.

(** ** Choosing a service *)

(** X24. The setter of [currentServiceName] emits one [change] in which the
    settings' property [generateImageBy] is exactly [{ name: newServiceName,
    params: imageParams }]; every other setting and every other selection is
    carried over as it is. A component created for a card with the emitted
    selections has the new name as its current service and the same params. *)
Theorem set_currentServiceName_round_trip (newServiceName : value) sel old :
  ImageCard.read (ImageCard.card this) ImageCard.selections = inl sel ->
  ImageCard.read sel ImageCard.settings = inl old ->
  exists e settings,
    ImageCard.set_currentServiceName this newServiceName = inl e
    /\ changes_selection this sel "settings" (VObject settings) e
    /\ own_property "generateImageBy" settings
       = Some (VObject [("name", newServiceName);
                        ("params", ImageCard.imageParams this)])
    /\ (forall k,
          k <> "generateImageBy" ->
          own_property k settings
          = own_property k (own_enumerable_properties old))
    /\ forall card' index' selections',
         ImageCard.emitted_selections e = inl selections' ->
         ImageCard.read card' ImageCard.selections = inl selections' ->
         exists this',
           ImageCard.instantiate card' index' = inl this'
           /\ ImageCard.currentServiceName this' = inl newServiceName
           /\ ImageCard.imageParams this' = ImageCard.imageParams this.
Proof.
  intros Hsel Hold.
  unfold ImageCard.set_currentServiceName, and_next. rewrite Hsel, Hold.
  eexists _, _. split; [reflexivity|].
  split; [apply changes_selection_intro|].
  split; [apply own_property_define_property_eq|].
  split; [intros k Hk; apply own_property_define_property_ne, Hk|].
  intros card' index' selections' Hemitted Hcard'.
  cbn [ImageCard.emitted_selections ImageCard.read ImageCard.member_key
       own_property] in Hemitted.
  cbn in Hemitted. injection Hemitted as <-.
  unfold ImageCard.instantiate, ImageCard.data, ImageCard.currentServiceName,
    and_next.
  cbn [ImageCard.card]. rewrite Hcard'.
  cbn [ImageCard.read ImageCard.member_key].
  rewrite (own_property_define_property_eq "settings").
  cbn [ImageCard.read ImageCard.member_key].
  rewrite (own_property_define_property_eq "generateImageBy").
  eexists. split; [reflexivity|].
  cbn [ImageCard.card ImageCard.imageParams fst]. rewrite Hcard'.
  cbn [ImageCard.read ImageCard.member_key].
  rewrite (own_property_define_property_eq "settings").
  cbn [ImageCard.read ImageCard.member_key].
  rewrite (own_property_define_property_eq "generateImageBy").
  split; reflexivity.
Qed.

(** ** Three ways to report the service *)

(** X25. [generateImageByChange] is the setter called with the current name:
    when the getter returns a name, both emit the same change, and when the
    getter throws, [generateImageByChange] throws the same exception. The
    watcher of [imageParams], called with the current params, does what
    [generateImageByChange] does. *)
Theorem generateImageByChange_is_set_to_current_name :
  match ImageCard.currentServiceName this with
  | inl serviceName =>
      ImageCard.generateImageByChange this
      = ImageCard.set_currentServiceName this serviceName
  | inr e => ImageCard.generateImageByChange this = inr e
  end
  /\ ImageCard.imageParams_handler this (ImageCard.imageParams this)
     = ImageCard.generateImageByChange this.
Proof.
  split; [|reflexivity].
  unfold ImageCard.generateImageByChange, ImageCard.set_currentServiceName,
    ImageCard.currentServiceName, and_next.
  destruct (ImageCard.read (ImageCard.card this) _) as [sel|];
    [|reflexivity].
  destruct (ImageCard.read sel _) as [old|]; [|reflexivity].
  destruct (ImageCard.read old _) as [generateImageBy|]; [|reflexivity].
  destruct (ImageCard.read generateImageBy _); reflexivity.
Qed.

(** ** A component that was created *)

(** X26. When [data()] returns for the card, no handler throws for it: the
    getter returns, and the setter, the watcher, [generateImageByChange] and
    [emitChange] each emit their change, whatever their arguments. *)
Theorem created_component_never_throws d :
  ImageCard.data (ImageCard.card this) = inl d ->
  (exists serviceName, ImageCard.currentServiceName this = inl serviceName)
  /\ (exists e, ImageCard.generateImageByChange this = inl e)
  /\ (forall newValue,
        exists e, ImageCard.imageParams_handler this newValue = inl e)
  /\ (forall newServiceName,
        exists e, ImageCard.set_currentServiceName this newServiceName = inl e)
  /\ (forall field v, exists e, ImageCard.emitChange this field v = inl e).
Proof.
  unfold ImageCard.data, ImageCard.currentServiceName,
    ImageCard.generateImageByChange, ImageCard.imageParams_handler,
    ImageCard.set_currentServiceName, ImageCard.emitChange,
    ImageCard.currentServiceName, and_next.
  destruct (ImageCard.read (ImageCard.card this) _) as [sel|]; [|discriminate].
  destruct (ImageCard.read sel _) as [old|]; [|discriminate].
  destruct (ImageCard.read old _) as [generateImageBy|]; [|discriminate].
  destruct (ImageCard.read generateImageBy ImageCard.params) as [p|] eqn:Hp;
    [|discriminate].
  intros _.
  destruct (read_defined _ _ ImageCard.name _ Hp) as [serviceName ->].
  repeat split; intros; eexists; reflexivity.
Qed.

End ImageCardFacts.

(** ** The validator of the prop *)

(** X27. A card the validator accepts is an object with an own property
    [selections], and [emitChange] never throws for it; but the property may
    hold anything, and [data()] throws for an accepted card whose selections
    are [undefined]. *)
Theorem validator_accepts_cards_with_selections :
  (forall this,
      ImageCard.validator (ImageCard.card this) = inl true ->
      (exists properties sel,
          ImageCard.card this = VObject properties
          /\ own_property "selections" properties = Some sel
          /\ own_property "type" properties <> None)
      /\ forall field v, exists e, ImageCard.emitChange this field v = inl e)
  /\ exists card e,
       ImageCard.validator card = inl true /\ ImageCard.data card = inr e.
Proof.
  split.
  - intros [card index imageParams isSettingsOpen]. cbn [ImageCard.card].
    unfold ImageCard.validator, ImageCard.emitChange, and_next.
    destruct card as [| |b|x|s|items|properties];
      cbn [ImageCard.hasOwnProperty]; try discriminate.
    + (* a string has no own property [selections] *)
      rewrite (no_index_is "selections") by reflexivity. discriminate.
    + rewrite (no_index_is "selections") by reflexivity. discriminate.
    + destruct (own_property "hasOwnProperty" properties); [discriminate|].
      destruct (own_property "selections" properties) as [sel|] eqn:Hsel;
        [|discriminate].
      destruct (own_property "type" properties) eqn:Htype; [|discriminate].
      intros _. split.
      * exists properties, sel. split; [reflexivity|].
        split; [exact Hsel|]. rewrite Htype. discriminate.
      * intros field v'. eexists. reflexivity.
  - exists (VObject
              [("selections", VUndefined); ("type", VString (lit "image"))]).
    eexists. split; reflexivity.
Qed.

Local Close Scope string_scope.

(* ===================================================================== *)
(** * The scenario, run *)
(* ===================================================================== *)

(** The failing input of C1: the single name "Ann". The text adapter
    answers, and the push on its answer throws. *)
Example resolvePersonsData_throws_on_a_name :
  run (scenario_env [] [])
    (resolvePersonsData scenario_this [CName (lit "Ann")] []) []
  = (inr (TypeError "personData.push is not a function"),
     [Called
        (createChatCompletionJson (Some 1000%Z)
           (getPersonDataPrompt scenario_this (CName (lit "Ann")))
           personDataJsonFormat)
        (inl (PersonData.Build (lit "A writer.") (lit "active")))]).
Proof. reflexivity. Qed.

Lemma resolvePersonsData_fails_on_unresolved_candidate_witness :
  Exists (fun person => carries_biography_and_status [] person = None)
    [CName (lit "Ann")]
  /\ exists person e answered,
       In person [CName (lit "Ann")]
       /\ run (scenario_env [] [])
            (resolvePersonsData scenario_this [CName (lit "Ann")] []) []
          = (inr e,
             [Called (createChatCompletionJson (Some 1000%Z)
                        (getPersonDataPrompt scenario_this person)
                        personDataJsonFormat)
                answered])
       /\ (answered = inr e
           \/ e = TypeError "personData.push is not a function").
Proof.
  split; [left; reflexivity|].
  apply (resolvePersonsData_fails_on_unresolved_candidate scenario_this
           (scenario_env [] []) [CName (lit "Ann")] [] []).
  left. reflexivity.
Defined.

(** With [names] proposed and all of them stored, [init] stops. *)
Lemma init_stops_after_deduplication_witness :
  let env := scenario_env [lit "Ann"] [ann] in
  let evs :=
    snd (run env (@getVirtualPersons scenario_platform scenario_this
                    (Number_of_Z 1) (Number_of_Z 3)) []) in
  run env (@getVirtualPersons scenario_platform scenario_this
             (Number_of_Z 1) (Number_of_Z 3)) [] = (inl [], evs)
  /\ run env (@init scenario_platform scenario_this
                (Number_of_Z 1) (Number_of_Z 3) [ann]) []
     = (inl [ann], evs).
Proof.
  split; [vm_compute; reflexivity|].
  apply (@init_stops_after_deduplication scenario_platform scenario_this
           (scenario_env [lit "Ann"] [ann]) (Number_of_Z 1) (Number_of_Z 3)
           [ann] []).
  vm_compute. reflexivity.
Defined.

(** Bob and Carl have no headshot and no image comes back: Bob's turn
    fails, is patched, and Carl's turn follows. *)
Lemma resolvePersonImages_continues_without_url_witness :
  truthy (Person.headshot ([bob; carl] !!! 0)) = false
  /\ answer (scenario_env [] []) []
       (headshot_request scenario_this (Person.name ([bob; carl] !!! 0)))
     = inl None
  /\ truthy (@None jsstring) = false
  /\ fst (run (scenario_env [] [])
            (resolvePersonImages scenario_this [0; 1] [bob; carl]) [])
     = inl [bob; carl]
  /\ omap image_query
       (snd (run (scenario_env [] [])
               (resolvePersonImages scenario_this [0; 1] [bob; carl]) []))
     = [headshot_prompt (lit "Bob"); headshot_prompt (lit "Carl")]
  /\ omap patch_of
       (snd (run (scenario_env [] [])
               (resolvePersonImages scenario_this [0; 1] [bob; carl]) []))
     = [(None, bob); (None, carl)].
Proof.
  split; [reflexivity|]. split; [reflexivity|]. split; [reflexivity|].
  pose proof (resolvePersonImages_continues_without_url scenario_this
                (scenario_env [] []) 0 [1] [bob; carl] [] None
                eq_refl eq_refl eq_refl) as Hrun.
  cbv zeta in Hrun. cbn [answer scenario_env scenario_answer] in Hrun.
  rewrite Hrun. repeat split.
Defined.

Lemma savePersonsData_creates_once_each_witness :
  (forall l, In l [0; 1] -> l < length [ann; bob])
  /\ exists created h' evs,
       run (scenario_env [] [])
         (@savePersonsData scenario_platform scenario_this [0; 1] [ann; bob])
         []
       = (inl (created, h'), evs).
Proof.
  assert (Hvalid : forall l, In l [0; 1] -> l < length [ann; bob])
    by (cbn; intros l [<-|[<-|[]]]; lia).
  split; [exact Hvalid|].
  apply (@savePersonsData_creates_once_each scenario_platform scenario_this
           (scenario_env [] []) [0; 1] [ann; bob] [] Hvalid).
  intros tr data. eexists. reflexivity.
Defined.

Lemma filterExistingPersons_idempotent_witness :
  answers_find_from (scenario_env [] [ann]) [ann]
  /\ exists remaining,
       fst (run (scenario_env [] [ann])
              (filterExistingPersons [lit "Ann"; lit "Bob"]) [])
       = inl remaining
       /\ fst (run (scenario_env [] [ann]) (filterExistingPersons remaining) [])
          = inl remaining.
Proof.
  assert (Hfind : answers_find_from (scenario_env [] [ann]) [ann])
    by (intros tr keys select paginate; reflexivity).
  split; [exact Hfind|].
  apply (filterExistingPersons_idempotent (scenario_env [] [ann]) [ann]
           [lit "Ann"; lit "Bob"] [] [] Hfind).
Defined.

Lemma resolvePersonImages_skips_record_with_headshot_witness :
  truthy (Person.headshot ([ann; bob] !!! 0)) = true
  /\ run (scenario_env [] [])
       (resolvePersonImages scenario_this ([1] ++ 0 :: [1]) [ann; bob]) []
     = run (scenario_env [] [])
         (resolvePersonImages scenario_this ([1] ++ [1]) [ann; bob]) [].
Proof.
  split; [reflexivity|].
  apply (resolvePersonImages_skips_record_with_headshot scenario_this
           (scenario_env [] []) [1] 0 [1] [ann; bob] []).
  reflexivity.
Defined.

(** ** C5: the prompt is not the template of the specification *)

(** The request made for Bob has a space between the name and the comma,
    which the template "Photo headshot for the {name}, Aged 30-40 years
    old." has not. *)
Lemma headshot_prompt_is_not_the_spec_template :
  omap image_query
    (snd (run (scenario_env [] [])
            (resolvePersonImages scenario_this [0] [bob]) []))
  = [lit "Photo headshot for the Bob , Aged 30-40 years old."]
  /\ spec_headshot_prompt (lit "Bob")
     = lit "Photo headshot for the Bob, Aged 30-40 years old."
  /\ lit "Photo headshot for the Bob , Aged 30-40 years old."
     <> spec_headshot_prompt (lit "Bob").
Proof.
  split; [reflexivity|]. split; [reflexivity|]. vm_compute. discriminate.
Qed.

(** ** C3: a rejected patch ends the batch *)

(** No image comes back for Bob, and the patch of his record is rejected:
    the loop ends with the rejection after Bob's turn. Carl, who has no
    headshot either, is never asked for, patched or waited for. *)
Lemma rejected_patch_after_no_url_aborts :
  answer readonly_env []
    (headshot_request scenario_this (Person.name ([bob; carl] !!! 0)))
  = inl None
  /\ lacks_headshot [bob; carl] 1 = true
  /\ run readonly_env (resolvePersonImages scenario_this [0; 1] [bob; carl]) []
     = (inr (Rejected "service unavailable"),
        [Called (headshot_request scenario_this (lit "Bob")) (inl None);
         Did (console_warn "Failed to generate headshot");
         Called (VirtualPersonsService_patch None bob)
           (inr (Rejected "service unavailable"))]).
Proof. repeat split. Qed.

Lemma getRandomVirtualPersons_count_within_witness :
  exists k : Z,
    (1 <= k <= 3)%Z
    /\ random_integer (S754_zero false) (Number_of_Z 1) (Number_of_Z 3)
       = Number_of_Z k
    /\ exists answered,
         snd (run (scenario_env [lit "Ann"] [])
                (@getRandomVirtualPersons scenario_platform scenario_this
                   (Number_of_Z 1) (Number_of_Z 3)) [])
         = [Drew (S754_zero false);
            Called (createChatCompletionJson None
                      (@names_prompt scenario_platform scenario_this
                         (Number_of_Z k))
                      personsListJsonFormat) answered].
Proof.
  apply (@getRandomVirtualPersons_count_within scenario_platform scenario_this
           (scenario_env [lit "Ann"] []) 1 3 []);
    [reflexivity|lia|reflexivity|reflexivity|reflexivity].
Defined.

(** With images that come back, Bob's portrait is asked under Bob's name and
    Carl's under Carl's. *)
Lemma resolvePersonImages_image_requests_are_fixed_witness :
  NoDup [0; 1]
  /\ omap image_request
       (snd (run studio_env
               (resolvePersonImages scenario_this [0; 1] [bob; carl]) []))
     = [headshot_request scenario_this (lit "Bob");
        headshot_request scenario_this (lit "Carl")].
Proof.
  assert (Hnodup : NoDup [0; 1])
    by (repeat constructor; cbn; intros Hin; inversion Hin; subst;
        try discriminate;
        match goal with H : _ ∈ [] |- _ => inversion H end).
  split; [exact Hnodup|].
  destruct (resolvePersonImages_image_requests_are_fixed scenario_this
              studio_env [0; 1] [bob; carl] [])
    as (_ & _ & Hdistinct).
  destruct (Hdistinct Hnodup) as [_ Hall].
  erewrite Hall; reflexivity.
Defined.

(* ===================================================================== *)
(** * The further properties, in the scenarios *)
(* ===================================================================== *)

Lemma encodeName_is_base64_text_witness :
  is_utf16 (lit "Ann") = true
  /\ Forall is_base64_char (encodeName (lit "Ann")).
Proof.
  split; [reflexivity|].
  apply (encodeName_is_base64_text (lit "Ann")). reflexivity.
Defined.

Lemma encodeName_length_witness :
  is_utf16 (lit "Ann") = true
  /\ length (encodeName (lit "Ann"))
     = 4 * ((length (Buffer_from (lit "Ann")) + 2) / 3)
  /\ 4 * ((length (lit "Ann") + 2) / 3) <= length (encodeName (lit "Ann"))
     <= 4 * length (lit "Ann").
Proof.
  split; [reflexivity|].
  apply (encodeName_length (lit "Ann")). reflexivity.
Defined.

(** The key of a lone surrogate is read back as U+FFFD. *)
Lemma encodeName_decodes_to_well_formed_name_witness :
  is_utf16 [0xD800%N] = true
  /\ utf8_decode (base64_decode (encodeName [0xD800%N]))
     = toWellFormed [0xD800%N]
  /\ (well_formed [0xD800%N] = true -> toWellFormed [0xD800%N] = [0xD800%N]).
Proof.
  split; [reflexivity|].
  apply (encodeName_decodes_to_well_formed_name [0xD800%N]). reflexivity.
Defined.

Lemma encodeName_collides_iff_witness :
  is_utf16 [0xD800%N] = true /\ is_utf16 [0xFFFD%N] = true
  /\ (encodeName [0xD800%N] = encodeName [0xFFFD%N]
      <-> toWellFormed [0xD800%N] = toWellFormed [0xFFFD%N]).
Proof.
  split; [reflexivity|]. split; [reflexivity|].
  apply (encodeName_collides_iff [0xD800%N] [0xFFFD%N]); reflexivity.
Defined.

Lemma scenario_answers_find_from names store :
  answers_find_from (scenario_env names store) store.
Proof. intros tr keys select paginate. reflexivity. Qed.

Lemma ann_keyed_by_name : keyed_by_name [ann].
Proof. constructor; [reflexivity|constructor]. Qed.

(** Ann is stored: of Ann and Bob, Bob remains. *)
Lemma filterExistingPersons_keeps_names_not_stored_witness :
  answers_find_from (scenario_env [] [ann]) [ann] /\ keyed_by_name [ann]
  /\ fst (run (scenario_env [] [ann])
            (filterExistingPersons [lit "Ann"; lit "Bob"]) [])
     = inl [lit "Bob"].
Proof.
  split; [apply scenario_answers_find_from|].
  split; [apply ann_keyed_by_name|].
  apply (filterExistingPersons_keeps_names_not_stored
           (scenario_env [] [ann]) [ann] [lit "Ann"; lit "Bob"] []
           (scenario_answers_find_from [] [ann]) ann_keyed_by_name).
Defined.

Lemma filterExistingPersons_leaves_new_keys_witness :
  answers_find_from (scenario_env [] [ann]) [ann] /\ keyed_by_name [ann]
  /\ fst (run (scenario_env [] [ann])
            (filterExistingPersons [lit "Ann"; lit "Bob"]) [])
     = inl [lit "Bob"]
  /\ Person.nameEncoded ann <> Some (encodeName (lit "Bob")).
Proof.
  split; [apply scenario_answers_find_from|].
  split; [apply ann_keyed_by_name|]. split; [reflexivity|].
  apply (filterExistingPersons_leaves_new_keys
           (scenario_env [] [ann]) [ann] [lit "Ann"; lit "Bob"] []
           [lit "Bob"]
           (scenario_answers_find_from [] [ann]) ann_keyed_by_name).
  - repeat constructor.
  - repeat constructor.
  - reflexivity.
  - left. reflexivity.
  - left. reflexivity.
Defined.

Lemma studio_draws_below_one : draws_below_one studio_env.
Proof. intros tr. reflexivity. Qed.

Lemma studio_answers_images : answers_images studio_env.
Proof.
  split; [|split].
  - intros tr s serviceName options query ratio. eexists. reflexivity.
  - intros tr url. eexists. reflexivity.
  - intros tr id data. reflexivity.
Qed.

Lemma resolvePersonImages_delays_within_witness :
  draws_below_one studio_env
  /\ Forall
       (fun ms => exists k : Z, ms = Number_of_Z k /\ (1500 <= k <= 2500)%Z)
       (omap delay_of
          (snd (run studio_env
                  (resolvePersonImages scenario_this [0; 1] [bob; carl]) []))).
Proof.
  split; [apply studio_draws_below_one|].
  apply (resolvePersonImages_delays_within scenario_this studio_env
           [0; 1] [bob; carl] [] studio_draws_below_one).
Defined.

(** Bob gets the stored headshot; Ann, who had one, is what she was. *)
Lemma resolvePersonImages_sets_only_headshots_witness :
  let run_ :=
    run studio_env (resolvePersonImages scenario_this [0; 1] [ann; bob]) [] in
  let h' :=
    [ann;
     Person.set_headshot bob (Some (lit "https://cdn.example.org/1.png"))] in
  run_ = (inl h', snd run_)
  /\ length h' = length [ann; bob]
  /\ forall l : nat,
       h' !!! l = [ann; bob] !!! l
       \/ (In l [0; 1] /\ lacks_headshot [ann; bob] l = true
           /\ exists url,
                truthy (Some url) = true
                /\ In url (omap stored_url (snd run_))
                /\ h' !!! l
                   = Person.set_headshot ([ann; bob] !!! l) (Some url)).
Proof.
  split; [reflexivity|].
  apply (resolvePersonImages_sets_only_headshots scenario_this studio_env
           [0; 1] [ann; bob] []).
  reflexivity.
Defined.

Lemma resolvePersonImages_processes_each_record_once_witness :
  answers_images studio_env /\ NoDup [0; 1]
  /\ exists (h' : list Person.t) evs,
       run studio_env (resolvePersonImages scenario_this [0; 1] [bob; carl]) []
       = (inl h', evs)
       /\ omap image_query evs
          = map (fun l => headshot_prompt (Person.name ([bob; carl] !!! l)))
              (List.filter (lacks_headshot [bob; carl]) [0; 1])
       /\ omap patch_of evs
          = map (fun l => (Person._id (h' !!! l), h' !!! l))
              (List.filter (lacks_headshot [bob; carl]) [0; 1])
       /\ length (omap delay_of evs)
          = length (List.filter (lacks_headshot [bob; carl]) [0; 1]).
Proof.
  assert (Hnodup : NoDup [0; 1])
    by (repeat constructor; cbn; intros Hin; inversion Hin; subst;
        try discriminate;
        match goal with H : _ ∈ [] |- _ => inversion H end).
  split; [apply studio_answers_images|]. split; [exact Hnodup|].
  apply (resolvePersonImages_processes_each_record_once scenario_this
           studio_env [0; 1] [bob; carl] [] studio_answers_images Hnodup).
Defined.

Lemma bob_and_carl_are_live :
  forall l, In l [0; 1] -> l < length [bob; carl].
Proof. cbn. intros l [<-|[<-|[]]]; lia. Qed.

(** The service is full after Bob: Carl's create is rejected. *)
Lemma savePersonsData_keeps_earlier_creates_witness :
  let run_ :=
    run full_env
      (@savePersonsData scenario_platform scenario_this [0; 1] [bob; carl])
      [] in
  (forall l, In l [0; 1] -> l < length [bob; carl])
  /\ run_ = (inr (Rejected "quota exceeded"), snd run_)
  /\ exists before failed rest answered,
       List.filter (lacks_id [bob; carl]) [0; 1] = before ++ failed :: rest
       /\ length answered = length before
       /\ snd run_
          = map (fun created =>
                   Called
                     (VirtualPersonsService_create
                        (@create_payload scenario_platform scenario_this
                           ([bob; carl] !!! fst created)))
                     (inl (snd created)))
              (combine before answered)
            ++ [Called
                  (VirtualPersonsService_create
                     (@create_payload scenario_platform scenario_this
                        ([bob; carl] !!! failed)))
                  (inr (Rejected "quota exceeded"))].
Proof.
  split; [apply bob_and_carl_are_live|]. split; [reflexivity|].
  apply (@savePersonsData_keeps_earlier_creates scenario_platform
           scenario_this full_env [0; 1] [bob; carl] []
           (Rejected "quota exceeded") _ bob_and_carl_are_live).
  reflexivity.
Defined.

Lemma ann_and_bob_are_live :
  forall l, In l [0; 1] -> l < length [ann; bob].
Proof. cbn. intros l [<-|[<-|[]]]; lia. Qed.

(** Ann and Bob are saved, Bob is created; what is returned is saved. *)
Lemma savePersonsData_returned_list_is_saved_witness :
  let save :=
    @savePersonsData scenario_platform scenario_this in
  let first := run (scenario_env [] []) (save [0; 1] [ann; bob]) [] in
  let created := [0; 2] in
  let h' :=
    [ann; bob;
     Person.Build (Some (lit "id-1")) (lit "Bob") (Some (lit "A writer."))
       (Some (lit "active")) None (Some (encodeName (lit "Bob")))
       (Some (lit "Bob.html")) (Some (lit "project-1")) (Some (lit "user-1"))
       (Some (lit "example.org"))] in
  (forall l, In l [0; 1] -> l < length [ann; bob])
  /\ first = (inl (created, h'), snd first)
  /\ Forall (fun e => answered_with_id e = true) (snd first)
  /\ run (scenario_env [] []) (save created h') [] = (inl (created, h'), []).
Proof.
  assert (Hids : Forall (fun e => answered_with_id e = true)
                   (snd (run (scenario_env [] [])
                           (@savePersonsData scenario_platform scenario_this
                              [0; 1] [ann; bob]) [])))
    by (repeat constructor).
  split; [apply ann_and_bob_are_live|]. split; [reflexivity|].
  split; [exact Hids|].
  apply (@savePersonsData_returned_list_is_saved scenario_platform
           scenario_this (scenario_env [] []) [0; 1] [ann; bob] [] [0; 2] _ _
           [] ann_and_bob_are_live eq_refl Hids).
Defined.

(** Saving Ann and Bob a second time creates Bob a second time. *)
Lemma savePersonsData_repeats_creates_on_its_input_witness :
  let save :=
    @savePersonsData scenario_platform scenario_this in
  let first := run (scenario_env [] []) (save [0; 1] [ann; bob]) [] in
  let h' :=
    match fst first with inl (_, h') => h' | inr _ => [] end in
  let second := run (scenario_env [] []) (save [0; 1] h') [] in
  (forall l, In l [0; 1] -> l < length [ann; bob])
  /\ omap created_payload (snd second) = omap created_payload (snd first)
  /\ omap created_payload (snd first)
     = map (fun l => @create_payload scenario_platform scenario_this
                       ([ann; bob] !!! l))
         (List.filter (lacks_id [ann; bob]) [0; 1]).
Proof.
  split; [apply ann_and_bob_are_live|].
  apply (@savePersonsData_repeats_creates_on_its_input scenario_platform
           scenario_this (scenario_env [] []) [0; 1] [ann; bob] [] [0; 2] _ _
           [] [0; 3] _ _ ann_and_bob_are_live eq_refl eq_refl).
Defined.

(** Ann carries a biography and a status. *)
Lemma resolvePersonsData_passes_resolved_records_witness :
  Forall
    (fun l =>
       truthy (Person.biography ([ann] !!! l)) = true
       /\ truthy (Person.status ([ann] !!! l)) = true)
    [0]
  /\ run (scenario_env [] [])
       (resolvePersonsData scenario_this [CObject 0] [ann]) []
     = (inl ([0], [ann]), []).
Proof.
  assert (Hall : Forall
                   (fun l =>
                      truthy (Person.biography ([ann] !!! l)) = true
                      /\ truthy (Person.status ([ann] !!! l)) = true)
                   [0])
    by (repeat constructor).
  split; [exact Hall|].
  apply (resolvePersonsData_passes_resolved_records scenario_this
           (scenario_env [] []) [0] [ann] [] Hall).
Defined.

(** Bob is proposed and not stored: [init] fails on his biography. *)
Lemma init_fails_when_a_name_remains_witness :
  let env := scenario_env [lit "Bob"] [] in
  let names :=
    run env (@getVirtualPersons scenario_platform scenario_this
               (Number_of_Z 1) (Number_of_Z 3)) [] in
  names = (inl [lit "Bob"], snd names)
  /\ exists e answered,
       run env (@init scenario_platform scenario_this
                  (Number_of_Z 1) (Number_of_Z 3) []) []
       = (inr e,
          snd names
          ++ [Called
                (createChatCompletionJson (Some 1000%Z)
                   (getPersonDataPrompt scenario_this (CName (lit "Bob")))
                   personDataJsonFormat)
                answered])
       /\ (answered = inr e
           \/ (exists personData, answered = inl personData)
              /\ e = TypeError "personData.push is not a function").
Proof.
  split; [vm_compute; reflexivity|].
  apply (@init_fails_when_a_name_remains scenario_platform scenario_this
           (scenario_env [lit "Bob"] []) (Number_of_Z 1) (Number_of_Z 3)
           [] [] (lit "Bob") []).
  vm_compute. reflexivity.
Defined.

Lemma getRandomVirtualPersons_count_of_equal_bounds_witness :
  random_integer (S754_zero false) (Number_of_Z 2) (Number_of_Z 2)
  = Number_of_Z 2
  /\ exists answered,
       snd (run (scenario_env [lit "Ann"] [])
              (@getRandomVirtualPersons scenario_platform scenario_this
                 (Number_of_Z 2) (Number_of_Z 2)) [])
       = [Drew (S754_zero false);
          Called (createChatCompletionJson None
                    (@names_prompt scenario_platform scenario_this
                       (Number_of_Z 2))
                    personsListJsonFormat) answered].
Proof.
  apply (@getRandomVirtualPersons_count_of_equal_bounds scenario_platform
           scenario_this (scenario_env [lit "Ann"] []) 2 []);
    [split; reflexivity|reflexivity].
Defined.

(** With the bounds 3 and 1 and the draw 0, three names are asked for. *)
Lemma getRandomVirtualPersons_count_within_swapped_bounds_witness :
  exists k : Z,
    (1 <= k <= 3)%Z
    /\ random_integer (S754_zero false) (Number_of_Z 3) (Number_of_Z 1)
       = Number_of_Z k
    /\ exists answered,
         snd (run (scenario_env [lit "Ann"] [])
                (@getRandomVirtualPersons scenario_platform scenario_this
                   (Number_of_Z 3) (Number_of_Z 1)) [])
         = [Drew (S754_zero false);
            Called (createChatCompletionJson None
                      (@names_prompt scenario_platform scenario_this
                         (Number_of_Z k))
                      personsListJsonFormat) answered].
Proof.
  apply (@getRandomVirtualPersons_count_within_swapped_bounds
           scenario_platform scenario_this (scenario_env [lit "Ann"] []) 3 1
           []);
    [reflexivity|lia|reflexivity|reflexivity|reflexivity].
Defined.

(** The answer of the scenario has a biography and a status, and no
    [push]. *)
Lemma personData_answers_have_no_push_witness :
  let v :=
    PersonData_value (PersonData.Build (lit "A writer.") (lit "active")) in
  conforms personDataJsonFormat v = true
  /\ exists properties biography status,
       v = VObject properties
       /\ own_property "biography" properties = Some (VString biography)
       /\ own_property "status" properties = Some (VString status)
       /\ own_property "push" properties = None.
Proof.
  split; [reflexivity|].
  apply (personData_answers_have_no_push
           (PersonData_value
              (PersonData.Build (lit "A writer.") (lit "active")))).
  reflexivity.
Defined.

Lemma personsList_admits_lists_of_names_witness :
  conforms personsListJsonFormat
    (PersonsList_value (PersonsList.Build [PersonsList.Entry (lit "Ann")]))
  = true.
Proof.
  apply (proj2 (personsList_admits_lists_of_names
                  (PersonsList_value
                     (PersonsList.Build [PersonsList.Entry (lit "Ann")])))).
  eexists. reflexivity.
Defined.

Lemma personData_admits_biography_and_status_witness :
  conforms personDataJsonFormat
    (PersonData_value (PersonData.Build (lit "A writer.") (lit "active")))
  = true.
Proof.
  apply (proj2 (personData_admits_biography_and_status
                  (PersonData_value
                     (PersonData.Build (lit "A writer.") (lit "active"))))).
  eexists. left. reflexivity.
Defined.

(** Choosing another service for the hero card. *)
Lemma set_currentServiceName_round_trip_witness :
  let sel :=
    VObject
      [("heading"%string, VString (lit "h2"));
       ("settings"%string,
        VObject
          [("generateImageBy"%string,
            VObject
              [("name"%string, VString (lit "midjourney"));
               ("params"%string,
                VObject [("aspectRatio"%string, VString (lit "1:1"))])]);
           ("quality"%string, VString (lit "high"))])] in
  ImageCard.read (ImageCard.card hero_component) ImageCard.selections = inl sel
  /\ exists e settings,
       ImageCard.set_currentServiceName hero_component (VString (lit "dalle_3"))
       = inl e
       /\ changes_selection hero_component sel "settings" (VObject settings) e
       /\ own_property "generateImageBy" settings
          = Some (VObject
                    [("name"%string, VString (lit "dalle_3"));
                     ("params"%string,
                      ImageCard.imageParams hero_component)])
       /\ own_property "quality" settings = Some (VString (lit "high")).
Proof.
  split; [reflexivity|].
  destruct (set_currentServiceName_round_trip hero_component
              (VString (lit "dalle_3")) _ _ eq_refl eq_refl)
    as (e & settings & He & Hchange & Hset & Hkeep & _).
  exists e, settings. split; [exact He|]. split; [exact Hchange|].
  split; [exact Hset|]. rewrite Hkeep by discriminate. reflexivity.
Defined.

Lemma created_component_never_throws_witness :
  ImageCard.data (ImageCard.card hero_component)
  = inl (ImageCard.imageParams hero_component, false)
  /\ exists e, ImageCard.generateImageByChange hero_component = inl e.
Proof.
  split; [reflexivity|].
  apply (created_component_never_throws hero_component _ eq_refl).
Defined.

Lemma validator_accepts_cards_with_selections_witness :
  ImageCard.validator (ImageCard.card hero_component) = inl true
  /\ forall field v,
       exists e, ImageCard.emitChange hero_component field v = inl e.
Proof.
  split; [reflexivity|].
  apply (proj1 validator_accepts_cards_with_selections hero_component).
  reflexivity.
Defined.
